(** * Falling petals: a shallow embedding of the canvas animation script

    The script is one closure over a handful of mutable bindings ([state],
    [quality], [perf], [petals], [w], [h], [dpr], [lastT]).  The embedding
    threads them through every function as one record, [World.t].

    Numbers.  A JavaScript number is modelled by an exact rational ([Q]):
    every literal of the script is a decimal fraction and every operation used
    on the paths below is a field operation, a comparison, [Math.floor],
    [Math.ceil] or [Math.round].  Rounding of the binary representation is
    not modelled, and neither are NaN and the infinities.  [Math.sin] and
    [Math.random] are supplied by the host, see [Host]. *)

From Stdlib Require Import ZArith QArith Qround Qpower Lia Lqa List Bool Sorted.
From Stdlib Require Ascii String.
Import ListNotations.
Import String.StringSyntax Ascii.AsciiSyntax.
Delimit Scope string_scope with string.
Delimit Scope char_scope with char.

Local Open Scope Q_scope.

(** ** Comparisons and the numeric helpers of the script *)

Definition Qltb (a b : Q) : bool := (Qnum a * QDen b <? Qnum b * QDen a)%Z.
Definition Qleb (a b : Q) : bool := (Qnum a * QDen b <=? Qnum b * QDen a)%Z.
Definition Qeqb (a b : Q) : bool := (Qnum a * QDen b =? Qnum b * QDen a)%Z.

(** [Math.max], [Math.min] on two arguments. *)
Definition Math_max (a b : Q) : Q := if Qltb a b then b else a.
Definition Math_min (a b : Q) : Q := if Qltb b a then b else a.

(** [Math.floor], [Math.ceil], [Math.round] (halves round towards +infinity). *)
Definition Math_floor (v : Q) : Z := Qfloor v.
Definition Math_ceil (v : Q) : Z := Qceiling v.
Definition Math_round (v : Q) : Z := Qfloor (v + (1 # 2)).

(** [Math.PI] is the double 0x400921FB54442D18, a rational. *)
Definition Math_PI : Q := 884279719003555 # 281474976710656.

(** [const clamp = (v, min, max) => Math.max(min, Math.min(max, v))] *)
Definition clamp (v min max : Q) : Q := Math_max min (Math_min max v).

(** [const lerp = (a, b, t) => a + (b - a) * t] *)
Definition lerp (a b t : Q) : Q := a + (b - a) * t.

(** ** Colours and the palette *)

(** An [[r, g, b]] array. *)
Definition Rgb : Type := (Z * Z * Z)%type.

(** A CSS colour string [rgba(r, g, b, a)], kept structured. *)
Inductive Css : Type := Rgba (rgb : Rgb) (alpha : Q).

(** [const mixRgb = (a, b, t) => [Math.round(lerp(a[0], b[0], t)), ...]] *)
Definition mixRgb (a b : Rgb) (t : Q) : Rgb :=
  let '(a0, a1, a2) := a in
  let '(b0, b1, b2) := b in
  (Math_round (lerp (inject_Z a0) (inject_Z b0) t),
   Math_round (lerp (inject_Z a1) (inject_Z b1) t),
   Math_round (lerp (inject_Z a2) (inject_Z b2) t)).

Definition rgba (rgb : Rgb) (alpha : Q) : Css := Rgba rgb alpha.

Module palette.
Definition fillA0 : Rgb := (255, 230, 240)%Z.
Definition fillA1 : Rgb := (255, 220, 235)%Z.
Definition fillA2 : Rgb := (255, 205, 225)%Z.
Definition fillB0 : Rgb := (255, 255, 255)%Z.
Definition fillB1 : Rgb := (255, 245, 250)%Z.
Module target.
Definition fillA : Rgb := (245, 165, 195)%Z.
Definition fillB : Rgb := (255, 225, 238)%Z.
Definition outline : Rgb := (230, 105, 145)%Z.
Definition vein : Rgb := (220, 90, 135)%Z.
Definition microVein : Rgb := (235, 125, 160)%Z.
End target.
Definition outlineBase : Rgb := (255, 185, 208)%Z.
Definition veinBase : Rgb := (255, 175, 200)%Z.
Definition microVeinBase : Rgb := (255, 195, 214)%Z.
End palette.

(** ** The 2D drawing context as a log of calls *)

(** A radial gradient with its colour stops, as built by
    [createRadialGradient] followed by [addColorStop]. *)
Record Gradient : Type := RadialGradient {
  g_x0 : Q; g_y0 : Q; g_r0 : Q; g_x1 : Q; g_y1 : Q; g_r1 : Q;
  g_stops : list (Q * Css)
}.

(** One call on (or assignment to) a [CanvasRenderingContext2D].  A context
    is modelled by the list of calls made on it, oldest first. *)
#[warnings="-register-all"]
Inductive CanvasOp : Type :=
| setTransform (a b c d e f : Q)
| clearRect (x y w h : Q)
| translate (x y : Q)
| rotate (angle : Q)
| scale (x y : Q)
| save
| restore
| beginPath
| closePath
| moveTo (x y : Q)
| bezierCurveTo (cp1x cp1y cp2x cp2y x y : Q)
| quadraticCurveTo (cpx cpy x y : Q)
| fill
| stroke
| set_filter (blur : option Q)          (* [Some b] is [blur(b px)], [None] is ["none"] *)
| set_fillStyle (g : Gradient)
| set_strokeStyle (c : Css)
| set_lineWidth (v : Q)
| set_shadowColor (c : Css)
| set_shadowBlur (v : Q)
| set_shadowOffsetX (v : Q)
| set_shadowOffsetY (v : Q)
| set_globalAlpha (v : Q)
| mul_globalAlpha (v : Q)               (* [ctx.globalAlpha *= v] *)
| drawImage (image : list CanvasOp) (dx dy dw dh : Q).

(** ** Petals *)

Module PetalShape.
Record t : Type := mk {
  wScale : Q; hScale : Q;
  asym : Q; notch : Q; tip : Q; lobe : Q; curl : Q;
  vein : Q;
  gradX : Q; gradY : Q;
  edge : Q; detail : Q;
  veinCount : Z
}.
End PetalShape.

(** An offscreen canvas caching one petal: its side and the calls made on its
    context since it was created. *)
Module Sprite.
Record t : Type := mk { width : Z; height : Z; calls : list CanvasOp }.
End Sprite.

Module Petal.
Record t : Type := mk {
  x : Q; y : Q;
  vx : Q; vy : Q;
  size : Q;
  rot : Q; rotSpeed : Q;
  swayPhase : Q; swayAmp : Q; swaySpeed : Q;
  flutterPhase : Q; flutterSpeed : Q; flutterAmp : Q;
  baseA : Rgb; baseB : Rgb;
  colorA : Css; colorB : Css;
  alphaSeed : Q; alpha : Q;
  shape : PetalShape.t;
  sprite : option Sprite.t;
  spriteSize : Z
}.

Definition set_x (v : Q) (p : t) : t :=
  mk v (y p) (vx p) (vy p) (size p) (rot p) (rotSpeed p)
     (swayPhase p) (swayAmp p) (swaySpeed p)
     (flutterPhase p) (flutterSpeed p) (flutterAmp p)
     (baseA p) (baseB p) (colorA p) (colorB p) (alphaSeed p) (alpha p)
     (shape p) (sprite p) (spriteSize p).

Definition set_y (v : Q) (p : t) : t :=
  mk (x p) v (vx p) (vy p) (size p) (rot p) (rotSpeed p)
     (swayPhase p) (swayAmp p) (swaySpeed p)
     (flutterPhase p) (flutterSpeed p) (flutterAmp p)
     (baseA p) (baseB p) (colorA p) (colorB p) (alphaSeed p) (alpha p)
     (shape p) (sprite p) (spriteSize p).

Definition set_rot (v : Q) (p : t) : t :=
  mk (x p) (y p) (vx p) (vy p) (size p) v (rotSpeed p)
     (swayPhase p) (swayAmp p) (swaySpeed p)
     (flutterPhase p) (flutterSpeed p) (flutterAmp p)
     (baseA p) (baseB p) (colorA p) (colorB p) (alphaSeed p) (alpha p)
     (shape p) (sprite p) (spriteSize p).

Definition set_swayPhase (v : Q) (p : t) : t :=
  mk (x p) (y p) (vx p) (vy p) (size p) (rot p) (rotSpeed p)
     v (swayAmp p) (swaySpeed p)
     (flutterPhase p) (flutterSpeed p) (flutterAmp p)
     (baseA p) (baseB p) (colorA p) (colorB p) (alphaSeed p) (alpha p)
     (shape p) (sprite p) (spriteSize p).

Definition set_flutterPhase (v : Q) (p : t) : t :=
  mk (x p) (y p) (vx p) (vy p) (size p) (rot p) (rotSpeed p)
     (swayPhase p) (swayAmp p) (swaySpeed p)
     v (flutterSpeed p) (flutterAmp p)
     (baseA p) (baseB p) (colorA p) (colorB p) (alphaSeed p) (alpha p)
     (shape p) (sprite p) (spriteSize p).

Definition set_visuals (cA cB : Css) (a : Q) (p : t) : t :=
  mk (x p) (y p) (vx p) (vy p) (size p) (rot p) (rotSpeed p)
     (swayPhase p) (swayAmp p) (swaySpeed p)
     (flutterPhase p) (flutterSpeed p) (flutterAmp p)
     (baseA p) (baseB p) cA cB (alphaSeed p) a
     (shape p) (sprite p) (spriteSize p).

Definition set_sprite (s : option Sprite.t) (d : Z) (p : t) : t :=
  mk (x p) (y p) (vx p) (vy p) (size p) (rot p) (rotSpeed p)
     (swayPhase p) (swayAmp p) (swaySpeed p)
     (flutterPhase p) (flutterSpeed p) (flutterAmp p)
     (baseA p) (baseB p) (colorA p) (colorB p) (alphaSeed p) (alpha p)
     (shape p) s d.
End Petal.

(** ** Configuration and quality presets *)

Module config.
Definition baseCount : Q := 42.
Definition maxCount : Q := 90.
Definition minSize : Q := 8.
Definition maxSize : Q := 28.
Definition windStrength : Q := 0.12.
Definition windBias : Q := 0.62.
Definition windGustiness : Q := 0.18.
Definition windScale : Q := 0.11.
Definition motion : Q := 0.4.
Definition fallSpeed : Q := 1.0.
Definition blurPx : Q := 0.7.
End config.

Module QualityLevel.
Record t : Type := mk { dprMax : Q; countScale : Q; blurPx : Q }.
End QualityLevel.

Module quality.
Definition levels : list QualityLevel.t :=
  [ QualityLevel.mk 2 1 config.blurPx;
    QualityLevel.mk 1.5 0.82 (Math_max 0.4 (config.blurPx * 0.8));
    QualityLevel.mk 1.25 0.62 (Math_max 0.2 (config.blurPx * 0.6)) ].
End quality.

(** ** The host and the mutable bindings of the closure *)

(** What the browser supplies and the script cannot compute: the successive
    results of [Math.random()] (the n-th call returns [Math_random n]),
    [Math.sin], and whether [getContext("2d")] on a sprite canvas succeeds.
    [OffscreenCanvas] and a [canvas] element are the same object for this
    model, so [supportsOffscreen] does not appear. *)
Record Host : Type := mkHost {
  Math_random : nat -> Q;
  Math_sin : Q -> Q;
  sprite2d : bool
}.

(** The values read from [window] when a handler runs. *)
Record Window : Type := mkWindow {
  innerWidth : Q;
  innerHeight : Q;
  devicePixelRatio : Q
}.

(** The [matches] flag of each media query list of [contrastQueries] when a
    handler runs; [None] when [window.matchMedia] gave no list. *)
Record Media : Type := mkMedia {
  more : option bool;
  less : option bool;
  reduceTransparency : option bool;
  forcedColors : option bool;
  gamutP3 : option bool
}.

Module World.
Record t : Type := mk {
  enabled : bool;                 (* state.enabled *)
  reducedMotion : bool;           (* state.reducedMotion *)
  visibilityBoost : Q;            (* state.visibilityBoost *)
  level : Z;                      (* quality.level *)
  lastAdjust : Q;                 (* quality.lastAdjust *)
  avgMs : Q;                      (* perf.avgMs *)
  petals : list Petal.t;
  lastT : Q;
  dpr : Q;
  w : Q;
  h : Q;
  canvasWidth : Z;                (* canvas.width *)
  canvasHeight : Z;               (* canvas.height *)
  styleWidth : Q;                 (* canvas.style.width, in px *)
  styleHeight : Q;                (* canvas.style.height, in px *)
  ctx : list CanvasOp;            (* calls made on the page canvas *)
  randomCalls : nat               (* calls of Math.random() so far *)
}.

Definition set_petals (ps : list Petal.t) (s : t) : t :=
  mk (enabled s) (reducedMotion s) (visibilityBoost s) (level s)
     (lastAdjust s) (avgMs s) ps (lastT s) (dpr s) (w s) (h s)
     (canvasWidth s) (canvasHeight s) (styleWidth s) (styleHeight s)
     (ctx s) (randomCalls s).

Definition set_randomCalls (n : nat) (s : t) : t :=
  mk (enabled s) (reducedMotion s) (visibilityBoost s) (level s)
     (lastAdjust s) (avgMs s) (petals s) (lastT s) (dpr s) (w s) (h s)
     (canvasWidth s) (canvasHeight s) (styleWidth s) (styleHeight s)
     (ctx s) n.

Definition set_visibilityBoost (b : Q) (s : t) : t :=
  mk (enabled s) (reducedMotion s) b (level s)
     (lastAdjust s) (avgMs s) (petals s) (lastT s) (dpr s) (w s) (h s)
     (canvasWidth s) (canvasHeight s) (styleWidth s) (styleHeight s)
     (ctx s) (randomCalls s).

Definition set_level (l : Z) (s : t) : t :=
  mk (enabled s) (reducedMotion s) (visibilityBoost s) l
     (lastAdjust s) (avgMs s) (petals s) (lastT s) (dpr s) (w s) (h s)
     (canvasWidth s) (canvasHeight s) (styleWidth s) (styleHeight s)
     (ctx s) (randomCalls s).

Definition set_lastAdjust (v : Q) (s : t) : t :=
  mk (enabled s) (reducedMotion s) (visibilityBoost s) (level s)
     v (avgMs s) (petals s) (lastT s) (dpr s) (w s) (h s)
     (canvasWidth s) (canvasHeight s) (styleWidth s) (styleHeight s)
     (ctx s) (randomCalls s).

Definition set_timing (t0 avg : Q) (s : t) : t :=
  mk (enabled s) (reducedMotion s) (visibilityBoost s) (level s)
     (lastAdjust s) avg (petals s) t0 (dpr s) (w s) (h s)
     (canvasWidth s) (canvasHeight s) (styleWidth s) (styleHeight s)
     (ctx s) (randomCalls s).

Definition call (ops : list CanvasOp) (s : t) : t :=
  mk (enabled s) (reducedMotion s) (visibilityBoost s) (level s)
     (lastAdjust s) (avgMs s) (petals s) (lastT s) (dpr s) (w s) (h s)
     (canvasWidth s) (canvasHeight s) (styleWidth s) (styleHeight s)
     (ctx s ++ ops) (randomCalls s).

(** The assignments at the head of [resize]. *)
Definition set_viewport (dpr' w' h' : Q) (s : t) : t :=
  mk (enabled s) (reducedMotion s) (visibilityBoost s) (level s)
     (lastAdjust s) (avgMs s) (petals s) (lastT s) dpr' w' h'
     (Math_floor (w' * dpr')) (Math_floor (h' * dpr')) w' h'
     (ctx s ++ [setTransform dpr' 0 0 dpr' 0 0]) (randomCalls s).
End World.

(** ** Random draws: a state monad over the count of [Math.random()] calls *)

Definition Rnd (A : Type) : Type := nat -> A * nat.

Definition ret {A} (a : A) : Rnd A := fun n => (a, n).

Definition bind {A B} (c : Rnd A) (k : A -> Rnd B) : Rnd B :=
  fun n => let '(a, n') := c n in k a n'.

Notation "x <- c ;; k" := (bind c (fun x => k))
  (at level 61, c at next level, right associativity).

Definition random (host : Host) : Rnd Q := fun n => (Math_random host n, S n).

(** [const rand = (min, max) => min + Math.random() * (max - min)] *)
Definition rand (host : Host) (min max : Q) : Rnd Q :=
  u <- random host ;; ret (min + u * (max - min)).

(** ** Quality settings *)

(** [quality.levels[quality.level]].  The index stays within the array on
    every path of the script (see [level_in_range] below), so the default
    of [nth] is never returned. *)
Definition getQualitySettings (s : World.t) : QualityLevel.t :=
  nth (Z.to_nat (World.level s)) quality.levels (QualityLevel.mk 0 0 0).

Definition getBlurPx (s : World.t) : Q := QualityLevel.blurPx (getQualitySettings s).

Definition createSpriteCanvas (size : Z) : Sprite.t := Sprite.mk size size [].

(** [Math.max(24, Math.ceil(p.size * 3.2 + blurPx * 4))] *)
Definition getSpriteDim (p : Petal.t) (blurPx : Q) : Z :=
  Z.max 24 (Math_ceil (Petal.size p * 3.2 + blurPx * 4)).

(** ** Alpha and colours *)

Definition getPetalAlpha (s : World.t) (seed : Q) : Q :=
  let boost := clamp (World.visibilityBoost s) 0 1 in
  let min := lerp 0.48 0.62 boost in
  let max := lerp 0.78 0.92 boost in
  clamp (lerp min max seed) 0.42 0.95.

Definition getPetalColors (s : World.t) (baseA baseB : Rgb) : Css * Css :=
  let boost := clamp (World.visibilityBoost s) 0 1 in
  let a := mixRgb baseA palette.target.fillA boost in
  let b := mixRgb baseB palette.target.fillB boost in
  (rgba a 1, rgba b 1).

(** ** The vector renderer *)

(** [drawPetalShape(ctx, size, fillA, fillB, shape, visibilityBoost)]: the
    calls it makes on [ctx], in order. *)
Definition drawPetalShape (size : Q) (fillA fillB : Css)
    (shape : PetalShape.t) (visibilityBoost : Q) : list CanvasOp :=
  let s := size in
  let w := s * 0.94 * PetalShape.wScale shape in
  let h := s * 1.02 * PetalShape.hScale shape in
  let boost := clamp visibilityBoost 0 1 in
  let leftMul := 1 + PetalShape.asym shape in
  let rightMul := 1 - PetalShape.asym shape in
  let lx := fun v : Q => - w * v * leftMul in
  let rx := fun v : Q => w * v * rightMul in
  let notchY := - h * clamp (0.6 + PetalShape.notch shape) 0.55 0.72 in
  let tipY := - h * clamp (0.72 + PetalShape.tip shape * 0.12) 0.64 0.82 in
  let tipHalfX := w * clamp (0.16 + PetalShape.edge shape * 0.08) 0.1 0.26 in
  let lobeY := - h * clamp (0.62 + PetalShape.lobe shape) 0.54 0.72 in
  let waistY := - h * clamp (0.02 + PetalShape.curl shape * 0.07) (-0.07) 0.07 in
  let bottomX := w * clamp (0.08 + PetalShape.curl shape * 0.05) 0.05 0.15 in
  let bottomY := h * clamp (0.44 + PetalShape.tip shape * 0.2) 0.38 0.54 in
  let capDepth := h * clamp (0.05 + PetalShape.tip shape * 0.06) 0.02 0.08 in
  let lobeC1x := clamp (0.38 + PetalShape.curl shape * 0.06) 0.3 0.46 in
  let lobeC2x := clamp (0.6 + PetalShape.curl shape * 0.05) 0.48 0.7 in
  let waistX := clamp (0.42 + PetalShape.curl shape * 0.04) 0.32 0.52 in
  let sideC1x := clamp (0.18 + PetalShape.curl shape * 0.07) 0.1 0.28 in
  let sideC2x := clamp (0.1 + PetalShape.curl shape * 0.05) 0.06 0.2 in
  let tipT := clamp (tipHalfX / w) 0.08 0.35 in
  let notchCurve := h * clamp (0.04 + PetalShape.edge shape * 0.05) 0.02 0.09 in
  let gx := w * (PetalShape.gradX shape * 0.12) in
  let gy := h * (0.18 + PetalShape.gradY shape * 0.12) in
  let g := RadialGradient gx gy (s * 0.05) 0 0 (s * 1.05)
             [(0, fillB); (0.62, fillB); (1, fillA)] in
  let blushRgb := mixRgb palette.outlineBase palette.target.outline boost in
  let tg := RadialGradient 0 (tipY + h * 0.02) (s * 0.04) 0 (tipY + h * 0.08) (s * 0.86)
              [(0, rgba blushRgb 0.75); (1, Rgba (255, 255, 255)%Z 0)] in
  let detail := PetalShape.detail shape in
  let outlineAlpha := clamp (0.02 + detail * 0.05 + boost * 0.14) 0.02 0.22 in
  let outlineRgb := mixRgb palette.outlineBase palette.target.outline boost in
  let hg := RadialGradient (gx - w * 0.06) (gy - h * 0.08) (s * 0.04) 0 0 (s * 0.7)
              [(0, Rgba (255, 255, 255)%Z 1); (1, Rgba (255, 255, 255)%Z 0)] in
  let veinAlpha := clamp (0.04 + detail * 0.08 + boost * 0.14) 0.04 0.25 in
  let veinRgb := mixRgb palette.veinBase palette.target.vein boost in
  let sideVeinRgb := mixRgb palette.outlineBase palette.target.outline boost in
  let startY := h * 0.16 in
  let midY := - h * 0.02 in
  let endY := - h * 0.22 in
  let spread := clamp (0.3 + PetalShape.curl shape * 0.08) 0.22 0.38 in
  let endX := clamp (0.18 + PetalShape.curl shape * 0.04) 0.12 0.24 in
  let microVeinRgb := mixRgb palette.microVeinBase palette.target.microVein boost in
  [ beginPath;
    (* Start at left top tip *)
    moveTo (lx tipT) tipY;
    (* Left lobe *)
    bezierCurveTo (lx lobeC1x) lobeY (lx lobeC2x) (- h * 0.16) (lx waistX) waistY;
    (* Left side down to rounded bottom *)
    bezierCurveTo (lx sideC1x) (h * 0.22) (lx sideC2x) (h * 0.38) (- bottomX) bottomY;
    quadraticCurveTo 0 (bottomY + capDepth) bottomX bottomY;
    (* Right side up *)
    bezierCurveTo (rx sideC2x) (h * 0.38) (rx sideC1x) (h * 0.22) (rx waistX) waistY;
    (* Right lobe back to notch *)
    bezierCurveTo (rx lobeC2x) (- h * 0.16) (rx lobeC1x) lobeY (rx tipT) tipY;
    (* Close the top with a shallow notch *)
    bezierCurveTo (rx (tipT * 0.65)) (tipY + notchCurve)
                  (rx (tipT * 0.32)) (notchY + notchCurve * 0.6) 0 notchY;
    bezierCurveTo (lx (tipT * 0.32)) (notchY + notchCurve * 0.6)
                  (lx (tipT * 0.65)) (tipY + notchCurve) (lx tipT) tipY;
    closePath;
    (* Gradient fill with a subtle shadow *)
    set_fillStyle g;
    save;
    set_shadowColor (Rgba (20, 20, 20)%Z (clamp (0.045 + boost * 0.045) 0.04 0.12));
    set_shadowBlur (s * clamp (0.18 + boost * 0.12) 0.16 0.34);
    set_shadowOffsetX (s * 0.02);
    set_shadowOffsetY (s * 0.06);
    fill;
    restore;
    (* Tip blush overlay *)
    save;
    mul_globalAlpha (0.12 + PetalShape.detail shape * 0.14);
    set_fillStyle tg;
    fill;
    restore;
    (* Details, drawn without blur *)
    save;
    set_filter None;
    set_strokeStyle (rgba outlineRgb outlineAlpha);
    set_lineWidth (Math_max 0.45 (s * (0.02 + boost * 0.008)));
    stroke ]
  ++ (if Qltb 0.55 detail
      then [ save;
             mul_globalAlpha (0.22 + detail * 0.12);
             set_fillStyle hg;
             fill;
             restore ]
      else [])
  ++ [ set_strokeStyle (rgba veinRgb veinAlpha);
       set_lineWidth (Math_max 0.35 (s * (0.014 + boost * 0.006)));
       beginPath;
       moveTo 0 (h * 0.34);
       quadraticCurveTo (w * PetalShape.vein shape) (h * 0.04) 0 (- h * 0.36);
       stroke ]
  ++ (if (2 <=? PetalShape.veinCount shape)%Z
      then [ set_strokeStyle (rgba sideVeinRgb (veinAlpha * 0.7));
             set_lineWidth (Math_max 0.3 (s * (0.012 + boost * 0.005)));
             beginPath;
             moveTo (lx 0.1) startY;
             quadraticCurveTo (lx spread) midY (lx endX) endY;
             stroke;
             beginPath;
             moveTo (rx 0.1) startY;
             quadraticCurveTo (rx spread) midY (rx endX) endY;
             stroke ]
      else [])
  ++ (if (3 <=? PetalShape.veinCount shape)%Z
      then [ set_strokeStyle (rgba microVeinRgb (veinAlpha * 0.55));
             set_lineWidth (Math_max 0.28 (s * (0.01 + boost * 0.004)));
             beginPath;
             moveTo (lx 0.06) (- h * 0.3);
             quadraticCurveTo (lx 0.16) (- h * 0.21) (lx 0.08) (- h * 0.08);
             stroke;
             beginPath;
             moveTo (rx 0.06) (- h * 0.3);
             quadraticCurveTo (rx 0.16) (- h * 0.21) (rx 0.08) (- h * 0.08);
             stroke ]
      else [])
  ++ [ restore ].

(** The closed silhouette of a call log: the calls from the first
    [beginPath] up to and including the first [closePath] after it. *)
Fixpoint upto_closePath (ops : list CanvasOp) : list CanvasOp :=
  match ops with
  | [] => []
  | closePath :: _ => [closePath]
  | op :: rest => op :: upto_closePath rest
  end.

Fixpoint silhouette (ops : list CanvasOp) : list CanvasOp :=
  match ops with
  | [] => []
  | beginPath :: rest => beginPath :: upto_closePath rest
  | _ :: rest => silhouette rest
  end.

(** ** The sprite cache *)

Definition renderPetalSprite (host : Host) (s : World.t) (p : Petal.t) : Petal.t :=
  let blurPx := getBlurPx s in
  let dim := getSpriteDim p blurPx in
  let sprite :=
    match Petal.sprite p with
    | Some sp =>
        if negb (Sprite.width sp =? dim)%Z || negb (Sprite.height sp =? dim)%Z
        then createSpriteCanvas dim
        else sp
    | None => createSpriteCanvas dim
    end in
  if negb (sprite2d host) then Petal.set_sprite None 0 p
  else
    let d := inject_Z dim in
    let calls :=
      [ setTransform 1 0 0 1 0 0;
        clearRect 0 0 d d;
        translate (d / 2) (d / 2);
        set_filter (if Qltb 0 blurPx then Some blurPx else None) ]
      ++ drawPetalShape (Petal.size p) (Petal.colorA p) (Petal.colorB p)
                        (Petal.shape p) (World.visibilityBoost s)
      ++ [ set_filter None ] in
    Petal.set_sprite
      (Some (Sprite.mk (Sprite.width sprite) (Sprite.height sprite)
                       (Sprite.calls sprite ++ calls)))
      dim p.

Definition refreshPetal (host : Host) (s : World.t) (p : Petal.t) : Petal.t :=
  let colors := getPetalColors s (Petal.baseA p) (Petal.baseB p) in
  renderPetalSprite host s
    (Petal.set_visuals (fst colors) (snd colors)
                       (getPetalAlpha s (Petal.alphaSeed p)) p).

(** [for (const p of petals) { ... }] of [refreshPetalVisuals]. *)
Definition refreshPetalVisuals (host : Host) (s : World.t) : World.t :=
  World.set_petals (map (refreshPetal host s) (World.petals s)) s.

(** ** The accessibility adapter *)

(** [mql?.matches ? a : b] on a list that may be missing. *)
Definition matches (mql : option bool) : bool :=
  match mql with Some b => b | None => false end.

(** The weighted sum of [updateVisibilityBoost], before clamping. *)
Definition boostSum (m : Media) : Q :=
  let lowGamut := match gamutP3 m with Some b => negb b | None => false end in
  (if matches (more m) then 0.45 else 0) +
  (if matches (forcedColors m) then 0.5 else 0) +
  (if matches (reduceTransparency m) then 0.25 else 0) +
  (if lowGamut then 0.2 else 0) -
  (if matches (less m) then 0.2 else 0).

Definition updateVisibilityBoost (host : Host) (m : Media) (s : World.t) : World.t :=
  let boost := clamp (boostSum m) 0 1 in
  if Qeqb boost (World.visibilityBoost s) then s
  else refreshPetalVisuals host (World.set_visibilityBoost boost s).

(** ** Creating petals *)

(** [Math.random() < 0.45 ? 3 : Math.random() < 0.7 ? 2 : 1] as a function of
    the two draws; the second one is made only when the first test fails. *)
Definition veinCountOf (u1 u2 : Q) : Z :=
  if Qltb u1 0.45 then 3%Z else if Qltb u2 0.7 then 2%Z else 1%Z.

Definition drawVeinCount (host : Host) : Rnd Z :=
  u1 <- random host ;;
  if Qltb u1 0.45 then ret 3%Z
  else u2 <- random host ;; if Qltb u2 0.7 then ret 2%Z else ret 1%Z.

(** One iteration of the loop of [makePetals]. *)
Definition makePetal (host : Host) (s : World.t) (scatterEverywhere : bool)
  : Rnd Petal.t :=
  let w := World.w s in
  let h := World.h s in
  size0 <- rand host config.minSize config.maxSize ;;
  size1 <- rand host 0.78 1.15 ;;
  let size := size0 * size1 in
  x <- (if scatterEverywhere then rand host (- w * 0.05) (w * 1.05)
        else rand host (- w * 0.25) (w * 0.35)) ;;
  y <- (if scatterEverywhere then rand host (- h * 0.2) (h * 1.1)
        else rand host (- h) (- size)) ;;
  vy0 <- rand host 18 52 ;;
  let vy := vy0 * (size / 24) * config.fallSpeed in
  vx0 <- rand host 3 11 ;;
  let vx := vx0 * 0.08 * (size / 24) in
  rot <- rand host 0 (Math_PI * 2) ;;
  rotSpeed0 <- rand host (-0.7) 0.7 ;;
  let rotSpeed := rotSpeed0 * (size / 24) in
  swayAmp0 <- rand host 10 60 ;;
  let swayAmp := swayAmp0 * (size / 24) in
  swaySpeed <- rand host 0.5 1.2 ;;
  swayPhase <- rand host 0 (Math_PI * 2) ;;
  flutterPhase <- rand host 0 (Math_PI * 2) ;;
  flutterSpeed <- rand host 1.2 2.6 ;;
  flutterAmp0 <- rand host 0.06 0.18 ;;
  let flutterAmp := flutterAmp0 * (size / 24) in
  wScale <- rand host 0.82 1.18 ;;
  hScale <- rand host 0.9 1.22 ;;
  asym <- rand host (-0.14) 0.14 ;;
  notch <- rand host (-0.02) 0.025 ;;
  tip <- rand host (-0.03) 0.05 ;;
  lobe <- rand host (-0.02) 0.035 ;;
  curl <- rand host (-0.06) 0.06 ;;
  vein <- rand host (-0.22) 0.22 ;;
  gradX <- rand host (-0.06) 0.06 ;;
  gradY <- rand host (-0.06) 0.06 ;;
  edge <- rand host 0.35 1 ;;
  detail <- rand host 0.45 1 ;;
  veinCount <- drawVeinCount host ;;
  let shape := PetalShape.mk wScale hScale asym notch tip lobe curl vein
                             gradX gradY edge detail veinCount in
  tint <- rand host 0 1 ;;
  alphaSeed <- rand host 0 1 ;;
  let baseA := if Qltb tint 0.55 then palette.fillA0
               else if Qltb tint 0.9 then palette.fillA1 else palette.fillA2 in
  let baseB := if Qltb tint 0.75 then palette.fillB0 else palette.fillB1 in
  let colors := getPetalColors s baseA baseB in
  let alpha := getPetalAlpha s alphaSeed in
  let petal := Petal.mk x y vx vy size rot rotSpeed swayPhase swayAmp swaySpeed
                        flutterPhase flutterSpeed flutterAmp baseA baseB
                        (fst colors) (snd colors) alphaSeed alpha shape None 0 in
  ret (renderPetalSprite host s petal).

(** [for (let i = 0; i < count; i++)] for a count that is a whole number. *)
Fixpoint makePetalsN (host : Host) (s : World.t) (count : nat)
    (scatterEverywhere : bool) : Rnd (list Petal.t) :=
  match count with
  | O => ret []
  | S k =>
      p <- makePetal host s scatterEverywhere ;;
      rest <- makePetalsN host s k scatterEverywhere ;;
      ret (p :: rest)
  end.

Definition makePetals (host : Host) (s : World.t) (count : Z)
    (scatterEverywhere : bool) : Rnd (list Petal.t) :=
  makePetalsN host s (Z.to_nat count) scatterEverywhere.

(** ** The viewport manager *)

(** [clamp] on whole numbers. *)
Definition clampZ (v min max : Z) : Z := Z.max min (Z.min max v).

(** The target particle count computed by [resize] for logical size [w] x [h]
    under quality settings [qs]. *)
Definition targetCount (w h : Q) (qs : QualityLevel.t) : Z :=
  let area := w * h in
  let minCount := 12%Z in
  let maxCount :=
    Z.max minCount (Math_round (config.maxCount * QualityLevel.countScale qs)) in
  clampZ
    (Math_round (config.baseCount * (area / (1100 * 700)) * QualityLevel.countScale qs))
    minCount maxCount.

(** [for (const p of petals) if (p.x < -w * 0.5 || p.x > w * 1.5) p.x = rand(...)] *)
Fixpoint pullBack (host : Host) (w : Q) (ps : list Petal.t) : Rnd (list Petal.t) :=
  match ps with
  | [] => ret []
  | p :: rest =>
      p' <- (if Qltb (Petal.x p) (- w * 0.5) || Qltb (w * 1.5) (Petal.x p)
             then x' <- rand host (- w * 0.25) (w * 0.35) ;; ret (Petal.set_x x' p)
             else ret p) ;;
      rest' <- pullBack host w rest ;;
      ret (p' :: rest')
  end.

(** "Preserve existing petals; only add/remove to match the new target
    count": [petals.push(...makePetals(target - petals.length, false))] or
    [petals.length = target]. *)
Definition reconcile (host : Host) (s : World.t) (target : Z) : Rnd (list Petal.t) :=
  let petals := World.petals s in
  let len := Z.of_nat (length petals) in
  if (len <? target)%Z then
    added <- makePetals host s (target - len) false ;; ret (petals ++ added)
  else if (target <? len)%Z then ret (firstn (Z.to_nat target) petals)
  else ret petals.

(** [if (prevW > 0 && w !== prevW) { const sx = w / prevW; for (const p of petals) p.x *= sx; }] *)
Definition rescaleX (prevW w : Q) (ps : list Petal.t) : list Petal.t :=
  if Qltb 0 prevW && negb (Qeqb w prevW) then
    let sx := w / prevW in
    map (fun p => Petal.set_x (Petal.x p * sx) p) ps
  else ps.

(** "Sprite dims depend on blur; if quality changed blur, re-render sprites." *)
Definition rerender (host : Host) (s : World.t) (prevBlurPx : option Q)
    (ps : list Petal.t) : list Petal.t :=
  let nextBlurPx := getBlurPx s in
  match prevBlurPx with
  | Some prev =>
      if negb (Qeqb nextBlurPx prev) then map (renderPetalSprite host s) ps else ps
  | None => ps
  end.

Definition resize (host : Host) (win : Window)
    (preservePetals : bool) (prevBlurPx : option Q) (s : World.t) : World.t :=
  let prevW := World.w s in
  let qualitySettings := getQualitySettings s in
  let dpr :=
    clamp (if Qeqb (devicePixelRatio win) 0 then 1 else devicePixelRatio win)
          1 (QualityLevel.dprMax qualitySettings) in
  let w := inject_Z (Z.max 1 (Math_floor (innerWidth win))) in
  let h := inject_Z (Z.max 1 (Math_floor (innerHeight win))) in
  let s := World.set_viewport dpr w h s in
  let target := targetCount w h qualitySettings in
  let shouldPreserve :=
    preservePetals && (0 <? length (World.petals s))%nat && Qltb 0 prevW in
  if negb shouldPreserve then
    let '(ps, n) := makePetals host s target true (World.randomCalls s) in
    World.set_randomCalls n (World.set_petals ps s)
  else
    let '(ps, n) :=
      (ps <- reconcile host s target ;; pullBack host w (rescaleX prevW w ps))
        (World.randomCalls s) in
    World.set_randomCalls n (World.set_petals (rerender host s prevBlurPx ps) s).

(** ** The quality controller *)

Definition applyQualityLevel (host : Host) (win : Window) (nextLevel : Z)
    (s : World.t) : World.t :=
  let clamped := clampZ nextLevel 0 (Z.of_nat (length quality.levels) - 1) in
  if (clamped =? World.level s)%Z then s
  else
    let prevBlurPx := getBlurPx s in
    resize host win true (Some prevBlurPx) (World.set_level clamped s).

Definition maybeAdjustQuality (host : Host) (win : Window) (nowMs : Q)
    (s : World.t) : World.t :=
  if Qltb (nowMs - World.lastAdjust s) 1200 then s
  else
    let s := World.set_lastAdjust nowMs s in
    if Qltb 30 (World.avgMs s)
       && (World.level s <? Z.of_nat (length quality.levels) - 1)%Z
    then applyQualityLevel host win (World.level s + 1) s
    else if Qltb (World.avgMs s) 18 && (0 <? World.level s)%Z
    then applyQualityLevel host win (World.level s - 1) s
    else s.

(** ** The simulation loop *)

(** The "Update physics" block of [tick] for one petal. *)
Definition physics (dt motionScale wind : Q) (p : Petal.t) : Petal.t :=
  let p := Petal.set_y (Petal.y p + Petal.vy p * dt * motionScale) p in
  let p := Petal.set_rot (Petal.rot p + Petal.rotSpeed p * dt * motionScale) p in
  let p := Petal.set_swayPhase
             (Petal.swayPhase p + Petal.swaySpeed p * dt * motionScale) p in
  let p := Petal.set_flutterPhase
             (Petal.flutterPhase p + Petal.flutterSpeed p * dt * motionScale) p in
  Petal.set_x
    (Petal.x p + (Petal.vx p + wind * config.windScale) * dt * 60 * motionScale) p.

(** The test of the "Respawn when off-screen" block. *)
Definition offScreen (w h : Q) (p : Petal.t) : bool :=
  Qltb (h + Petal.size p * 2) (Petal.y p) || Qltb (w + Petal.size p * 4) (Petal.x p).

Definition respawn (host : Host) (w h : Q) (p : Petal.t) : Rnd Petal.t :=
  if offScreen w h p then
    y' <- rand host (- h * 0.25) (- Petal.size p * 1.5) ;;
    x' <- rand host (- w * 0.25) (w * 0.35) ;;
    ret (Petal.set_x x' (Petal.set_y y' p))
  else ret p.

(** The "Draw" block of [tick] for one petal. *)
Definition drawPetal (host : Host) (motionScale visibilityBoost : Q) (p : Petal.t)
  : list CanvasOp :=
  let sway := Math_sin host (Petal.swayPhase p) * Petal.swayAmp p in
  let flutter :=
    1 + Math_sin host (Petal.flutterPhase p) * Petal.flutterAmp p * motionScale in
  [ save;
    set_globalAlpha (Petal.alpha p);
    translate (Petal.x p + sway) (Petal.y p);
    rotate (Petal.rot p);
    scale flutter 1 ]
  ++ match Petal.sprite p with
     | Some sp =>
         if (Petal.spriteSize p =? 0)%Z
         then drawPetalShape (Petal.size p) (Petal.colorA p) (Petal.colorB p)
                             (Petal.shape p) visibilityBoost
         else
           let dim := inject_Z (Petal.spriteSize p) in
           [ drawImage (Sprite.calls sp) (- dim / 2) (- dim / 2) dim dim ]
     | None =>
         drawPetalShape (Petal.size p) (Petal.colorA p) (Petal.colorB p)
                        (Petal.shape p) visibilityBoost
     end
  ++ [ restore ].

(** One simulation step of one petal: physics, then the respawn check. *)
Definition stepPetal (host : Host) (w h dt motionScale wind : Q) (p : Petal.t)
  : Rnd Petal.t :=
  respawn host w h (physics dt motionScale wind p).

(** [for (const p of petals) { ... }] of [tick]: the petals after the loop and
    the calls made on the page canvas. *)
Fixpoint tickPetals (host : Host) (w h dt motionScale visibilityBoost wind : Q)
    (ps : list Petal.t) : Rnd (list Petal.t * list CanvasOp) :=
  match ps with
  | [] => ret ([], [])
  | p :: rest =>
      p' <- stepPetal host w h dt motionScale wind p ;;
      r <- tickPetals host w h dt motionScale visibilityBoost wind rest ;;
      ret (p' :: fst r, drawPetal host motionScale visibilityBoost p' ++ snd r)
  end.

(** [(state.reducedMotion ? 0.08 : 1) * config.motion] *)
Definition motionScaleOf (reducedMotion : bool) : Q :=
  (if reducedMotion then 0.08 else 1) * config.motion.

(** [Math.min(0.04, frameMs / 1000)] *)
Definition stepOf (frameMs : Q) : Q := Math_min 0.04 (frameMs / 1000).

Definition windAt (host : Host) (t : Q) : Q :=
  (config.windBias + Math_sin host (t * 0.00018) * config.windGustiness)
  * 20 * config.windStrength.

(** [tick(t)]; registering the next animation frame is left to the caller. *)
Definition tick (host : Host) (win : Window) (t : Q) (s : World.t) : World.t :=
  let frameMs := t - World.lastT s in
  let dt := stepOf frameMs in
  let s := World.set_timing t (World.avgMs s * 0.9 + frameMs * 0.1) s in
  let s := maybeAdjustQuality host win t s in
  let s := World.call [clearRect 0 0 (World.w s) (World.h s)] s in
  if negb (World.enabled s) then s
  else
    let motionScale := motionScaleOf (World.reducedMotion s) in
    let visibilityBoost := clamp (World.visibilityBoost s) 0 1 in
    let wind := windAt host t in
    let '(r, n) :=
      tickPetals host (World.w s) (World.h s) dt motionScale visibilityBoost wind
                 (World.petals s) (World.randomCalls s) in
    World.call (snd r ++ [set_filter None])
      (World.set_randomCalls n (World.set_petals (fst r) s)).

(** ** Start-up *)

(** The bindings as the closure initialises them, before the three calls at
    its end; [now] is [performance.now()] and [rm] the reduced-motion query. *)
Definition initial (now : Q) (rm : bool) : World.t :=
  World.mk true rm 0 0 0 16.7 [] now 1 0 0 0 0 0 0 [] 0.

(** [updateVisibilityBoost(); resize(); start();] *)
Definition boot (host : Host) (win : Window) (m : Media) (now0 now1 : Q) (rm : bool)
  : World.t :=
  let s := updateVisibilityBoost host m (initial now0 rm) in
  let s := resize host win false None s in
  World.set_timing now1 (World.avgMs s) s.

(** What the page can do to the animation once it runs. *)
Inductive Event : Type :=
| Frame (win : Window) (t : Q)            (* an animation frame: [tick(t)] *)
| Resized (win : Window)                  (* the window "resize" listener *)
| MediaChanged (m : Media)                (* a contrast query "change" listener *)
| MotionChanged (reduce : bool).          (* the reduced-motion "change" listener *)

Definition set_reducedMotion (b : bool) (s : World.t) : World.t :=
  World.mk (World.enabled s) b (World.visibilityBoost s) (World.level s)
    (World.lastAdjust s) (World.avgMs s) (World.petals s) (World.lastT s)
    (World.dpr s) (World.w s) (World.h s) (World.canvasWidth s)
    (World.canvasHeight s) (World.styleWidth s) (World.styleHeight s)
    (World.ctx s) (World.randomCalls s).

Definition handle (host : Host) (e : Event) (s : World.t) : World.t :=
  match e with
  | Frame win t => tick host win t s
  | Resized win => resize host win true None s
  | MediaChanged m => updateVisibilityBoost host m s
  | MotionChanged b => set_reducedMotion b s
  end.

(** The world after a sequence of events, oldest first. *)
Definition run (host : Host) (es : list Event) (s : World.t) : World.t :=
  fold_left (fun s e => handle host e s) es s.

(** ** Predicates and inputs used by the statements *)

(** [Math.random()] returns a number in [0, 1). *)
Definition random_ok (host : Host) : Prop :=
  forall n, 0 <= Math_random host n < 1.

Definition weight (b : bool) (v : Q) : Q := if b then v else 0.

(** Exactly forced colours and increased contrast are active; the display
    has a wide gamut, so the narrow-gamut signal is off. *)
Definition media_forced_more : Media :=
  mkMedia (Some true) (Some false) (Some false) (Some true) (Some true).

Definition host0 : Host := mkHost (fun _ => 1 # 2) (fun _ => 0) true.

(** A half-open rectangle of pairs of draws and its area. *)
Record Rect : Type := mkRect { lo1 : Q; hi1 : Q; lo2 : Q; hi2 : Q }.

Definition in_rect (r : Rect) (u1 u2 : Q) : Prop :=
  (lo1 r <= u1 /\ u1 < hi1 r) /\ (lo2 r <= u2 /\ u2 < hi2 r).

Definition area (r : Rect) : Q := (hi1 r - lo1 r) * (hi2 r - lo2 r).

(** The pairs of draws of the unit square that give each vein count. *)
Definition veinRegion (count : Z) : Rect :=
  if (count =? 3)%Z then mkRect 0 0.45 0 1
  else if (count =? 2)%Z then mkRect 0.45 1 0 0.7
  else mkRect 0.45 1 0.7 1.

(** A petal with rotation speed 0.5 rad/s and no cached sprite. *)
Definition shape0 : PetalShape.t :=
  PetalShape.mk 1 1 0 0 0 0 0 0 0 0 0.5 0.5 2.

Definition petal0 : Petal.t :=
  Petal.mk 100 100 0.5 30 20 0 0.5 0 20 1 0 2 0.1
           palette.fillA0 palette.fillB0
           (rgba palette.fillA0 1) (rgba palette.fillB0 1)
           0.5 0.63 shape0 None 0.

Definition win0 : Window := mkWindow 1100 700 1.

(** A running field of one petal with reduced motion on, last frame at 0ms. *)
Definition world_reduced : World.t :=
  World.mk true true 0 0 0 16.7 [petal0] 0 1 1100 700 1100 700 1100 700 [] 0.

(** The smoothed frame cost that [tick(t)] stores and tests:
    [perf.avgMs * 0.9 + frameMs * 0.1]. *)
Definition smoothed (s : World.t) (t : Q) : Q :=
  World.avgMs s * 0.9 + (t - World.lastT s) * 0.1.

Definition level_in_range (s : World.t) : Prop := (0 <= World.level s <= 2)%Z.

(** The timestamps of the frames of a run at which the preset index changed,
    oldest first. *)
Fixpoint changeTimes (host : Host) (es : list Event) (s : World.t) : list Q :=
  match es with
  | [] => []
  | e :: rest =>
      let s' := handle host e s in
      match e with
      | Frame _ t =>
          if (World.level s' =? World.level s)%Z then changeTimes host rest s'
          else t :: changeTimes host rest s'
      | _ => changeTimes host rest s'
      end
  end.

(** Preset [a] trades quality for speed against preset [b]: lower pixel-ratio
    cap, fewer petals, less blur. *)
Definition lower_quality (a b : QualityLevel.t) : Prop :=
  QualityLevel.dprMax a < QualityLevel.dprMax b
  /\ QualityLevel.countScale a < QualityLevel.countScale b
  /\ QualityLevel.blurPx a < QualityLevel.blurPx b.

Definition preset (i : Z) : QualityLevel.t :=
  nth (Z.to_nat i) quality.levels (QualityLevel.mk 0 0 0).

(** [p'] has the identity of [p]: every field but the position [x] and the
    cached sprite (with its size) is the one of [p]. *)
Definition kept_but_x_sprite (p p' : Petal.t) : Prop :=
  Petal.y p' = Petal.y p
  /\ Petal.vx p' = Petal.vx p /\ Petal.vy p' = Petal.vy p
  /\ Petal.size p' = Petal.size p
  /\ Petal.rot p' = Petal.rot p /\ Petal.rotSpeed p' = Petal.rotSpeed p
  /\ Petal.swayPhase p' = Petal.swayPhase p /\ Petal.swayAmp p' = Petal.swayAmp p
  /\ Petal.swaySpeed p' = Petal.swaySpeed p
  /\ Petal.flutterPhase p' = Petal.flutterPhase p
  /\ Petal.flutterSpeed p' = Petal.flutterSpeed p
  /\ Petal.flutterAmp p' = Petal.flutterAmp p
  /\ Petal.baseA p' = Petal.baseA p /\ Petal.baseB p' = Petal.baseB p
  /\ Petal.colorA p' = Petal.colorA p /\ Petal.colorB p' = Petal.colorB p
  /\ Petal.alphaSeed p' = Petal.alphaSeed p /\ Petal.alpha p' = Petal.alpha p
  /\ Petal.shape p' = Petal.shape p.


(** A petal that drifted to x = 200 in a viewport 100 wide, and a field of
    twelve of them. *)
Definition petal_far : Petal.t :=
  Petal.mk 200 50 0.5 30 28 0 0.5 0 20 1 0 2 0.1
           palette.fillA0 palette.fillB0
           (rgba palette.fillA0 1) (rgba palette.fillB0 1)
           0.5 0.63 shape0 None 0.

Definition win_narrow : Window := mkWindow 100 100 1.

Definition world_narrow : World.t :=
  World.mk true false 0 0 0 16.7 (repeat petal_far 12) 0 1 100 100 100 100 100 100 [] 0.

(** What holds of every petal the script creates, and of the field once
    [resize] has run. *)
Definition petal_ok (p : Petal.t) : Prop :=
  (config.minSize * 0.78 <= Petal.size p /\ Petal.size p <= config.maxSize * 1.15)
  /\ (0.42 <= Petal.alpha p /\ Petal.alpha p <= 0.95).

Definition world_ok (s : World.t) : Prop :=
  level_in_range s
  /\ World.enabled s = true
  /\ 1 <= World.w s /\ 1 <= World.h s
  /\ Forall petal_ok (World.petals s).

(** A petal is inside the play area, as the respawn check leaves it. *)
Definition in_play (w h : Q) (p : Petal.t) : Prop :=
  Petal.y p <= h + 2 * Petal.size p /\ Petal.x p <= w + 4 * Petal.size p.

(** How many of the n x n grid points [(i/n, j/n)] give vein count [k]. *)
Definition countOn (n : nat) (k : Z) : nat :=
  length
    (filter (fun ij : nat * nat =>
               (veinCountOf (Z.of_nat (fst ij) # Pos.of_nat n)
                            (Z.of_nat (snd ij) # Pos.of_nat n) =? k)%Z)
            (list_prod (seq 0 n) (seq 0 n))).

(** ** Predicates for the further properties *)

Definition in_range (lo hi v : Q) : Prop := lo <= v /\ v <= hi.

(** Where and how fast a petal made by [makePetals] starts: its size, its
    position (anywhere around the viewport when scattered, in the band above
    the top-left corner otherwise) and its velocities, which scale with
    [size / 24]. *)
Definition made_motion (w h : Q) (scatterEverywhere : bool) (p : Petal.t) : Prop :=
  let k := Petal.size p / 24 in
  in_range (8 * 0.78) (28 * 1.15) (Petal.size p)
  /\ (if scatterEverywhere
      then in_range (- w * 0.05) (w * 1.05) (Petal.x p)
           /\ in_range (- h * 0.2) (h * 1.1) (Petal.y p)
      else in_range (- w * 0.25) (w * 0.35) (Petal.x p)
           /\ (in_range (- h) (- Petal.size p) (Petal.y p)
               \/ in_range (- Petal.size p) (- h) (Petal.y p)))
  /\ in_range (18 * k) (52 * k) (Petal.vy p)
  /\ in_range (0.24 * k) (0.88 * k) (Petal.vx p)
  /\ in_range 0 (Math_PI * 2) (Petal.rot p)
  /\ in_range (- 0.7 * k) (0.7 * k) (Petal.rotSpeed p)
  /\ in_range (10 * k) (60 * k) (Petal.swayAmp p)
  /\ in_range 0.5 1.2 (Petal.swaySpeed p)
  /\ in_range 0 (Math_PI * 2) (Petal.swayPhase p)
  /\ in_range 0 (Math_PI * 2) (Petal.flutterPhase p)
  /\ in_range 1.2 2.6 (Petal.flutterSpeed p)
  /\ in_range (0.06 * k) (0.18 * k) (Petal.flutterAmp p).

(** The shape descriptor and the visual fields of a petal made by
    [makePetals] in world [s]. *)
Definition made_look (s : World.t) (p : Petal.t) : Prop :=
  let sh := Petal.shape p in
  in_range 0.82 1.18 (PetalShape.wScale sh)
  /\ in_range 0.9 1.22 (PetalShape.hScale sh)
  /\ in_range (-0.14) 0.14 (PetalShape.asym sh)
  /\ in_range (-0.02) 0.025 (PetalShape.notch sh)
  /\ in_range (-0.03) 0.05 (PetalShape.tip sh)
  /\ in_range (-0.02) 0.035 (PetalShape.lobe sh)
  /\ in_range (-0.06) 0.06 (PetalShape.curl sh)
  /\ in_range (-0.22) 0.22 (PetalShape.vein sh)
  /\ in_range (-0.06) 0.06 (PetalShape.gradX sh)
  /\ in_range (-0.06) 0.06 (PetalShape.gradY sh)
  /\ in_range 0.35 1 (PetalShape.edge sh)
  /\ in_range 0.45 1 (PetalShape.detail sh)
  /\ (1 <= PetalShape.veinCount sh <= 3)%Z
  /\ In (Petal.baseA p) [palette.fillA0; palette.fillA1; palette.fillA2]
  /\ In (Petal.baseB p) [palette.fillB0; palette.fillB1]
  /\ in_range 0 1 (Petal.alphaSeed p)
  /\ Petal.alpha p = getPetalAlpha s (Petal.alphaSeed p)
  /\ (Petal.colorA p, Petal.colorB p)
     = getPetalColors s (Petal.baseA p) (Petal.baseB p).

(** The sprite a petal gets when it is rendered with no sprite to reuse. *)
Definition freshSprite (host : Host) (s : World.t) (p : Petal.t) : option Sprite.t :=
  Petal.sprite (renderPetalSprite host s (Petal.set_sprite None 0 p)).

(** The alpha and the display colours of [p] are those the stored boost
    derives from its seed and base colours. *)
Definition look_current (s : World.t) (p : Petal.t) : Prop :=
  Petal.alpha p = getPetalAlpha s (Petal.alphaSeed p)
  /\ (Petal.colorA p, Petal.colorB p)
     = getPetalColors s (Petal.baseA p) (Petal.baseB p).

(** The cached sprite of [p] is up to date in world [s]: it has the side that
    the current blur asks for, [spriteSize] agrees with it, and the last
    calls made on it are those of a rendering of [p] as it is now.  A petal
    has no sprite only when the host gives no sprite context. *)
Definition sprite_current (host : Host) (s : World.t) (p : Petal.t) : Prop :=
  match Petal.sprite p, freshSprite host s p with
  | Some sp, Some f =>
      Sprite.width sp = Sprite.width f
      /\ Sprite.height sp = Sprite.height f
      /\ Petal.spriteSize p = Sprite.width f
      /\ exists earlier, Sprite.calls sp = earlier ++ Sprite.calls f
  | None, None => Petal.spriteSize p = 0%Z
  | _, _ => False
  end.

Definition visuals_current (host : Host) (s : World.t) (p : Petal.t) : Prop :=
  look_current s p /\ sprite_current host s p.

(** Two petals agree on everything a rendering reads or writes: size,
    colours, alpha, shape and sprite. *)
Definition same_visuals (p p' : Petal.t) : Prop :=
  Petal.size p' = Petal.size p
  /\ Petal.baseA p' = Petal.baseA p /\ Petal.baseB p' = Petal.baseB p
  /\ Petal.colorA p' = Petal.colorA p /\ Petal.colorB p' = Petal.colorB p
  /\ Petal.alphaSeed p' = Petal.alphaSeed p /\ Petal.alpha p' = Petal.alpha p
  /\ Petal.shape p' = Petal.shape p
  /\ Petal.sprite p' = Petal.sprite p /\ Petal.spriteSize p' = Petal.spriteSize p.

(** The calls one run of [renderPetalSprite] makes on the sprite context. *)
Definition renderCalls (s : World.t) (p : Petal.t) : list CanvasOp :=
  let blurPx := getBlurPx s in
  let d := inject_Z (getSpriteDim p blurPx) in
  [ setTransform 1 0 0 1 0 0;
    clearRect 0 0 d d;
    translate (d / 2) (d / 2);
    set_filter (if Qltb 0 blurPx then Some blurPx else None) ]
  ++ drawPetalShape (Petal.size p) (Petal.colorA p) (Petal.colorB p)
                    (Petal.shape p) (World.visibilityBoost s)
  ++ [ set_filter None ].

(** Every petal of the field has up-to-date visuals, and the field holds the
    target count of its viewport and preset. *)
Definition coherent (host : Host) (s : World.t) : Prop :=
  Forall (visuals_current host s) (World.petals s).

Definition count_ok (s : World.t) : Prop :=
  length (World.petals s)
  = Z.to_nat (targetCount (World.w s) (World.h s) (getQualitySettings s)).

Definition settled (host : Host) (s : World.t) : Prop :=
  level_in_range s /\ coherent host s /\ count_ok s.

(** The depth of the context's state stack after a list of calls made at
    depth [d]; [None] when a [restore] finds nothing to pop. *)
Fixpoint stackDepth (ops : list CanvasOp) (d : nat) : option nat :=
  match ops with
  | [] => Some d
  | save :: rest => stackDepth rest (S d)
  | restore :: rest =>
      match d with
      | O => None
      | S k => stackDepth rest k
      end
  | _ :: rest => stackDepth rest d
  end.

(** What a frame may change in a petal besides its position: the rotation
    and the two phases advance by speed x step x motion scale. *)
Definition advanced (dt motionScale : Q) (p p' : Petal.t) : Prop :=
  same_visuals p p'
  /\ (Petal.vx p' = Petal.vx p /\ Petal.vy p' = Petal.vy p
      /\ Petal.rotSpeed p' = Petal.rotSpeed p
      /\ Petal.swayAmp p' = Petal.swayAmp p /\ Petal.swaySpeed p' = Petal.swaySpeed p
      /\ Petal.flutterSpeed p' = Petal.flutterSpeed p
      /\ Petal.flutterAmp p' = Petal.flutterAmp p)
  /\ Petal.rot p' = Petal.rot p + Petal.rotSpeed p * dt * motionScale
  /\ Petal.swayPhase p' = Petal.swayPhase p + Petal.swaySpeed p * dt * motionScale
  /\ Petal.flutterPhase p'
     = Petal.flutterPhase p + Petal.flutterSpeed p * dt * motionScale.

(** [n] animation frames, each [gap] milliseconds after the one before,
    the first one [gap] after [t]. *)
Fixpoint steadyFrames (win : Window) (t gap : Q) (n : nat) : list Event :=
  match n with
  | O => []
  | S k => Frame win (t + gap) :: steadyFrames win (t + gap) gap k
  end.

(** A colour channel lies between two others. *)
Definition channel_between (a b c : Z) : Prop :=
  (Z.min a b <= c <= Z.max a b)%Z.

Definition rgb_between (a b c : Rgb) : Prop :=
  let '(a0, a1, a2) := a in
  let '(b0, b1, b2) := b in
  let '(c0, c1, c2) := c in
  channel_between a0 b0 c0 /\ channel_between a1 b1 c1 /\ channel_between a2 b2 c2.

(** No media query list is available ([window.matchMedia] is missing). *)
Definition no_media : Media := mkMedia None None None None None.

(** * The page script: language toggle and button shimmer

    A second closure, over [lang], the two timer collections and the page.
    Strings are byte strings (the UTF-8 text of the script); the parts of the
    document the script reads and writes are the fields of [Main.Page]. *)

Module Main.

Local Open Scope string_scope.

Inductive Lang : Type := ja | en.

Definition code (l : Lang) : String.string :=
  match l with ja => "ja"%string | en => "en"%string end.

(** [I18N[lang]] as the list of its own properties, in source order. *)
Definition I18N (l : Lang) : list (String.string * String.string) :=
  match l with
  | ja =>
   [("name"%string, "ケイレブ・ワース"%string);
    ("role"%string, "ソフトウェアエンジニア"%string);
    ("title"%string, "ソフトウェアエンジニア | ケイレブ・ワース"%string);
    ("techResume"%string, "技術レジュメ"%string);
    ("nonTechResume"%string, "非技術レジュメ"%string);
    ("linkedin"%string, "LinkedIn"%string)]
  | en =>
   [("name"%string, "Caleb Worth"%string);
    ("role"%string, "Software Engineer"%string);
    ("title"%string, "Software Engineer | Caleb"%string);
    ("techResume"%string, "Technical Resume"%string);
    ("nonTechResume"%string, "Non Technical Resume"%string);
    ("linkedin"%string, "LinkedIn"%string)]
  end.

Definition RESUME_LINKS (l : Lang) : String.string * String.string :=
  match l with
  | ja => ("./assets/resumes/JP/Tai_Tran_Software_Engineer_Resume_JP.pdf"%string,
           "./assets/resumes/JP/Tai_Tran_Non_Technical_Resume_JP.pdf"%string)
  | en => ("./assets/resumes/EN/Tai_Tran_Software_Engineer_Resume.pdf"%string,
           "./assets/resumes/EN/Tai_Tran_Non_Technical_Resume.pdf"%string)
  end.

(** [I18N[lang]?.[key]] when it is a string.  Properties inherited from
    [Object.prototype] are not strings, so only own properties count. *)
Fixpoint lookup (key : String.string) (table : list (String.string * String.string))
  : option String.string :=
  match table with
  | [] => None
  | (k, v) :: rest => if String.eqb k key then Some v else lookup key rest
  end.

(** [localStorage]: whether [getItem] and [setItem] return or throw, and the
    value stored under ["lang"]. *)
Record Storage : Type := mkStorage {
  readable : bool;
  writable : bool;
  item : option String.string
}.

(** An element matched by [[data-i18n]]. *)
Record Node : Type := mkNode {
  isHTMLElement : bool;
  key : String.string;              (* its data-i18n attribute *)
  textContent : String.string
}.

(** The element with id [lang-toggle], when it is an [HTMLElement]. *)
Record Button : Type := mkButton {
  labelText : option String.string; (* text of its .btn-label child, if any *)
  ownText : String.string;          (* text set on the button itself *)
  ariaLabel : option String.string;
  titleAttr : option String.string
}.

(** What [document.getElementById("lang-toggle")] returns: nothing, an
    element that is not an [HTMLElement], or the button. *)
Inductive Toggle : Type :=
| NoToggle
| OtherElement
| HtmlButton (b : Button).

Record Page : Type := mkPage {
  lang : Lang;                            (* the closure's [lang] *)
  htmlLang : option String.string;        (* lang attribute of <html> *)
  nameLang : option (option String.string); (* lang attribute of .name, if it exists *)
  nodes : list Node;
  title : String.string;                  (* document.title *)
  langBtn : Toggle;
  techLink : option String.string;        (* href of the tech resume anchor *)
  nonTechLink : option String.string;
  storage : Storage
}.

Definition parseLang (v : option String.string) : option Lang :=
  match v with
  | Some t =>
      if String.eqb t "ja" then Some ja
      else if String.eqb t "en" then Some en else None
  | None => None
  end.

(** The [try] block that picks the first language: the stored one, else the
    one of [<html lang>], else ["ja"]; a throwing [getItem] leaves ["ja"]. *)
Definition initialLang (st : Storage) (html : option String.string) : Lang :=
  if readable st then
    match parseLang (item st) with
    | Some l => l
    | None =>
        match parseLang html with
        | Some l => l
        | None => ja
        end
    end
  else ja.

Definition updateLangToggleButton (currentLang : Lang) (t : Toggle) : Toggle :=
  match t with
  | HtmlButton b =>
      let switchingToEnglish :=
        match currentLang with ja => true | en => false end in
      let nextLabel : String.string :=
        if switchingToEnglish then "EN" else "日本語" in
      let nextAriaLabel : String.string :=
        if switchingToEnglish then "Switch to English" else "Switch to Japanese" in
      HtmlButton
        (match labelText b with
         | Some _ => mkButton (Some nextLabel) (ownText b)
                              (Some nextAriaLabel) (Some nextAriaLabel)
         | None => mkButton None nextLabel
                            (Some nextAriaLabel) (Some nextAriaLabel)
         end)
  | _ => t
  end.

Definition translate (l : Lang) (n : Node) : Node :=
  if negb (isHTMLElement n) then n
  else if String.eqb (key n) "" then n
  else match lookup (key n) (I18N l) with
       | Some value => mkNode (isHTMLElement n) (key n) value
       | None => n
       end.

Definition setItem (v : String.string) (st : Storage) : Storage :=
  if writable st then mkStorage (readable st) (writable st) (Some v) else st.

Definition applyLanguage (nextLang : Lang) (p : Page) : Page :=
  let links := RESUME_LINKS nextLang in
  mkPage nextLang
         (Some (code nextLang))
         (match nameLang p with Some _ => Some (Some (code nextLang)) | None => None end)
         (map (translate nextLang) (nodes p))
         (match lookup "title" (I18N nextLang) with
          | Some t => t
          | None => title p
          end)
         (updateLangToggleButton nextLang (langBtn p))
         (match techLink p with Some _ => Some (fst links) | None => None end)
         (match nonTechLink p with Some _ => Some (snd links) | None => None end)
         (setItem (code nextLang) (storage p)).

(** The click listener of the toggle, registered when [langBtn] is not null. *)
Definition click (p : Page) : Page :=
  match langBtn p with
  | NoToggle => p
  | _ => applyLanguage (match lang p with ja => en | en => ja end) p
  end.

(** The script from its first line to [applyLanguage(lang)] at its end. *)
Definition load (p : Page) : Page :=
  applyLanguage (initialLang (storage p) (htmlLang p)) p.

(** ** Button shimmer *)

(** A JavaScript number that may be [NaN] ([None]). *)
Definition JsNum : Type := option Q.

Definition isDigit (c : Ascii.ascii) : bool :=
  (48 <=? Ascii.nat_of_ascii c)%nat && (Ascii.nat_of_ascii c <=? 57)%nat.

Definition isDot (c : Ascii.ascii) : bool := (Ascii.nat_of_ascii c =? 46)%nat.

(** The value of a run of decimal digits, most significant first. *)
Fixpoint digitsValue (acc : Q) (cs : list Ascii.ascii) : Q :=
  match cs with
  | [] => acc
  | c :: rest =>
      digitsValue (acc * 10 + inject_Z (Z.of_nat (Ascii.nat_of_ascii c - 48))) rest
  end.

(** The digits before the first dot, and what follows it if there is one. *)
Fixpoint splitDot (cs : list Ascii.ascii)
  : list Ascii.ascii * option (list Ascii.ascii) :=
  match cs with
  | [] => ([], None)
  | c :: rest =>
      if isDot c then ([], Some rest)
      else let '(i, f) := splitDot rest in (c :: i, f)
  end.

(** [Number(text)] for a text of digits and dots: a decimal literal has at
    most one dot and at least one digit, anything else is [NaN]. *)
Definition Number (cs : list Ascii.ascii) : JsNum :=
  let '(int, frac) := splitDot cs in
  match frac with
  | None => if (length int =? 0)%nat then None else Some (digitsValue 0 int)
  | Some f =>
      if negb (forallb isDigit f) then None
      else if (length int + length f =? 0)%nat then None
      else Some (digitsValue 0 int + digitsValue 0 f / 10 ^ Z.of_nat (length f))
  end.

(** [raw.match(/^([\d.]+)(ms|s)$/)]: the number text and whether the unit is
    [ms].  No character of the class is [m] or [s], so the unit is read off
    the end of the text. *)
Definition matchDuration (raw : list Ascii.ascii) : option (list Ascii.ascii * bool) :=
  let ok := fun pre : list Ascii.ascii =>
    negb (length pre =? 0)%nat && forallb (fun c => isDigit c || isDot c) pre in
  match rev raw with
  | last :: before =>
      if negb (Ascii.eqb last "s") then None
      else
        match before with
        | c :: pre =>
            if Ascii.eqb c "m"
            then (if ok pre then Some (rev pre, true) else None)
            else (if ok before then Some (rev before, false) else None)
        | [] => None
        end
  | [] => None
  end.

(** [getShimmerDurationMs(btn)], from the trimmed value of the custom
    property [--shimmer-duration]. *)
Definition getShimmerDurationMs (raw : list Ascii.ascii) : JsNum :=
  match matchDuration raw with
  | None => Some 1400
  | Some (text, isMs) =>
      match Number text with
      | None => None
      | Some value => Some (if isMs then value else value * 1000)
      end
  end.

(** What the script keeps about one button: the class [shimmer-active], its
    entry of [shimmerTimers] (the delay of the pending timer) and its
    membership of [hoveredButtons]. *)
Record Btn : Type := mkBtn {
  shimmerActive : bool;
  shimmerTimer : option JsNum;
  hovered : bool
}.

(** The three collections, keyed by button. *)
Definition Shimmer : Type := nat -> Btn.

Definition update (st : Shimmer) (btn : nat) (v : Btn) : Shimmer :=
  fun k => if (k =? btn)%nat then v else st k.

Definition startShimmer (style : nat -> list Ascii.ascii) (btn : nat) (st : Shimmer)
  : Shimmer :=
  let b := st btn in
  match shimmerTimer b with
  | Some _ => st
  | None =>
      if shimmerActive b then st
      else update st btn (mkBtn true (Some (getShimmerDurationMs (style btn)))
                                (hovered b))
  end.

Inductive ShimmerEvent : Type :=
| MouseEnter (btn : nat)
| MouseLeave (btn : nat)
| FocusIn (btn : nat)
| TimerFires (btn : nat).        (* the callback given to [setTimeout] runs *)

Definition react (style : nat -> list Ascii.ascii) (e : ShimmerEvent) (st : Shimmer)
  : Shimmer :=
  match e with
  | MouseEnter btn =>
      let b := st btn in
      startShimmer style btn
        (update st btn (mkBtn (shimmerActive b) (shimmerTimer b) true))
  | MouseLeave btn =>
      let b := st btn in
      update st btn (mkBtn (shimmerActive b) (shimmerTimer b) false)
  | FocusIn btn => startShimmer style btn st
  | TimerFires btn =>
      let b := st btn in
      match shimmerTimer b with
      | None => st                (* no timer is pending: nothing runs *)
      | Some _ =>
          let st := update st btn (mkBtn false None (hovered b)) in
          if hovered b then startShimmer style btn st else st
      end
  end.

Definition reactAll (style : nat -> list Ascii.ascii) (es : list ShimmerEvent)
    (st : Shimmer) : Shimmer :=
  fold_left (fun st e => react style e st) es st.

(** Before any event: no class, no timer, nothing hovered. *)
Definition idle : Shimmer := fun _ => mkBtn false None false.

Definition buttonOf (e : ShimmerEvent) : nat :=
  match e with
  | MouseEnter b | MouseLeave b | FocusIn b | TimerFires b => b
  end.

End Main.

(** A page with two translatable nodes, one node with an unknown key, a
    toggle with a label and working storage. *)
Definition page0 : Main.Page :=
  Main.mkPage Main.ja (Some "ja"%string) (Some None)
    [ Main.mkNode true "name"%string "?"%string;
      Main.mkNode true "role"%string "?"%string;
      Main.mkNode true "motto"%string "carpe diem"%string ]
    "untitled"%string
    (Main.HtmlButton (Main.mkButton (Some "?"%string) ""%string None None))
    (Some "#"%string) None
    (Main.mkStorage true true None).

(** For one button: the class [shimmer-active] is on exactly while a timer
    is pending. *)
Definition in_step (b : Main.Btn) : Prop :=
  Main.shimmerActive b = true <-> Main.shimmerTimer b <> None.

Definition style0 : nat -> list Ascii.ascii :=
  fun _ => String.list_ascii_of_string "900ms".

(** * Properties *)

(** ** Comparisons, [clamp] *)

Lemma Qltb_spec (a b : Q) : reflect (a < b) (Qltb a b).
Proof. unfold Qltb, Qlt. apply Z.ltb_spec0. Qed.

Lemma Qleb_spec (a b : Q) : reflect (a <= b) (Qleb a b).
Proof. unfold Qleb, Qle. apply Z.leb_spec0. Qed.

Lemma Qeqb_spec (a b : Q) : reflect (a == b) (Qeqb a b).
Proof. unfold Qeqb, Qeq. apply Z.eqb_spec. Qed.

Lemma Qltb_false (a b : Q) : Qltb a b = false <-> b <= a.
Proof.
  destruct (Qltb_spec a b) as [H | H]; split; intro K; try easy.
  - lra.
  - apply Qnot_lt_le; exact H.
Qed.

Lemma Qltb_true (a b : Q) : Qltb a b = true <-> a < b.
Proof. destruct (Qltb_spec a b); split; intro; easy. Qed.

(** Destructs every comparison of the goal, leaving the order facts as
    hypotheses for [lra]. *)
Ltac cmp_cases :=
  repeat first
    [ match goal with
      | H : context [Qltb _ _] |- _ => revert H
      | H : context [Qleb _ _] |- _ => revert H
      | H : context [Qeqb _ _] |- _ => revert H
      end
    | match goal with
      | |- context [Qltb ?a ?b] => destruct (Qltb_spec a b)
      | |- context [Qleb ?a ?b] => destruct (Qleb_spec a b)
      | |- context [Qeqb ?a ?b] => destruct (Qeqb_spec a b)
      end ];
  intros.

Lemma Math_max_l a b : a <= Math_max a b.
Proof. unfold Math_max; cmp_cases; lra. Qed.

Lemma Math_max_r a b : b <= Math_max a b.
Proof. unfold Math_max; cmp_cases; lra. Qed.

Lemma Math_min_l a b : Math_min a b <= a.
Proof. unfold Math_min; cmp_cases; lra. Qed.

Lemma Math_min_r a b : Math_min a b <= b.
Proof. unfold Math_min; cmp_cases; lra. Qed.

Lemma clamp_lower v lo hi : lo <= clamp v lo hi.
Proof. apply Math_max_l. Qed.

Lemma clamp_upper v lo hi : lo <= hi -> clamp v lo hi <= hi.
Proof. unfold clamp, Math_max, Math_min; intros; cmp_cases; lra. Qed.

Lemma clamp_inside v lo hi : lo <= v <= hi -> clamp v lo hi == v.
Proof. unfold clamp, Math_max, Math_min; intros; cmp_cases; lra. Qed.



(** ** Alpha *)

(** For a seed in [0, 1] the interpolated alpha already lies in [0.48, 0.92],
    so the final clamp of [getPetalAlpha] leaves it alone. *)
Lemma getPetalAlpha_unclamped (s : World.t) (seed : Q) :
  0 <= seed <= 1 ->
  let boost := clamp (World.visibilityBoost s) 0 1 in
  getPetalAlpha s seed == lerp (lerp 0.48 0.62 boost) (lerp 0.78 0.92 boost) seed
  /\ 0.48 <= getPetalAlpha s seed <= 0.92.
Proof.
  intros Hseed boost.
  assert (Hb : 0 <= boost <= 1).
  { split; [apply clamp_lower | apply clamp_upper; lra]. }
  assert (Hr : 0.48 <= lerp (lerp 0.48 0.62 boost) (lerp 0.78 0.92 boost) seed <= 0.92).
  { unfold lerp. split; nra. }
  assert (He : getPetalAlpha s seed
               == lerp (lerp 0.48 0.62 boost) (lerp 0.78 0.92 boost) seed).
  { unfold getPetalAlpha. fold boost. apply clamp_inside. lra. }
  split; [exact He | rewrite He; exact Hr].
Qed.

(** C3.  Whatever the alpha seed and whatever the stored visibility boost
    (it is clamped to [0, 1] first), the alpha computed by [getPetalAlpha]
    lies between the global floor 0.42 and the global ceiling 0.95. *)
Theorem getPetalAlpha_bounds (s : World.t) (seed : Q) :
  0.42 <= getPetalAlpha s seed <= 0.95.
Proof.
  unfold getPetalAlpha. split.
  - apply clamp_lower.
  - apply clamp_upper. lra.
Qed.

(** ** Visibility boost *)

Lemma boostSum_weights (m : Media) :
  boostSum m =
    weight (matches (more m)) 0.45 + weight (matches (forcedColors m)) 0.5
    + weight (matches (reduceTransparency m)) 0.25
    + weight (match gamutP3 m with Some b => negb b | None => false end) 0.2
    - weight (matches (less m)) 0.2.
Proof. reflexivity. Qed.

Lemma refreshPetalVisuals_boost host s :
  World.visibilityBoost (refreshPetalVisuals host s) = World.visibilityBoost s.
Proof. reflexivity. Qed.

(** C5, the claim as stated fails: with exactly forced colours and increased
    contrast active the handler stores 0.95, not 1.0. *)
Lemma boost_forced_more_not_one :
  World.visibilityBoost
    (updateVisibilityBoost host0 media_forced_more (initial 0 false)) == 0.95
  /\ ~ World.visibilityBoost
        (updateVisibilityBoost host0 media_forced_more (initial 0 false)) == 1.
Proof. split; vm_compute; [reflexivity | discriminate]. Qed.

(** C5, amended.  After [updateVisibilityBoost] the stored boost is the
    weighted sum (+0.45 increased contrast, +0.5 forced colours, +0.25 reduced
    transparency, +0.2 narrow gamut, -0.2 decreased contrast) clamped to
    [0, 1]; with exactly forced colours and increased contrast active it
    is 0.95. *)
Theorem updateVisibilityBoost_value (host : Host) (m : Media) (s : World.t) :
  World.visibilityBoost (updateVisibilityBoost host m s)
  == clamp (weight (matches (more m)) 0.45
            + weight (matches (forcedColors m)) 0.5
            + weight (matches (reduceTransparency m)) 0.25
            + weight (match gamutP3 m with Some b => negb b | None => false end) 0.2
            - weight (matches (less m)) 0.2) 0 1
  /\ World.visibilityBoost (updateVisibilityBoost host media_forced_more s) == 0.95.
Proof.
  assert (G : forall m', World.visibilityBoost (updateVisibilityBoost host m' s)
                         == clamp (boostSum m') 0 1).
  { intro m'. unfold updateVisibilityBoost.
    destruct (Qeqb_spec (clamp (boostSum m') 0 1) (World.visibilityBoost s)) as [E | E].
    - symmetry; exact E.
    - rewrite refreshPetalVisuals_boost. reflexivity. }
  split.
  - rewrite G, boostSum_weights. reflexivity.
  - rewrite G. vm_compute. reflexivity.
Qed.

Lemma updateVisibilityBoost_changed host m s :
  ~ clamp (boostSum m) 0 1 == World.visibilityBoost s ->
  updateVisibilityBoost host m s
  = refreshPetalVisuals host (World.set_visibilityBoost (clamp (boostSum m) 0 1) s).
Proof.
  intro H. unfold updateVisibilityBoost.
  destruct (Qeqb_spec (clamp (boostSum m) 0 1) (World.visibilityBoost s));
    [contradiction | reflexivity].
Qed.



(** When the boost does change, every petal is refreshed: with a sprite
    context available each one gets a freshly drawn sprite. *)
Example updateVisibilityBoost_refreshes :
  let s' := updateVisibilityBoost host0 media_forced_more world_reduced in
  World.visibilityBoost s' == 0.95
  /\ map Petal.alpha (World.petals s') <> map Petal.alpha (World.petals world_reduced)
  /\ forallb (fun p => match Petal.sprite p with Some _ => true | None => false end)
             (World.petals s') = true.
Proof.
  cbv zeta. split; [vm_compute; reflexivity | split].
  - vm_compute. discriminate.
  - vm_compute. reflexivity.
Qed.

(** ** Silhouette *)

(** C9.  The silhouette path drawn by [drawPetalShape] depends on the size
    and the shape descriptor only: two calls with the same size and
    descriptor issue the same ten path calls ([beginPath], one [moveTo], seven
    curves, [closePath]) whatever the fill colours and the visibility boost. *)
Theorem silhouette_pure (size : Q) (shape : PetalShape.t)
    (fillA fillB fillA' fillB' : Css) (boost boost' : Q) :
  silhouette (drawPetalShape size fillA fillB shape boost)
  = silhouette (drawPetalShape size fillA' fillB' shape boost')
  /\ length (silhouette (drawPetalShape size fillA fillB shape boost)) = 10%nat
  /\ last (silhouette (drawPetalShape size fillA fillB shape boost)) beginPath
     = closePath.
Proof.
  cbv beta iota zeta delta [drawPetalShape silhouette upto_closePath app].
  repeat split.
Qed.

(** ** Fields a petal keeps *)

Lemma kept_trans p q r :
  kept_but_x_sprite p q -> kept_but_x_sprite q r -> kept_but_x_sprite p r.
Proof.
  unfold kept_but_x_sprite. intros A B.
  repeat match goal with H : _ /\ _ |- _ => destruct H end.
  repeat split; congruence.
Qed.

Lemma kept_set_x v p : kept_but_x_sprite p (Petal.set_x v p).
Proof. unfold kept_but_x_sprite. repeat split. Qed.

Lemma renderPetalSprite_kept host s p :
  kept_but_x_sprite p (renderPetalSprite host s p)
  /\ Petal.x (renderPetalSprite host s p) = Petal.x p.
Proof.
  unfold renderPetalSprite; cbv zeta.
  destruct (negb (sprite2d host)); unfold kept_but_x_sprite; repeat split.
Qed.

(** ** Vein count *)

Lemma drawVeinCount_veinCountOf (host : Host) (n : nat) :
  fst (drawVeinCount host n)
  = veinCountOf (Math_random host n) (Math_random host (S n)).
Proof.
  unfold drawVeinCount, veinCountOf, bind, random, ret.
  destruct (Qltb (Math_random host n) 0.45); [reflexivity |].
  destruct (Qltb (Math_random host (S n)) 0.7); reflexivity.
Qed.

(** The vein count stored in a new petal comes from the 27th and, when it
    is made, the 28th draw of its creation. *)
Lemma makePetal_veinCount host s b n :
  PetalShape.veinCount (Petal.shape (fst (makePetal host s b n)))
  = veinCountOf (Math_random host (26 + n)) (Math_random host (27 + n)).
Proof.
  destruct b; cbv beta iota zeta delta [makePetal bind rand random ret];
  match goal with |- context [drawVeinCount host ?k] =>
    pose proof (drawVeinCount_veinCountOf host k) as E;
    destruct (drawVeinCount host k) as [vc k'] end;
  cbn [fst] in *; subst vc;
  match goal with |- context [renderPetalSprite host s ?p] =>
    destruct (renderPetalSprite_kept host s p) as [K _] end;
  unfold kept_but_x_sprite in K;
  repeat match goal with H : _ /\ _ |- _ => destruct H end;
  match goal with H : Petal.shape _ = _ |- _ => rewrite H end;
  reflexivity.
Qed.

(** On the 20 x 20 grid of draws the three counts come up 180, 154 and 66
    times out of 400. *)
Example veinCount_grid :
  map (countOn 20) [3%Z; 2%Z; 1%Z] = [180%nat; 154%nat; 66%nat].
Proof. vm_compute. reflexivity. Qed.

(** C6, the claim as stated fails: the pairs of draws that give two veins
    include a rectangle of area 0.385, more than the claimed 0.25, and those
    that give one vein lie inside a rectangle of area 0.165, less than the
    claimed 0.30. *)
Lemma veinCount_weights_not_25_30 :
  ((forall u1 u2, in_rect (mkRect 0.45 1 0 0.7) u1 u2 -> veinCountOf u1 u2 = 2%Z)
   /\ 0.25 < area (mkRect 0.45 1 0 0.7))
  /\ ((forall u1 u2, 0 <= u1 < 1 -> 0 <= u2 < 1 ->
         veinCountOf u1 u2 = 1%Z -> in_rect (mkRect 0.45 1 0.7 1) u1 u2)
      /\ area (mkRect 0.45 1 0.7 1) < 0.30).
Proof.
  unfold in_rect, veinCountOf, area; cbn [lo1 hi1 lo2 hi2].
  split; split.
  - intros u1 u2 [[A B] [C D]]. cmp_cases; try reflexivity; lra.
  - lra.
  - intros u1 u2 A B E. revert E. cmp_cases; try easy; lra.
  - lra.
Qed.

(** C6, amended.  As a function of the two uniform draws the vein count is 3
    exactly on [0, 0.45) x [0, 1), 2 exactly on [0.45, 1) x [0, 0.7) and 1
    exactly on [0.45, 1) x [0.7, 1); the areas, hence the probabilities, are
    45%, 38.5% and 16.5%.  The count stored in a petal by [makePetals] is this
    function of two of its draws. *)
Theorem veinCount_distribution (host : Host) (n : nat) (u1 u2 : Q) :
  0 <= u1 < 1 -> 0 <= u2 < 1 ->
  (forall count, (1 <= count <= 3)%Z ->
     veinCountOf u1 u2 = count <-> in_rect (veinRegion count) u1 u2)
  /\ (1 <= veinCountOf u1 u2 <= 3)%Z
  /\ area (veinRegion 3) == 0.45
  /\ area (veinRegion 2) == 0.385
  /\ area (veinRegion 1) == 0.165
  /\ (forall s scatter,
        PetalShape.veinCount (Petal.shape (fst (makePetal host s scatter n)))
        = veinCountOf (Math_random host (26 + n)) (Math_random host (27 + n))).
Proof.
  intros H1 H2.
  split; [| split; [| split; [| split; [| split]]]];
    [ | | vm_compute; reflexivity | vm_compute; reflexivity
      | vm_compute; reflexivity | intros; apply makePetal_veinCount ].
  - intros count Hc.
    assert (C : count = 1%Z \/ count = 2%Z \/ count = 3%Z) by lia.
    unfold in_rect, veinCountOf.
    destruct C as [-> | [-> | ->]]; cbn [veinRegion Z.eqb Pos.eqb lo1 hi1 lo2 hi2];
      cmp_cases; (split; [intro; try easy; lra | intro; try reflexivity; lra]).
  - unfold veinCountOf; cmp_cases; lia.
Qed.

Lemma veinCount_distribution_witness :
  (forall count, (1 <= count <= 3)%Z ->
     veinCountOf (1 # 2) (1 # 2) = count <-> in_rect (veinRegion count) (1 # 2) (1 # 2))
  /\ (1 <= veinCountOf (1 # 2) (1 # 2) <= 3)%Z
  /\ area (veinRegion 3) == 0.45
  /\ area (veinRegion 2) == 0.385
  /\ area (veinRegion 1) == 0.165
  /\ (forall s scatter,
        PetalShape.veinCount (Petal.shape (fst (makePetal host0 s scatter 0%nat)))
        = veinCountOf (Math_random host0 26%nat) (Math_random host0 27%nat)).
Proof.
  apply (veinCount_distribution host0 0%nat (1 # 2) (1 # 2)); split; lra.
Defined.

(** ** Creating and reconciling petals *)

Ltac break_match :=
  match goal with
  | |- context [match ?e with _ => _ end] => destruct e eqn:?
  end.

Lemma makePetalsN_length host s b count n :
  length (fst (makePetalsN host s count b n)) = count.
Proof.
  revert n; induction count as [| k IH]; intro n; [reflexivity |].
  cbn [makePetalsN]. unfold bind at 1.
  destruct (makePetal host s b n) as [p n1].
  unfold bind at 1. specialize (IH n1).
  destruct (makePetalsN host s k b n1) as [rest n2].
  cbn in *. now rewrite IH.
Qed.

Lemma pullBack_length host w ps n :
  length (fst (pullBack host w ps n)) = length ps.
Proof.
  revert n; induction ps as [| p rest IH]; intro n; [reflexivity |].
  cbn [pullBack]. unfold bind at 1.
  match goal with |- context [?c n] =>
    match c with (if _ then _ else _) => destruct (c n) as [p' n1] end end.
  unfold bind at 1. specialize (IH n1).
  destruct (pullBack host w rest n1) as [rest' n2].
  cbn in *. now rewrite IH.
Qed.

Lemma targetCount_ge_12 w h qs : (12 <= targetCount w h qs)%Z.
Proof. unfold targetCount, clampZ. lia. Qed.

(** The parts of the world that [resize] never writes. *)
Lemma resize_frame host win preserve prev s :
  let s' := resize host win preserve prev s in
  World.level s' = World.level s
  /\ World.lastAdjust s' = World.lastAdjust s
  /\ World.avgMs s' = World.avgMs s
  /\ World.lastT s' = World.lastT s
  /\ World.enabled s' = World.enabled s
  /\ World.reducedMotion s' = World.reducedMotion s
  /\ World.visibilityBoost s' = World.visibilityBoost s.
Proof.
  unfold resize; cbv zeta.
  repeat break_match; cbn; repeat split; reflexivity.
Qed.

(** The viewport that [resize] installs. *)
Lemma resize_viewport host win preserve prev s :
  let s' := resize host win preserve prev s in
  World.w s' = inject_Z (Z.max 1 (Math_floor (innerWidth win)))
  /\ World.h s' = inject_Z (Z.max 1 (Math_floor (innerHeight win))).
Proof.
  unfold resize; cbv zeta.
  repeat break_match; cbn; repeat split; reflexivity.
Qed.

Lemma reconcile_length host s target n :
  (0 <= target)%Z ->
  length (fst (reconcile host s target n)) = Z.to_nat target.
Proof.
  intro Ht. unfold reconcile.
  destruct (Z.of_nat (length (World.petals s)) <? target)%Z eqn:Hlt.
  - unfold bind, makePetals.
    pose proof (makePetalsN_length host s false
                  (Z.to_nat (target - Z.of_nat (length (World.petals s)))) n) as La.
    destruct (makePetalsN host s _ false n) as [added n'].
    cbn in *. rewrite length_app, La. apply Z.ltb_lt in Hlt. lia.
  - destruct (target <? Z.of_nat (length (World.petals s)))%Z eqn:Hgt; cbn.
    + rewrite length_firstn. apply Z.ltb_lt in Hgt. lia.
    + apply Z.ltb_ge in Hlt, Hgt. lia.
Qed.

Lemma rescaleX_length prevW w ps : length (rescaleX prevW w ps) = length ps.
Proof. unfold rescaleX. destruct (_ && _); [apply length_map | reflexivity]. Qed.

Lemma rerender_length host s prev ps : length (rerender host s prev ps) = length ps.
Proof.
  unfold rerender. destruct prev; [destruct (negb _) |];
    [apply length_map | reflexivity | reflexivity].
Qed.

Lemma resize_length host win preserve prev s :
  length (World.petals (resize host win preserve prev s))
  = Z.to_nat (targetCount (inject_Z (Z.max 1 (Math_floor (innerWidth win))))
                          (inject_Z (Z.max 1 (Math_floor (innerHeight win))))
                          (getQualitySettings s)).
Proof.
  set (w' := inject_Z (Z.max 1 (Math_floor (innerWidth win)))).
  set (h' := inject_Z (Z.max 1 (Math_floor (innerHeight win)))).
  pose proof (targetCount_ge_12 w' h' (getQualitySettings s)) as Hge.
  unfold resize; cbv zeta. fold w' h'.
  set (tc := targetCount w' h' (getQualitySettings s)) in *.
  set (s1 := World.set_viewport _ w' h' s).
  destruct (negb _) eqn:Hp.
  - pose proof (makePetalsN_length host s1 true (Z.to_nat tc) (World.randomCalls s1)) as L.
    unfold makePetals.
    destruct (makePetalsN host s1 (Z.to_nat tc) true (World.randomCalls s1)) as [ps n].
    exact L.
  - unfold bind.
    pose proof (reconcile_length host s1 tc (World.randomCalls s1) ltac:(lia)) as L.
    destruct (reconcile host s1 tc (World.randomCalls s1)) as [ps0 n0].
    pose proof (pullBack_length host w' (rescaleX (World.w s) w' ps0) n0) as L'.
    destruct (pullBack host w' (rescaleX (World.w s) w' ps0) n0) as [ps n].
    cbn in *. rewrite rerender_length, L', rescaleX_length. exact L.
Qed.

Lemma clampZ_clamp (v lo hi : Z) :
  inject_Z (clampZ v lo hi) == clamp (inject_Z v) (inject_Z lo) (inject_Z hi).
Proof.
  unfold clampZ, clamp, Math_max, Math_min.
  cmp_cases;
    repeat match goal with
           | H : inject_Z _ < inject_Z _ |- _ => rewrite <- Zlt_Qlt in H
           | H : ~ inject_Z _ < inject_Z _ |- _ => rewrite <- Zlt_Qlt in H
           end;
    rewrite inject_Z_injective; lia.
Qed.


(** ** One simulation step *)

Lemma rand_value host lo hi n :
  rand host lo hi n = (lo + Math_random host n * (hi - lo), S n).
Proof. reflexivity. Qed.

Lemma rand_le host lo hi c n :
  random_ok host -> lo <= c -> hi <= c -> fst (rand host lo hi n) <= c.
Proof.
  intros R A B. rewrite rand_value; cbn [fst].
  destruct (R n) as [U0 U1]. set (u := Math_random host n) in *.
  assert (0 <= (1 - u) * (c - lo)) by (apply Qmult_le_0_compat; lra).
  assert (0 <= u * (c - hi)) by (apply Qmult_le_0_compat; lra).
  lra.
Qed.

Lemma rand_ge host lo hi c n :
  random_ok host -> c <= lo -> c <= hi -> c <= fst (rand host lo hi n).
Proof.
  intros R A B. rewrite rand_value; cbn [fst].
  destruct (R n) as [U0 U1]. set (u := Math_random host n) in *.
  assert (0 <= (1 - u) * (lo - c)) by (apply Qmult_le_0_compat; lra).
  assert (0 <= u * (hi - c)) by (apply Qmult_le_0_compat; lra).
  lra.
Qed.

Lemma offScreen_spec w h p :
  offScreen w h p = true
  <-> (h + Petal.size p * 2 < Petal.y p \/ w + Petal.size p * 4 < Petal.x p).
Proof.
  unfold offScreen. rewrite orb_true_iff, !Qltb_true. reflexivity.
Qed.

Lemma offScreen_false w h p :
  offScreen w h p = false
  <-> (Petal.y p <= h + Petal.size p * 2 /\ Petal.x p <= w + Petal.size p * 4).
Proof.
  unfold offScreen. rewrite orb_false_iff, !Qltb_false. reflexivity.
Qed.

Lemma respawn_cases host w h q n :
  (offScreen w h q = false /\ respawn host w h q n = (q, n))
  \/ (offScreen w h q = true
      /\ respawn host w h q n
         = (Petal.set_x (fst (rand host (- w * 0.25) (w * 0.35) (S n)))
              (Petal.set_y (fst (rand host (- h * 0.25) (- Petal.size q * 1.5) n)) q),
            S (S n))).
Proof.
  unfold respawn. destruct (offScreen w h q); [right | left]; split; reflexivity.
Qed.

(** C2.  One simulation step of a petal (physics, then the respawn check)
    leaves it with y at most [h + 2 * size] and x at most [w + 4 * size].  A
    petal that the physics moved across either bound is relocated within the
    step, by two fresh draws, to a position above and left of those bounds;
    any other petal is left where the physics put it. *)
Theorem stepPetal_in_bounds (host : Host) (w h dt motionScale wind : Q)
    (p : Petal.t) (n : nat) :
  random_ok host -> 0 <= w -> 0 <= h -> 0 <= Petal.size p ->
  let q := physics dt motionScale wind p in
  let p' := fst (stepPetal host w h dt motionScale wind p n) in
  (Petal.y p' <= h + 2 * Petal.size p' /\ Petal.x p' <= w + 4 * Petal.size p')
  /\ (h + 2 * Petal.size q < Petal.y q \/ w + 4 * Petal.size q < Petal.x q ->
      p' = Petal.set_x (- w * 0.25 + Math_random host (S n) * (w * 0.35 - - w * 0.25))
             (Petal.set_y (- h * 0.25 + Math_random host n
                                        * (- Petal.size q * 1.5 - - h * 0.25)) q)
      /\ snd (stepPetal host w h dt motionScale wind p n) = S (S n)
      /\ Petal.y p' <= 0 /\ Petal.x p' <= w * 0.35)
  /\ (~ (h + 2 * Petal.size q < Petal.y q \/ w + 4 * Petal.size q < Petal.x q) ->
      p' = q /\ snd (stepPetal host w h dt motionScale wind p n) = n).
Proof.
  intros R Hw Hh Hs q p'. subst p'. unfold stepPetal. fold q.
  assert (Sq : 0 <= Petal.size q) by exact Hs.
  assert (Hy : fst (rand host (- h * 0.25) (- Petal.size q * 1.5) n) <= 0).
  { apply rand_le; [exact R | lra | lra]. }
  assert (Hx : fst (rand host (- w * 0.25) (w * 0.35) (S n)) <= w * 0.35).
  { apply rand_le; [exact R | lra | lra]. }
  destruct (respawn_cases host w h q n) as [[Off E] | [Off E]]; rewrite E; cbn [fst snd].
  - apply offScreen_false in Off. split; [| split].
    + lra.
    + intros [C | C]; lra.
    + intros _. split; reflexivity.
  - apply offScreen_spec in Off. split; [| split].
    + cbn [Petal.y Petal.x Petal.size Petal.set_x Petal.set_y].
      change (Petal.size (physics dt motionScale wind p)) with (Petal.size q). lra.
    + intros _. rewrite !rand_value in *. cbn [fst] in *.
      cbn [Petal.y Petal.x Petal.set_x Petal.set_y].
      repeat split; assumption.
    + intros C. exfalso. apply C. destruct Off as [O | O]; [left | right]; lra.
Qed.

Lemma random_ok_host0 : random_ok host0.
Proof. intro n; cbn; lra. Qed.

Lemma stepPetal_in_bounds_witness :
  random_ok host0 /\ 0 <= Petal.size petal0 /\
  let p' := fst (stepPetal host0 1100 700 0.04 0.4 0 petal0 0%nat) in
  Petal.y p' <= 700 + 2 * Petal.size p' /\ Petal.x p' <= 1100 + 4 * Petal.size p'.
Proof.
  split; [exact random_ok_host0 | split; [cbn; lra |]].
  apply (stepPetal_in_bounds host0 1100 700 0.04 0.4 0 petal0 0%nat);
    [exact random_ok_host0 | lra | lra | cbn; lra].
Defined.

(** ** Reduced motion *)

Lemma stepOf_clamped frameMs : 40 <= frameMs -> stepOf frameMs = 0.04.
Proof.
  intro H. unfold stepOf, Math_min.
  destruct (Qltb_spec (frameMs / 1000) 0.04) as [A | A]; [| reflexivity].
  exfalso. unfold Qdiv in A. change (/ 1000) with (1 # 1000) in A. lra.
Qed.

Lemma stepPetal_rot host w h dt ms wind p n :
  Petal.rot (fst (stepPetal host w h dt ms wind p n))
  = Petal.rot p + Petal.rotSpeed p * dt * ms.
Proof.
  unfold stepPetal.
  destruct (respawn_cases host w h (physics dt ms wind p) n) as [[_ E] | [_ E]];
    rewrite E; reflexivity.
Qed.

(** C4, the claim as stated fails: under reduced motion a petal with rotation
    speed 0.5 rad/s does not advance by 0.0016 rad over a frame of 40ms. *)
Lemma reduced_motion_rotation_not_0016 :
  World.reducedMotion world_reduced = true
  /\ Petal.rotSpeed petal0 == 0.5
  /\ stepOf (40 - World.lastT world_reduced) == 0.04
  /\ nth 0 (map Petal.rot (World.petals (tick host0 win0 40 world_reduced))) 0
     - Petal.rot petal0 == 0.00064
  /\ ~ nth 0 (map Petal.rot (World.petals (tick host0 win0 40 world_reduced))) 0
       - Petal.rot petal0 == 0.0016.
Proof. repeat split; vm_compute; try reflexivity; discriminate. Qed.

(** C4, amended.  With reduced motion on, the motion scale is
    0.08 x 0.4 = 0.032; a frame gap of 40ms or more is clamped to a step of
    0.04s, over which a petal with rotation speed 0.5 rad/s advances its
    rotation by 0.5 x 0.04 x 0.032 = 0.00064 rad. *)
Theorem reduced_motion_rotation (host : Host) (w h wind frameMs : Q)
    (p : Petal.t) (n : nat) :
  40 <= frameMs -> Petal.rotSpeed p == 0.5 ->
  motionScaleOf true == 0.032
  /\ stepOf frameMs == 0.04
  /\ Petal.rot (fst (stepPetal host w h (stepOf frameMs) (motionScaleOf true) wind p n))
     - Petal.rot p == 0.00064.
Proof.
  intros Hf Hr. split; [reflexivity | split].
  - rewrite stepOf_clamped by exact Hf. reflexivity.
  - rewrite stepPetal_rot, stepOf_clamped by exact Hf.
    unfold motionScaleOf, config.motion. lra.
Qed.

Lemma reduced_motion_rotation_witness :
  motionScaleOf true == 0.032
  /\ stepOf 40 == 0.04
  /\ Petal.rot (fst (stepPetal host0 1100 700 (stepOf 40) (motionScaleOf true) 0
                               petal0 0%nat))
     - Petal.rot petal0 == 0.00064.
Proof.
  apply (reduced_motion_rotation host0 1100 700 0 40 petal0 0%nat);
    [lra | reflexivity].
Defined.

(** ** The quality controller *)

Lemma applyQualityLevel_frame host win next s :
  let s' := applyQualityLevel host win next s in
  World.level s' = clampZ next 0 2
  /\ World.lastAdjust s' = World.lastAdjust s
  /\ World.avgMs s' = World.avgMs s
  /\ World.lastT s' = World.lastT s
  /\ World.enabled s' = World.enabled s
  /\ World.reducedMotion s' = World.reducedMotion s
  /\ World.visibilityBoost s' = World.visibilityBoost s.
Proof.
  unfold applyQualityLevel.
  change (Z.of_nat (length quality.levels) - 1)%Z with 2%Z.
  destruct (Z.eqb_spec (clampZ next 0 2) (World.level s)) as [E | E].
  - cbv zeta. rewrite E. repeat split.
  - cbv zeta.
    destruct (resize_frame host win true (Some (getBlurPx s))
                (World.set_level (clampZ next 0 2) s))
      as (A & B & C & D & F & G & H).
    rewrite A, B, C, D, F, G, H. repeat split.
Qed.

(** What [maybeAdjustQuality] does to the preset index and the cooldown. *)
Lemma maybeAdjustQuality_quality host win now s :
  level_in_range s ->
  let s' := maybeAdjustQuality host win now s in
  World.avgMs s' = World.avgMs s
  /\ World.lastT s' = World.lastT s
  /\ World.enabled s' = World.enabled s
  /\ World.reducedMotion s' = World.reducedMotion s
  /\ World.visibilityBoost s' = World.visibilityBoost s
  /\ ((now - World.lastAdjust s < 1200
       /\ World.level s' = World.level s
       /\ World.lastAdjust s' = World.lastAdjust s)
      \/ (1200 <= now - World.lastAdjust s
          /\ World.lastAdjust s' = now
          /\ World.level s'
             = if Qltb 30 (World.avgMs s) && (World.level s <? 2)%Z
               then (World.level s + 1)%Z
               else if Qltb (World.avgMs s) 18 && (0 <? World.level s)%Z
                    then (World.level s - 1)%Z
                    else World.level s)).
Proof.
  intros [L0 L2]. unfold maybeAdjustQuality.
  change (Z.of_nat (length quality.levels) - 1)%Z with 2%Z.
  destruct (Qltb_spec (now - World.lastAdjust s) 1200) as [C | C].
  - cbv zeta. repeat split. left. repeat split. exact C.
  - apply Qnot_lt_le in C. cbv zeta.
    cbn [World.avgMs World.level World.set_lastAdjust].
    destruct (Qltb 30 (World.avgMs s) && (World.level s <? 2)%Z) eqn:Up.
    + destruct (applyQualityLevel_frame host win (World.level s + 1)
                  (World.set_lastAdjust now s)) as (A & B & D & E & F & G & H).
      rewrite A, B, D, E, F, G, H. repeat split. right. repeat split; [exact C |].
      apply andb_true_iff in Up as [_ Up]. apply Z.ltb_lt in Up.
      unfold clampZ. lia.
    + destruct (Qltb (World.avgMs s) 18 && (0 <? World.level s)%Z) eqn:Down.
      * destruct (applyQualityLevel_frame host win (World.level s - 1)
                    (World.set_lastAdjust now s)) as (A & B & D & E & F & G & H).
        rewrite A, B, D, E, F, G, H. repeat split. right. repeat split; [exact C |].
        apply andb_true_iff in Down as [_ Down]. apply Z.ltb_lt in Down.
        unfold clampZ. lia.
      * repeat split. right. repeat split. exact C.
Qed.

(** The quality fields after [tick] are those [maybeAdjustQuality] left. *)
Lemma tick_quality host win t s :
  let adj := maybeAdjustQuality host win t
               (World.set_timing t (smoothed s t) s) in
  let s' := tick host win t s in
  World.level s' = World.level adj
  /\ World.lastAdjust s' = World.lastAdjust adj
  /\ World.avgMs s' = World.avgMs adj
  /\ World.lastT s' = World.lastT adj.
Proof.
  unfold tick, smoothed; cbv zeta.
  set (adj := maybeAdjustQuality host win t _).
  destruct (negb _); [repeat split |].
  destruct (tickPetals _ _ _ _ _ _ _ _ _) as [r n]. repeat split.
Qed.

Lemma tick_level_cases host win t s :
  level_in_range s ->
  let s' := tick host win t s in
  World.avgMs s' = smoothed s t
  /\ World.lastT s' = t
  /\ ((t - World.lastAdjust s < 1200
       /\ World.level s' = World.level s
       /\ World.lastAdjust s' = World.lastAdjust s)
      \/ (1200 <= t - World.lastAdjust s
          /\ World.lastAdjust s' = t
          /\ World.level s'
             = if Qltb 30 (smoothed s t) && (World.level s <? 2)%Z
               then (World.level s + 1)%Z
               else if Qltb (smoothed s t) 18 && (0 <? World.level s)%Z
                    then (World.level s - 1)%Z
                    else World.level s)).
Proof.
  intros R. destruct (tick_quality host win t s) as (A & B & C & D).
  cbv zeta. rewrite A, B, C, D.
  destruct (maybeAdjustQuality_quality host win t
              (World.set_timing t (smoothed s t) s) R) as (E & F & _ & _ & _ & G).
  rewrite E, F. repeat split. exact G.
Qed.

Lemma updateVisibilityBoost_quality host m s :
  World.level (updateVisibilityBoost host m s) = World.level s
  /\ World.lastAdjust (updateVisibilityBoost host m s) = World.lastAdjust s.
Proof.
  unfold updateVisibilityBoost. destruct (Qeqb _ _); split; reflexivity.
Qed.

(** Only an animation frame can move the preset index or the cooldown. *)
Lemma handle_quality_other host e s :
  (forall win t, e <> Frame win t) ->
  World.level (handle host e s) = World.level s
  /\ World.lastAdjust (handle host e s) = World.lastAdjust s.
Proof.
  intro NF. destruct e as [win t | win | m | b]; cbn [handle].
  - exfalso. now apply (NF win t).
  - destruct (resize_frame host win true None s) as (A & B & _). now split.
  - apply updateVisibilityBoost_quality.
  - split; reflexivity.
Qed.

Lemma tick_level_in_range host win t s :
  level_in_range s -> level_in_range (tick host win t s).
Proof.
  intro R. destruct (tick_level_cases host win t s R) as (_ & _ & [C | C]).
  - destruct C as (_ & E & _). unfold level_in_range. rewrite E. exact R.
  - destruct C as (_ & _ & E). unfold level_in_range in *. rewrite E.
    destruct (Z.ltb_spec (World.level s) 2); destruct (Z.ltb_spec 0 (World.level s));
      destruct (Qltb 30 (smoothed s t)); destruct (Qltb (smoothed s t) 18);
      cbn [andb]; lia.
Qed.

Lemma handle_level_in_range host e s :
  level_in_range s -> level_in_range (handle host e s).
Proof.
  intro R. destruct e as [win t | win | m | b].
  - apply tick_level_in_range, R.
  - unfold level_in_range.
    rewrite (proj1 (handle_quality_other host (Resized win) s ltac:(discriminate))).
    exact R.
  - unfold level_in_range.
    rewrite (proj1 (handle_quality_other host (MediaChanged m) s ltac:(discriminate))).
    exact R.
  - exact R.
Qed.

Lemma run_level_in_range host es s :
  level_in_range s -> level_in_range (run host es s).
Proof.
  revert s; induction es as [| e es IH]; intros s R; [exact R |].
  cbn [run fold_left]. apply IH, handle_level_in_range, R.
Qed.

(** Every later change of preset comes at least 1200ms after the cooldown
    stamp of the world the run starts from. *)
Lemma changeTimes_spaced host es s :
  level_in_range s ->
  StronglySorted (fun a b => a + 1200 <= b) (changeTimes host es s)
  /\ Forall (fun c => World.lastAdjust s + 1200 <= c) (changeTimes host es s).
Proof.
  revert s; induction es as [| e es IH]; intros s R.
  - split; constructor.
  - cbn [changeTimes].
    pose proof (handle_level_in_range host e s R) as R'.
    destruct (IH (handle host e s) R') as [Sorted After].
    destruct e as [win t | win | m | b].
    + cbn [handle] in *.
      destruct (tick_level_cases host win t s R) as (_ & _ & [C | C]).
      * destruct C as (_ & El & Ea). rewrite El, Z.eqb_refl.
        rewrite Ea in After. split; assumption.
      * destruct C as (Elig & Ea & _). rewrite Ea in After.
        assert (After' : Forall (fun c => World.lastAdjust s + 1200 <= c)
                           (changeTimes host es (tick host win t s))).
        { eapply Forall_impl; [| exact After]. cbn. intros c Hc. lra. }
        destruct (_ =? _)%Z.
        -- split; assumption.
        -- split.
           ++ constructor; assumption.
           ++ constructor; [lra | exact After'].
    + destruct (handle_quality_other host (Resized win) s ltac:(discriminate)) as [_ Ea].
      rewrite Ea in After. split; assumption.
    + destruct (handle_quality_other host (MediaChanged m) s ltac:(discriminate)) as [_ Ea].
      rewrite Ea in After. split; assumption.
    + split; assumption.
Qed.

Lemma presets_ordered i :
  (0 <= i < 2)%Z -> lower_quality (preset (i + 1)) (preset i).
Proof.
  intro H. assert (C : i = 0%Z \/ i = 1%Z) by lia.
  destruct C as [-> | ->]; vm_compute; repeat split.
Qed.

(** C1.  Along every sequence of events, two changes of the quality preset
    are at least 1200ms apart, and only animation frames change it.  A frame
    changes the index by one notch or not at all, and only once the cooldown
    has elapsed; then, when the smoothed frame cost exceeds 30ms the index
    moves one notch towards lower quality unless it is at the lowest preset,
    and when it is below 18ms one notch towards higher quality unless it is
    at the highest. *)
Theorem quality_rate_limited_stepwise (host : Host) (s : World.t) :
  level_in_range s ->
  (forall es, StronglySorted (fun a b => a + 1200 <= b) (changeTimes host es s))
  /\ (forall es, level_in_range (run host es s))
  /\ (forall e, (forall win t, e <> Frame win t) ->
        World.level (handle host e s) = World.level s)
  /\ (forall win t,
        let l := World.level s in
        let l' := World.level (tick host win t s) in
        let avg := smoothed s t in
        World.avgMs (tick host win t s) = avg
        /\ (l' = l \/ l' = (l + 1)%Z \/ l' = (l - 1)%Z)
        /\ (l' <> l -> 1200 <= t - World.lastAdjust s)
        /\ (l' = (l + 1)%Z -> 30 < avg /\ lower_quality (preset l') (preset l))
        /\ (l' = (l - 1)%Z -> avg < 18 /\ lower_quality (preset l) (preset l'))
        /\ (1200 <= t - World.lastAdjust s -> 30 < avg ->
            l' = if (l <? 2)%Z then (l + 1)%Z else l)
        /\ (1200 <= t - World.lastAdjust s -> avg < 18 ->
            l' = if (0 <? l)%Z then (l - 1)%Z else l)).
Proof.
  intro R. split; [| split; [| split]].
  - intro es. apply changeTimes_spaced, R.
  - intro es. apply run_level_in_range, R.
  - intros e NF. apply handle_quality_other, NF.
  - intros win t l l' avg.
    destruct (tick_level_cases host win t s R) as (Ea & _ & C).
    fold l' avg in C, Ea. fold l in C.
    split; [exact Ea |].
    unfold level_in_range in R. fold l in R.
    destruct C as [(Early & El & _) | (Elig & _ & El)].
    + rewrite El. repeat split; intros; try lia; try lra.
    + revert El.
      destruct (Qltb_spec 30 avg) as [Hi | Hi];
        destruct (Qltb_spec avg 18) as [Lo | Lo]; try lra;
        destruct (Z.ltb_spec l 2); destruct (Z.ltb_spec 0 l);
        cbn [andb]; intro El; rewrite El;
        repeat split; intros; try lia; try lra;
        try (apply presets_ordered; lia);
        try (replace l with (l - 1 + 1)%Z at 1 by lia; apply presets_ordered; lia);
        auto.
Qed.

Lemma quality_rate_limited_stepwise_witness :
  level_in_range world_reduced
  /\ forall es,
       StronglySorted (fun a b => a + 1200 <= b) (changeTimes host0 es world_reduced).
Proof.
  assert (R : level_in_range world_reduced) by (unfold level_in_range; cbn; lia).
  split; [exact R |].
  apply (quality_rate_limited_stepwise host0 world_reduced R).
Defined.

(** A run in which the preset does change: a slow frame at 1300ms steps it
    down, the frame at 1400ms falls inside the cooldown, the one at 2600ms
    steps again. *)
Example changeTimes_example :
  changeTimes host0 [Frame win0 1300; Frame win0 1400; Frame win0 2600] world_reduced
  = [1300; 2600]
  /\ World.level (run host0 [Frame win0 1300; Frame win0 1400; Frame win0 2600]
                      world_reduced) = 2%Z.
Proof. vm_compute. split; reflexivity. Qed.

(** ** Incremental resize *)

Lemma Forall2_compose {A} (R S : A -> A -> Prop) l1 l2 l3 :
  Forall2 R l1 l2 -> Forall2 S l2 l3 ->
  Forall2 (fun a c => exists b, R a b /\ S b c) l1 l3.
Proof.
  intro H; revert l3; induction H as [| a b l1 l2 Hab _ IH]; intros l3 H3.
  - inversion H3; constructor.
  - inversion H3 as [| b' c l2' l3' Hbc Hrest]; subst.
    constructor; [exists b; split; assumption | apply IH, Hrest].
Qed.

Lemma Forall2_diag {A} (R : A -> A -> Prop) l :
  (forall a, R a a) -> Forall2 R l l.
Proof. intro H; induction l; constructor; auto. Qed.

Lemma Forall2_map_r {A} (R : A -> A -> Prop) (f : A -> A) l :
  (forall a, R a (f a)) -> Forall2 R l (map f l).
Proof. intro H; induction l; cbn; constructor; auto. Qed.









(** A quality change that keeps the count still renders every sprite again:
    here the twelve petals had none and all get one. *)
Example quality_change_rerenders_sprites :
  let s' := applyQualityLevel host0 win_narrow 1 world_narrow in
  length (World.petals s') = length (World.petals world_narrow)
  /\ forallb (fun p => match Petal.sprite p with Some _ => true | None => false end)
             (World.petals s') = true
  /\ Petal.sprite petal_far = None.
Proof. vm_compute. repeat split. Qed.

(** ** What holds in every world the script reaches *)

Lemma clamp_range v lo hi : lo <= hi -> lo <= clamp v lo hi /\ clamp v lo hi <= hi.
Proof. intro H. split; [apply clamp_lower | apply clamp_upper, H]. Qed.

Lemma getPetalAlpha_range s seed :
  0.42 <= getPetalAlpha s seed /\ getPetalAlpha s seed <= 0.95.
Proof. unfold getPetalAlpha. apply clamp_range. lra. Qed.

Lemma petal_ok_kept p p' :
  kept_but_x_sprite p p' -> petal_ok p -> petal_ok p'.
Proof.
  unfold kept_but_x_sprite, petal_ok. intros K H.
  repeat match goal with H : _ /\ _ |- _ => destruct H end.
  repeat match goal with E : _ p' = _ p |- _ => rewrite E; clear E end.
  repeat split; assumption.
Qed.

Lemma makePetal_ok host s b n :
  random_ok host -> petal_ok (fst (makePetal host s b n)).
Proof.
  intro R.
  destruct b; cbv beta iota zeta delta [makePetal bind rand random ret];
  match goal with |- context [drawVeinCount host ?k] =>
    destruct (drawVeinCount host k) as [vc k'] end;
  cbn [fst];
  (match goal with |- petal_ok (renderPetalSprite host s ?p) =>
     apply (petal_ok_kept p); [apply renderPetalSprite_kept |] end);
  unfold petal_ok; cbn [Petal.size Petal.alpha];
  (split; [| apply getPetalAlpha_range]);
  destruct (R n) as [A0 A1]; destruct (R (S n)) as [B0 B1];
  unfold config.minSize, config.maxSize;
  set (u := Math_random host n) in *; set (v := Math_random host (S n)) in *;
  assert (0 <= u * v) by (apply Qmult_le_0_compat; lra);
  assert (0 <= (1 - u) * v) by (apply Qmult_le_0_compat; lra);
  assert (0 <= u * (1 - v)) by (apply Qmult_le_0_compat; lra);
  split; lra.
Qed.

Lemma makePetalsN_ok host s b count n :
  random_ok host -> Forall petal_ok (fst (makePetalsN host s count b n)).
Proof.
  intro R. revert n; induction count as [| k IH]; intro n; [constructor |].
  cbn [makePetalsN]. unfold bind at 1.
  pose proof (makePetal_ok host s b n R) as P.
  destruct (makePetal host s b n) as [p n1].
  unfold bind at 1. specialize (IH n1).
  destruct (makePetalsN host s k b n1) as [rest n2].
  cbn in *. constructor; assumption.
Qed.

Lemma Forall_map_kept (f : Petal.t -> Petal.t) ps :
  (forall p, kept_but_x_sprite p (f p)) ->
  Forall petal_ok ps -> Forall petal_ok (map f ps).
Proof.
  intros K H. induction H as [| p l Hp _ IH]; cbn; constructor.
  - eapply petal_ok_kept; [apply K | exact Hp].
  - exact IH.
Qed.

Lemma reconcile_ok host s target n :
  random_ok host -> Forall petal_ok (World.petals s) ->
  Forall petal_ok (fst (reconcile host s target n)).
Proof.
  intros R H. unfold reconcile.
  destruct (_ <? target)%Z.
  - unfold bind, makePetals.
    pose proof (makePetalsN_ok host s false
                  (Z.to_nat (target - Z.of_nat (length (World.petals s)))) n R) as A.
    destruct (makePetalsN host s _ false n) as [added n'].
    cbn in *. apply Forall_app. split; assumption.
  - destruct (target <? _)%Z; cbn; [| exact H].
    rewrite <- (firstn_skipn (Z.to_nat target) (World.petals s)) in H.
    apply Forall_app in H. apply H.
Qed.

Lemma rescaleX_ok prevW w ps :
  Forall petal_ok ps -> Forall petal_ok (rescaleX prevW w ps).
Proof.
  intro H. unfold rescaleX. destruct (_ && _); [| exact H].
  apply Forall_map_kept; [| exact H]. intro p. apply kept_set_x.
Qed.

Lemma pullBack_ok host w ps n :
  Forall petal_ok ps -> Forall petal_ok (fst (pullBack host w ps n)).
Proof.
  intro H. revert n; induction H as [| p rest Hp _ IH]; intro n; [constructor |].
  cbn [pullBack]. unfold bind at 1.
  destruct (_ || _).
  - unfold bind at 1. rewrite rand_value. unfold bind at 1, ret at 1.
    specialize (IH (S n)). destruct (pullBack host w rest (S n)) as [rest' n'].
    cbn [fst ret] in *. constructor; [| exact IH].
    eapply petal_ok_kept; [apply kept_set_x | exact Hp].
  - unfold bind at 1, ret at 1.
    specialize (IH n). destruct (pullBack host w rest n) as [rest' n'].
    cbn [fst ret] in *. constructor; assumption.
Qed.

Lemma rerender_ok host s prev ps :
  Forall petal_ok ps -> Forall petal_ok (rerender host s prev ps).
Proof.
  intro H. unfold rerender. destruct prev as [pb |]; [| exact H].
  destruct (negb _); [| exact H].
  apply Forall_map_kept; [| exact H]. intro p. apply renderPetalSprite_kept.
Qed.

Lemma resize_petals_ok host win preserve prev s :
  random_ok host -> Forall petal_ok (World.petals s) ->
  Forall petal_ok (World.petals (resize host win preserve prev s)).
Proof.
  intros R H. unfold resize; cbv zeta.
  set (w' := inject_Z (Z.max 1 (Math_floor (innerWidth win)))).
  set (h' := inject_Z (Z.max 1 (Math_floor (innerHeight win)))).
  set (s1 := World.set_viewport _ w' h' s).
  destruct (negb _).
  - unfold makePetals.
    pose proof (makePetalsN_ok host s1 true
                  (Z.to_nat (targetCount w' h' (getQualitySettings s)))
                  (World.randomCalls s1) R) as A.
    destruct (makePetalsN host s1 _ true (World.randomCalls s1)) as [ps n].
    exact A.
  - unfold bind.
    pose proof (reconcile_ok host s1 (targetCount w' h' (getQualitySettings s))
                  (World.randomCalls s1) R H) as A.
    destruct (reconcile host s1 _ (World.randomCalls s1)) as [ps0 n0].
    pose proof (pullBack_ok host w' (rescaleX (World.w s) w' ps0) n0
                  (rescaleX_ok _ _ _ A)) as B.
    destruct (pullBack host w' (rescaleX (World.w s) w' ps0) n0) as [ps n].
    cbn in *. apply rerender_ok, B.
Qed.

Lemma viewport_ge_1 v : 1 <= inject_Z (Z.max 1 (Math_floor v)).
Proof. change 1 with (inject_Z 1) at 1. rewrite <- Zle_Qle. lia. Qed.

(** [resize] installs a viewport of at least 1 x 1 and keeps the rest. *)
Lemma resize_ok host win preserve prev s :
  random_ok host ->
  level_in_range s -> World.enabled s = true -> Forall petal_ok (World.petals s) ->
  world_ok (resize host win preserve prev s).
Proof.
  intros R L E H.
  destruct (resize_frame host win preserve prev s) as (A & _ & _ & _ & B & _).
  destruct (resize_viewport host win preserve prev s) as (W & Hh).
  unfold world_ok, level_in_range. rewrite A, B, W, Hh.
  repeat split; try apply L; try exact E; try apply viewport_ge_1.
  apply resize_petals_ok; assumption.
Qed.

Lemma applyQualityLevel_ok host win next s :
  random_ok host -> world_ok s -> world_ok (applyQualityLevel host win next s).
Proof.
  intros R (L & E & W & H & P). unfold applyQualityLevel.
  change (Z.of_nat (length quality.levels) - 1)%Z with 2%Z.
  destruct (_ =? _)%Z; [repeat split; assumption || apply L |].
  cbv zeta. apply resize_ok; try assumption.
  unfold level_in_range, clampZ; cbn [World.level World.set_level]. lia.
Qed.

Lemma maybeAdjustQuality_ok host win now s :
  random_ok host -> world_ok s -> world_ok (maybeAdjustQuality host win now s).
Proof.
  intros R H. unfold maybeAdjustQuality.
  destruct (Qltb _ 1200); [exact H |]. cbv zeta.
  assert (H' : world_ok (World.set_lastAdjust now s)) by exact H.
  destruct (_ && _); [apply applyQualityLevel_ok; assumption |].
  destruct (_ && _); [apply applyQualityLevel_ok; assumption | exact H'].
Qed.

Lemma stepPetal_ok host w h dt ms wind p n :
  petal_ok p -> petal_ok (fst (stepPetal host w h dt ms wind p n)).
Proof.
  intro H. unfold stepPetal.
  destruct (respawn_cases host w h (physics dt ms wind p) n) as [[_ E] | [_ E]];
    rewrite E; exact H.
Qed.

Lemma stepPetal_in_play host w h dt ms wind p n :
  random_ok host -> 0 <= w -> 0 <= h -> 0 <= Petal.size p ->
  in_play w h (fst (stepPetal host w h dt ms wind p n)).
Proof.
  intros R Hw Hh Hs. unfold stepPetal, in_play.
  set (q := physics dt ms wind p).
  assert (Sq : 0 <= Petal.size q) by exact Hs.
  destruct (respawn_cases host w h q n) as [[Off E] | [Off E]]; rewrite E; cbn [fst].
  - apply offScreen_false in Off. lra.
  - pose proof (rand_le host (- h * 0.25) (- Petal.size q * 1.5) 0 n R) as Hy.
    pose proof (rand_le host (- w * 0.25) (w * 0.35) (w * 0.35) (S n) R) as Hx.
    cbn [Petal.y Petal.x Petal.size Petal.set_x Petal.set_y].
    change (Petal.size (physics dt ms wind p)) with (Petal.size q).
    split; [assert (fst (rand host (- h * 0.25) (- Petal.size q * 1.5) n) <= 0)
              by (apply Hy; lra)
           | assert (fst (rand host (- w * 0.25) (w * 0.35) (S n)) <= w * 0.35)
              by (apply Hx; lra)]; lra.
Qed.

Lemma petal_ok_size p : petal_ok p -> 0 <= Petal.size p.
Proof. unfold petal_ok, config.minSize. intros [[A _] _]. lra. Qed.

Lemma tickPetals_cons host w h dt ms vb wind p rest n :
  tickPetals host w h dt ms vb wind (p :: rest) n
  = let '(p', n1) := stepPetal host w h dt ms wind p n in
    let '(r, n2) := tickPetals host w h dt ms vb wind rest n1 in
    ((p' :: fst r, drawPetal host ms vb p' ++ snd r), n2).
Proof. reflexivity. Qed.

Lemma tickPetals_spec host w h dt ms vb wind ps n :
  random_ok host -> 0 <= w -> 0 <= h -> Forall petal_ok ps ->
  let r := fst (tickPetals host w h dt ms vb wind ps n) in
  Forall petal_ok (fst r) /\ Forall (in_play w h) (fst r)
  /\ length (fst r) = length ps.
Proof.
  intros R Hw Hh H. cbv zeta.
  revert n; induction H as [| p rest Hp _ IH]; intro n.
  - cbn. repeat split; constructor.
  - rewrite tickPetals_cons.
    pose proof (stepPetal_ok host w h dt ms wind p n Hp) as A.
    pose proof (stepPetal_in_play host w h dt ms wind p n R Hw Hh
                  (petal_ok_size p Hp)) as B.
    destruct (stepPetal host w h dt ms wind p n) as [p' n1].
    specialize (IH n1).
    destruct (tickPetals host w h dt ms vb wind rest n1) as [r n2].
    cbn [fst snd] in *. destruct IH as (I1 & I2 & I3).
    repeat split; [constructor; assumption | constructor; assumption |].
    cbn [length]. now rewrite I3.
Qed.

(** After an animation frame the field is still well formed and every petal
    is inside the play area of the current viewport. *)
Lemma tick_ok host win t s :
  random_ok host -> world_ok s ->
  let s' := tick host win t s in
  world_ok s' /\ Forall (in_play (World.w s') (World.h s')) (World.petals s').
Proof.
  intros R H. unfold tick; cbv zeta.
  set (pre := World.set_timing t _ s).
  assert (Hpre : world_ok pre) by exact H.
  pose proof (maybeAdjustQuality_ok host win t pre R Hpre) as Hadj.
  set (adj := maybeAdjustQuality host win t pre) in *.
  destruct Hadj as (L & E & W & Hh & P).
  cbn [World.enabled World.call]. rewrite E. cbn [negb].
  cbn [World.w World.h World.petals World.randomCalls World.call].
  pose proof (tickPetals_spec host (World.w adj) (World.h adj)
                (stepOf (t - World.lastT s))
                (motionScaleOf (World.reducedMotion adj))
                (clamp (World.visibilityBoost adj) 0 1) (windAt host t)
                (World.petals adj) (World.randomCalls adj) R
                ltac:(lra) ltac:(lra) P) as T.
  cbn [World.reducedMotion World.visibilityBoost World.call] in *.
  destruct (tickPetals _ _ _ _ _ _ _ _ _) as [r n].
  cbn [fst] in T. destruct T as (T1 & T2 & _).
  cbn. split; [| exact T2].
  unfold world_ok, level_in_range. cbn. repeat split; try assumption; apply L.
Qed.

Lemma refreshPetal_ok host s p : petal_ok p -> petal_ok (refreshPetal host s p).
Proof.
  intros [Hs _]. unfold refreshPetal.
  match goal with |- petal_ok (renderPetalSprite host s ?q) =>
    apply (petal_ok_kept q); [apply renderPetalSprite_kept |] end.
  split; [exact Hs | apply getPetalAlpha_range].
Qed.

Lemma updateVisibilityBoost_ok host m s :
  world_ok s -> world_ok (updateVisibilityBoost host m s).
Proof.
  intros (L & E & W & H & P). unfold updateVisibilityBoost.
  destruct (Qeqb _ _); [repeat split; assumption || apply L |].
  unfold world_ok, level_in_range. cbn. repeat split; try assumption; try apply L.
  induction P as [| p l Hp _ IH]; cbn; constructor;
    [apply refreshPetal_ok, Hp | exact IH].
Qed.

Lemma handle_ok host e s :
  random_ok host -> world_ok s -> world_ok (handle host e s).
Proof.
  intros R H. destruct e as [win t | win | m | b]; cbn [handle].
  - apply tick_ok; assumption.
  - destruct H as (L & E & _ & _ & P). apply resize_ok; assumption.
  - apply updateVisibilityBoost_ok, H.
  - exact H.
Qed.

Lemma run_ok host es s :
  random_ok host -> world_ok s -> world_ok (run host es s).
Proof.
  intro R. revert s; induction es as [| e es IH]; intros s H; [exact H |].
  cbn [run fold_left]. apply IH, handle_ok; assumption.
Qed.

Lemma boot_ok host win m now0 now1 rm :
  random_ok host -> world_ok (boot host win m now0 now1 rm).
Proof.
  intro R. unfold boot; cbv zeta.
  set (s0 := updateVisibilityBoost host m (initial now0 rm)).
  assert (A : level_in_range s0 /\ World.enabled s0 = true
              /\ Forall petal_ok (World.petals s0)).
  { unfold s0, updateVisibilityBoost.
    destruct (Qeqb _ _); cbn; (split; [unfold level_in_range; cbn; lia |]);
      split; try reflexivity; constructor. }
  destruct A as (L & E & P).
  pose proof (resize_ok host win false None s0 R L E P) as H.
  set (s1 := resize host win false None s0) in *.
  destruct H as (L1 & E1 & W1 & H1 & P1).
  unfold world_ok, level_in_range.
  cbn [World.set_timing World.level World.enabled World.w World.h World.petals].
  repeat split; try assumption; apply L1.
Qed.

(** X28.  From start-up on, whatever the events, the preset index stays inside
    [quality.levels], every petal keeps a size in [6.24, 32.2] and an alpha
    in [0.42, 0.95], and after each animation frame every petal satisfies the
    respawn bounds of the viewport. *)
Lemma reachable_frame_in_play host win m now0 now1 rm es win' t :
  random_ok host ->
  let s := run host es (boot host win m now0 now1 rm) in
  let s' := tick host win' t s in
  world_ok s
  /\ world_ok s'
  /\ Forall (in_play (World.w s') (World.h s')) (World.petals s').
Proof.
  intros R s s'.
  assert (H : world_ok s) by (apply run_ok, boot_ok; assumption).
  split; [exact H | apply tick_ok; assumption].
Qed.

(** * Further properties of the animation script *)

(** ** What [makePetals] produces *)

Lemma rand_in_range host lo hi n :
  random_ok host -> lo <= hi -> in_range lo hi (fst (rand host lo hi n)).
Proof.
  intros R H. split; [apply rand_ge | apply rand_le]; try assumption; lra.
Qed.

Lemma renderPetalSprite_only_sprite host s p :
  renderPetalSprite host s p
  = Petal.set_sprite (Petal.sprite (renderPetalSprite host s p))
                     (Petal.spriteSize (renderPetalSprite host s p)) p.
Proof.
  unfold renderPetalSprite; cbv zeta.
  destruct (negb (sprite2d host)); reflexivity.
Qed.

Ltac unfold_makePetal host s :=
  cbv beta iota zeta delta [makePetal bind rand random ret];
  match goal with |- context [drawVeinCount host ?k] =>
    let E := fresh "E" in
    pose proof (drawVeinCount_veinCountOf host k) as E;
    destruct (drawVeinCount host k) as [? ?]; cbn [fst] in E; subst
  end;
  cbn [fst snd];
  match goal with |- context [renderPetalSprite host s ?p] =>
    rewrite (renderPetalSprite_only_sprite host s p);
    generalize (Petal.sprite (renderPetalSprite host s p));
    generalize (Petal.spriteSize (renderPetalSprite host s p));
    intros ? ?
  end;
  cbn [Petal.set_sprite Petal.x Petal.y Petal.vx Petal.vy Petal.size Petal.rot
       Petal.rotSpeed Petal.swayPhase Petal.swayAmp Petal.swaySpeed
       Petal.flutterPhase Petal.flutterSpeed Petal.flutterAmp Petal.baseA
       Petal.baseB Petal.colorA Petal.colorB Petal.alphaSeed Petal.alpha
       Petal.shape Petal.sprite Petal.spriteSize
       PetalShape.wScale PetalShape.hScale PetalShape.asym PetalShape.notch
       PetalShape.tip PetalShape.lobe PetalShape.curl PetalShape.vein
       PetalShape.gradX PetalShape.gradY PetalShape.edge PetalShape.detail
       PetalShape.veinCount].

Ltac range_of R i :=
  let A := fresh "A" in let B := fresh "B" in
  destruct (R i) as [A B].

Lemma makePetal_look host s b n :
  random_ok host -> made_look s (fst (makePetal host s b n)).
Proof.
  intro R. unfold made_look.
  destruct b; unfold_makePetal host s;
    unfold in_range;
    repeat match goal with
           | |- context [Math_random host ?i] =>
               let u := fresh "u" in
               destruct (R i) as [? ?]; set (u := Math_random host i) in *;
               clearbody u
           end;
    repeat split; try lra;
    try (unfold veinCountOf; cmp_cases; lia);
    try (cmp_cases; cbn; tauto).
Qed.

Lemma makePetal_motion host s b n :
  random_ok host -> 0 <= World.w s -> 0 <= World.h s ->
  made_motion (World.w s) (World.h s) b (fst (makePetal host s b n)).
Proof.
  intros R Hw Hh. unfold made_motion.
  destruct b; unfold_makePetal host s;
    unfold in_range, config.minSize, config.maxSize, config.fallSpeed, Math_PI;
    repeat match goal with
           | |- context [Math_random host ?i] =>
               let u := fresh "u" in
               destruct (R i) as [? ?]; set (u := Math_random host i) in *;
               clearbody u
           end;
    match goal with
    | |- context [(8 + ?a * (28 - 8)) * (0.78 + ?b * (1.15 - 0.78))] =>
        assert (0 <= a * b) by (apply Qmult_le_0_compat; lra);
        assert (0 <= (1 - a) * b) by (apply Qmult_le_0_compat; lra);
        assert (0 <= a * (1 - b)) by (apply Qmult_le_0_compat; lra);
        assert (Hsz : in_range (8 * 0.78) (28 * 1.15)
                        ((8 + a * (28 - 8)) * (0.78 + b * (1.15 - 0.78))))
          by (unfold in_range; split; lra);
        set (sz := (8 + a * (28 - 8)) * (0.78 + b * (1.15 - 0.78))) in *;
        clearbody sz
    end;
    unfold in_range in Hsz; unfold Qdiv; change (/ 24) with (1 # 24);
    set (k := sz * (1 # 24)); assert (Hk : 0 <= k) by (unfold k; lra);
    repeat match goal with
           | |- context [?c + ?u * _] =>
               is_var u;
               lazymatch goal with
               | _ : 0 <= u * k |- _ => fail
               | _ => assert (0 <= u * k) by (apply Qmult_le_0_compat; lra);
                      assert (0 <= (1 - u) * k) by (apply Qmult_le_0_compat; lra)
               end
           end;
    repeat match goal with
           | |- _ /\ _ => split
           end;
    try lra;
    set (w := World.w s) in *; set (h := World.h s) in *;
    repeat match goal with
           | |- context [?c + ?u * _] =>
               is_var u;
               lazymatch goal with
               | _ : 0 <= u * w |- _ => fail
               | _ => assert (0 <= u * w) by (apply Qmult_le_0_compat; lra);
                      assert (0 <= (1 - u) * w) by (apply Qmult_le_0_compat; lra);
                      assert (0 <= u * h) by (apply Qmult_le_0_compat; lra);
                      assert (0 <= (1 - u) * h) by (apply Qmult_le_0_compat; lra)
               end
           end;
    try lra.
  destruct (Qlt_le_dec h sz) as [C | C].
  - right.
    assert (0 <= u2 * (sz - h)) by (apply Qmult_le_0_compat; lra).
    assert (0 <= (1 - u2) * (sz - h)) by (apply Qmult_le_0_compat; lra).
    split; lra.
  - left.
    assert (0 <= u2 * (h - sz)) by (apply Qmult_le_0_compat; lra).
    assert (0 <= (1 - u2) * (h - sz)) by (apply Qmult_le_0_compat; lra).
    split; lra.
Qed.

Lemma drawVeinCount_draws host k :
  snd (drawVeinCount host k)
  = if Qltb (Math_random host k) 0.45 then S k else S (S k).
Proof.
  unfold drawVeinCount, bind, random, ret.
  destruct (Qltb (Math_random host k) 0.45); [reflexivity |].
  destruct (Qltb (Math_random host (S k)) 0.7); reflexivity.
Qed.

(** One petal costs 29 draws, or 30 when the first vein test fails. *)
Lemma makePetal_draws host s b n :
  snd (makePetal host s b n)
  = (if Qltb (Math_random host (26 + n)) 0.45 then 29 + n else 30 + n)%nat.
Proof.
  destruct b; cbv beta iota zeta delta [makePetal bind rand random ret];
    match goal with |- context [drawVeinCount host ?k] =>
      pose proof (drawVeinCount_draws host k) as E;
      destruct (drawVeinCount host k) as [vc k'] end;
    cbn [snd] in *; subst k'; cbn [Nat.add];
    destruct (Qltb _ 0.45); reflexivity.
Qed.

Lemma makePetalsN_spec host s b count n :
  random_ok host -> 0 <= World.w s -> 0 <= World.h s ->
  Forall (made_motion (World.w s) (World.h s) b) (fst (makePetalsN host s count b n))
  /\ Forall (made_look s) (fst (makePetalsN host s count b n))
  /\ (n + 29 * count <= snd (makePetalsN host s count b n) <= n + 30 * count)%nat.
Proof.
  intros R Hw Hh. revert n; induction count as [| k IH]; intro n.
  - cbn. repeat split; try constructor; lia.
  - cbn [makePetalsN]. unfold bind at 1 3 5 7.
    pose proof (makePetal_motion host s b n R Hw Hh) as M.
    pose proof (makePetal_look host s b n R) as L.
    pose proof (makePetal_draws host s b n) as D.
    destruct (makePetal host s b n) as [p n1].
    unfold bind. specialize (IH n1).
    destruct (makePetalsN host s k b n1) as [rest n2].
    cbn [fst snd ret] in *. destruct IH as (I1 & I2 & I3).
    repeat split; try (constructor; assumption);
      destruct (Qltb _ 0.45); lia.
Qed.

(** X1.  [makePetals(count, scatterEverywhere)] returns [count] petals and
    none for a count of zero or less.  Each has a size in [6.24, 32.2], falls
    ([vy] between 18 and 52 times [size / 24]) and drifts right ([vx]
    between 0.24 and 0.88 times [size / 24]), and starts either anywhere
    around the viewport (scattered) or in the entry band above its top-left
    corner.  It costs 29 or 30 calls of [Math.random()] per petal. *)
Theorem makePetals_start (host : Host) (s : World.t) (count : Z)
    (scatterEverywhere : bool) (n : nat) :
  random_ok host -> 0 <= World.w s -> 0 <= World.h s ->
  let ps := fst (makePetals host s count scatterEverywhere n) in
  let n' := snd (makePetals host s count scatterEverywhere n) in
  length ps = Z.to_nat count
  /\ Forall (made_motion (World.w s) (World.h s) scatterEverywhere) ps
  /\ (n + 29 * length ps <= n' <= n + 30 * length ps)%nat
  /\ ((count <= 0)%Z -> ps = [] /\ n' = n).
Proof.
  intros R Hw Hh ps n'. subst ps n'. unfold makePetals.
  destruct (makePetalsN_spec host s scatterEverywhere (Z.to_nat count) n R Hw Hh)
    as (M & _ & D).
  rewrite makePetalsN_length.
  split; [reflexivity | split; [exact M | split; [exact D |]]].
  intro C. replace (Z.to_nat count) with 0%nat by lia. split; reflexivity.
Qed.

Lemma makePetals_start_witness :
  length (fst (makePetals host0 world_reduced 3 false 0%nat)) = 3%nat
  /\ Forall (made_motion 1100 700 false)
            (fst (makePetals host0 world_reduced 3 false 0%nat)).
Proof.
  destruct (makePetals_start host0 world_reduced 3 false 0%nat random_ok_host0)
    as (L & M & _); [cbn; lra | cbn; lra |].
  split; [exact L | exact M].
Defined.

(** X2.  Every petal made by [makePetals] has its twelve shape parameters
    inside the ranges they are drawn from, a vein count of 1, 2 or 3, base
    colours taken from the palette, an alpha seed in [0, 1], and the alpha
    and display colours that [getPetalAlpha] and [getPetalColors] derive from
    them under the stored visibility boost. *)
Theorem makePetals_look (host : Host) (s : World.t) (count : Z)
    (scatterEverywhere : bool) (n : nat) :
  random_ok host ->
  Forall (made_look s) (fst (makePetals host s count scatterEverywhere n)).
Proof.
  intro R. unfold makePetals.
  assert (G : forall k m, Forall (made_look s)
                            (fst (makePetalsN host s k scatterEverywhere m))).
  { induction k as [| k IH]; intro m; [constructor |].
    cbn [makePetalsN]. unfold bind at 1.
    pose proof (makePetal_look host s scatterEverywhere m R) as L.
    destruct (makePetal host s scatterEverywhere m) as [p n1].
    unfold bind. specialize (IH n1).
    destruct (makePetalsN host s k scatterEverywhere n1) as [rest n2].
    cbn [fst ret] in *. constructor; assumption. }
  apply G.
Qed.

Lemma makePetals_look_witness :
  Forall (made_look world_reduced) (fst (makePetals host0 world_reduced 3 true 0%nat)).
Proof. apply (makePetals_look host0 world_reduced 3 true 0%nat random_ok_host0). Defined.

(** ** The target count *)

Lemma Math_round_mono a b : a <= b -> (Math_round a <= Math_round b)%Z.
Proof. intro H. unfold Math_round. apply Qfloor_resp_le. lra. Qed.

Lemma clampZ_mono v v' lo hi hi' :
  (v <= v')%Z -> (hi <= hi')%Z -> (clampZ v lo hi <= clampZ v' lo hi')%Z.
Proof. unfold clampZ. lia. Qed.

Lemma preset_cases i :
  (0 <= i <= 2)%Z ->
  preset i = QualityLevel.mk 2 1 config.blurPx
  \/ preset i = QualityLevel.mk 1.5 0.82 (Math_max 0.4 (config.blurPx * 0.8))
  \/ preset i = QualityLevel.mk 1.25 0.62 (Math_max 0.2 (config.blurPx * 0.6)).
Proof.
  intro H. assert (C : i = 0%Z \/ i = 1%Z \/ i = 2%Z) by lia.
  destruct C as [-> | [-> | ->]]; [left | right; left | right; right]; reflexivity.
Qed.

(** X3.  For every viewport and every preset the target count lies between
    12 and 90.  At a given preset a viewport of larger area never gets fewer
    petals, and for a given viewport a lower preset never gets more. *)
Theorem targetCount_bounds_monotone (w h w' h' : Q) (i j : Z) :
  (0 <= i <= j)%Z -> (j <= 2)%Z -> 0 <= w * h -> w * h <= w' * h' ->
  (12 <= targetCount w h (preset i) <= 90)%Z
  /\ (targetCount w h (preset i) <= targetCount w' h' (preset i))%Z
  /\ (targetCount w h (preset j) <= targetCount w h (preset i))%Z.
Proof.
  intros Hi Hj Ha Hle.
  assert (Scale : forall k, (0 <= k <= 2)%Z ->
            0 <= QualityLevel.countScale (preset k) <= 1).
  { intros k Hk. destruct (preset_cases k Hk) as [E | [E | E]]; rewrite E; cbn; lra. }
  assert (Order : QualityLevel.countScale (preset j)
                  <= QualityLevel.countScale (preset i)).
  { assert (C : i = 0%Z \/ i = 1%Z \/ i = 2%Z) by lia.
    assert (D : j = 0%Z \/ j = 1%Z \/ j = 2%Z) by lia.
    destruct C as [-> | [-> | ->]]; destruct D as [-> | [-> | ->]];
      try lia; vm_compute; discriminate. }
  pose proof (Scale i ltac:(lia)) as Si. pose proof (Scale j ltac:(lia)) as Sj.
  set (ci := QualityLevel.countScale (preset i)) in *.
  set (cj := QualityLevel.countScale (preset j)) in *.
  assert (Max : (Math_round (config.maxCount * ci) <= 90)%Z).
  { change 90%Z with (Math_round 90). apply Math_round_mono.
    unfold config.maxCount. lra. }
  unfold targetCount. fold ci cj. unfold Qdiv.
  change (/ (1100 * 700)) with (1 # 770000). unfold config.baseCount.
  split; [unfold clampZ; lia | split].
  - apply clampZ_mono; [| lia]. apply Math_round_mono.
    assert (0 <= (w' * h' - w * h) * ci) by (apply Qmult_le_0_compat; lra). lra.
  - apply clampZ_mono.
    + apply Math_round_mono.
      assert (0 <= (w * h) * (ci - cj)) by (apply Qmult_le_0_compat; lra). lra.
    + apply Z.max_le_compat_l. apply Math_round_mono. unfold config.maxCount. lra.
Qed.

Lemma targetCount_bounds_monotone_witness :
  (12 <= targetCount 1100 700 (preset 0) <= 90)%Z
  /\ (targetCount 1100 700 (preset 0) <= targetCount 1920 1080 (preset 0))%Z
  /\ (targetCount 1100 700 (preset 1) <= targetCount 1100 700 (preset 0))%Z.
Proof.
  apply (targetCount_bounds_monotone 1100 700 1920 1080 0 1);
    [lia | lia | vm_compute; discriminate | vm_compute; discriminate].
Defined.

(** ** The drawing surface after [resize] *)

Lemma resize_surface_fields host win preserve prev s :
  let s' := resize host win preserve prev s in
  World.dpr s'
  = clamp (if Qeqb (devicePixelRatio win) 0 then 1 else devicePixelRatio win)
          1 (QualityLevel.dprMax (preset (World.level s)))
  /\ World.canvasWidth s' = Math_floor (World.w s' * World.dpr s')
  /\ World.canvasHeight s' = Math_floor (World.h s' * World.dpr s')
  /\ World.styleWidth s' = World.w s'
  /\ World.styleHeight s' = World.h s'
  /\ World.ctx s'
     = World.ctx s ++ [setTransform (World.dpr s') 0 0 (World.dpr s') 0 0].
Proof.
  unfold resize; cbv zeta.
  repeat break_match; cbn; repeat split; reflexivity.
Qed.


(** X4.  After [resize] the logical size is the window's inner size rounded
    down, at least 1 x 1; the pixel ratio is the device's, forced into
    [1, dprMax] of the preset (so never above 2), with a missing or zero
    device ratio read as 1; the backing store is the logical size times that
    ratio, rounded down, so never smaller than the logical size; the CSS size
    is the logical size; and the one call made on the page canvas sets the
    transform to that ratio. *)
Theorem resize_surface (host : Host) (win : Window) (preserve : bool)
    (prev : option Q) (s : World.t) :
  level_in_range s ->
  let s' := resize host win preserve prev s in
  let cap := QualityLevel.dprMax (preset (World.level s)) in
  (World.w s' = inject_Z (Z.max 1 (Math_floor (innerWidth win)))
   /\ World.h s' = inject_Z (Z.max 1 (Math_floor (innerHeight win))))
  /\ (1 <= World.dpr s' /\ World.dpr s' <= cap /\ cap <= 2)
  /\ (1 <= devicePixelRatio win <= cap -> World.dpr s' == devicePixelRatio win)
  /\ (devicePixelRatio win == 0 -> World.dpr s' == 1)
  /\ (World.canvasWidth s' = Math_floor (World.w s' * World.dpr s')
      /\ World.canvasHeight s' = Math_floor (World.h s' * World.dpr s'))
  /\ (World.w s' <= inject_Z (World.canvasWidth s')
      /\ World.h s' <= inject_Z (World.canvasHeight s'))
  /\ (World.styleWidth s' = World.w s' /\ World.styleHeight s' = World.h s')
  /\ World.ctx s' = World.ctx s ++ [setTransform (World.dpr s') 0 0 (World.dpr s') 0 0].
Proof.
  intros L s' cap.
  destruct (resize_viewport host win preserve prev s) as (W & H).
  destruct (resize_surface_fields host win preserve prev s)
    as (D & CW & CH & SW & SH & C).
  fold s' in W, H, D, CW, CH, SW, SH, C. fold cap in D.
  assert (Cap : 1 <= cap /\ cap <= 2).
  { unfold cap. destruct (preset_cases (World.level s) L) as [E | [E | E]];
      rewrite E; cbn; lra. }
  assert (Dr : 1 <= World.dpr s' /\ World.dpr s' <= cap).
  { rewrite D. apply clamp_range. apply Cap. }
  assert (Big : forall z : Z, (1 <= z)%Z ->
            inject_Z z <= inject_Z (Math_floor (inject_Z z * World.dpr s'))).
  { intros z Hz. rewrite <- Zle_Qle. unfold Math_floor.
    rewrite <- (Qfloor_Z z) at 1. apply Qfloor_resp_le.
    assert (1 <= inject_Z z) by (change 1 with (inject_Z 1); rewrite <- Zle_Qle; lia).
    assert (0 <= inject_Z z * (World.dpr s' - 1))
      by (apply Qmult_le_0_compat; lra). lra. }
  split; [split; assumption |].
  split; [tauto |].
  split.
  { intro R. rewrite D. destruct (Qeqb_spec (devicePixelRatio win) 0) as [Z0 | Z0];
      [lra |]. apply clamp_inside. exact R. }
  split.
  { intro Z0. rewrite D. destruct (Qeqb_spec (devicePixelRatio win) 0) as [_ | N];
      [| contradiction]. apply clamp_inside. lra. }
  split; [split; assumption |].
  split.
  { rewrite CW, CH, W, H. split; apply Big; lia. }
  split; [split; assumption | exact C].
Qed.

Lemma resize_surface_witness :
  1 <= World.dpr (resize host0 win0 true None world_reduced)
  /\ World.dpr (resize host0 win0 true None world_reduced) <= 2.
Proof.
  destruct (resize_surface host0 win0 true None world_reduced) as (_ & D & _).
  - unfold level_in_range; cbn; lia.
  - cbv zeta in D. destruct D as (A & B & C). split; [exact A | lra].
Defined.

(** ** The sprite cache *)


Lemma freshSprite_reads host s s' p p' :
  World.level s' = World.level s ->
  World.visibilityBoost s' = World.visibilityBoost s ->
  Petal.size p' = Petal.size p ->
  Petal.colorA p' = Petal.colorA p -> Petal.colorB p' = Petal.colorB p ->
  Petal.shape p' = Petal.shape p ->
  freshSprite host s' p' = freshSprite host s p.
Proof.
  intros L B S CA CB SH.
  unfold freshSprite, renderPetalSprite, getSpriteDim, getBlurPx, getQualitySettings.
  cbv zeta. destruct (sprite2d host); cbn [negb]; [| reflexivity].
  cbn [Petal.sprite Petal.set_sprite Petal.size Petal.colorA Petal.colorB Petal.shape].
  rewrite L, B, S, CA, CB, SH. reflexivity.
Qed.

(** What [renderPetalSprite] leaves in the petal. *)
Lemma renderPetalSprite_cases host s p :
  let dim := getSpriteDim p (getBlurPx s) in
  let reused :=
    match Petal.sprite p with
    | Some old =>
        if (Sprite.width old =? dim)%Z && (Sprite.height old =? dim)%Z
        then Sprite.calls old else []
    | None => []
    end in
  (sprite2d host = false
   /\ Petal.sprite (renderPetalSprite host s p) = None
   /\ Petal.spriteSize (renderPetalSprite host s p) = 0%Z
   /\ freshSprite host s p = None)
  \/ (sprite2d host = true
      /\ Petal.sprite (renderPetalSprite host s p)
         = Some (Sprite.mk dim dim (reused ++ renderCalls s p))
      /\ Petal.spriteSize (renderPetalSprite host s p) = dim
      /\ freshSprite host s p = Some (Sprite.mk dim dim (renderCalls s p))).
Proof.
  cbv zeta. unfold freshSprite, renderPetalSprite, renderCalls; cbv zeta.
  cbn [Petal.sprite Petal.set_sprite Petal.size Petal.colorA Petal.colorB Petal.shape].
  change (getSpriteDim (Petal.set_sprite None 0 p) (getBlurPx s))
    with (getSpriteDim p (getBlurPx s)).
  set (dim := getSpriteDim p (getBlurPx s)).
  destruct (sprite2d host); cbn [negb]; [right | left; repeat split].
  split; [reflexivity |].
  cbn [Petal.sprite Petal.spriteSize Petal.set_sprite createSpriteCanvas
       Sprite.width Sprite.height Sprite.calls].
  split; [| split; reflexivity].
  destruct (Petal.sprite p) as [old |]; [| reflexivity].
  destruct (Z.eqb_spec (Sprite.width old) dim) as [Ew | Ew];
    destruct (Z.eqb_spec (Sprite.height old) dim) as [Eh | Eh];
    cbn [negb orb andb createSpriteCanvas Sprite.width Sprite.height Sprite.calls];
    try reflexivity.
  rewrite Ew, Eh. reflexivity.
Qed.

Lemma renderPetalSprite_current host s p :
  sprite_current host s (renderPetalSprite host s p).
Proof.
  unfold sprite_current.
  assert (F : freshSprite host s (renderPetalSprite host s p) = freshSprite host s p).
  { destruct (renderPetalSprite_kept host s p) as [K _].
    unfold kept_but_x_sprite in K.
    repeat match goal with H : _ /\ _ |- _ => destruct H end.
    apply freshSprite_reads; try reflexivity; assumption. }
  rewrite F.
  destruct (renderPetalSprite_cases host s p) as [(_ & A & B & C) | (_ & A & B & C)];
    rewrite A, C.
  - exact B.
  - cbn [Sprite.width Sprite.height Sprite.calls]. repeat split; try assumption.
    eexists. reflexivity.
Qed.

(** ** Up-to-date visuals *)

Lemma visuals_current_same host s s' p p' :
  World.level s' = World.level s ->
  World.visibilityBoost s' = World.visibilityBoost s ->
  same_visuals p p' ->
  visuals_current host s p -> visuals_current host s' p'.
Proof.
  intros L B (S & BA & BB & CA & CB & AS & A & SH & SP & SS) [[La Lc] Sc].
  assert (F : freshSprite host s' p' = freshSprite host s p)
    by (apply freshSprite_reads; assumption).
  split; [split |].
  - rewrite A, AS, La. unfold getPetalAlpha. rewrite B. reflexivity.
  - rewrite CA, CB, BA, BB, Lc. unfold getPetalColors. rewrite B. reflexivity.
  - unfold sprite_current in *. rewrite F, SP, SS. exact Sc.
Qed.

Lemma same_visuals_refl p : same_visuals p p.
Proof. unfold same_visuals. repeat split. Qed.

Lemma visuals_current_set_petals host s ps p :
  visuals_current host s p -> visuals_current host (World.set_petals ps s) p.
Proof.
  apply visuals_current_same; [reflexivity | reflexivity | apply same_visuals_refl].
Qed.

Lemma same_visuals_set_x v p : same_visuals p (Petal.set_x v p).
Proof. unfold same_visuals. repeat split. Qed.

Lemma stepPetal_same_visuals host w h dt ms wind p n :
  same_visuals p (fst (stepPetal host w h dt ms wind p n)).
Proof.
  unfold stepPetal.
  destruct (respawn_cases host w h (physics dt ms wind p) n) as [[_ E] | [_ E]];
    rewrite E; unfold same_visuals; repeat split.
Qed.

Lemma render_visuals_current host s p :
  look_current s p -> visuals_current host s (renderPetalSprite host s p).
Proof.
  intros [A C]. split; [| apply renderPetalSprite_current].
  destruct (renderPetalSprite_kept host s p) as [K _].
  unfold kept_but_x_sprite in K.
  repeat match goal with H : _ /\ _ |- _ => destruct H end.
  unfold look_current.
  repeat match goal with E : _ (renderPetalSprite host s p) = _ p |- _ =>
    rewrite E; clear E end.
  split; assumption.
Qed.

Lemma makePetal_current host s b n :
  visuals_current host s (fst (makePetal host s b n)).
Proof.
  destruct b; cbv beta iota zeta delta [makePetal bind rand random ret];
    match goal with |- context [drawVeinCount host ?k] =>
      destruct (drawVeinCount host k) as [vc k'] end;
    cbn [fst]; apply render_visuals_current; split; reflexivity.
Qed.

Lemma makePetalsN_current host s b count n :
  Forall (visuals_current host s) (fst (makePetalsN host s count b n)).
Proof.
  revert n; induction count as [| k IH]; intro n; [constructor |].
  cbn [makePetalsN]. unfold bind at 1.
  pose proof (makePetal_current host s b n) as P.
  destruct (makePetal host s b n) as [p n1].
  unfold bind. specialize (IH n1).
  destruct (makePetalsN host s k b n1) as [rest n2].
  cbn [fst ret] in *. constructor; assumption.
Qed.

Lemma refreshPetal_current host s p : visuals_current host s (refreshPetal host s p).
Proof.
  unfold refreshPetal. apply render_visuals_current. split; [reflexivity |].
  cbn [Petal.colorA Petal.colorB Petal.set_visuals Petal.baseA Petal.baseB].
  destruct (getPetalColors s (Petal.baseA p) (Petal.baseB p)); reflexivity.
Qed.

Lemma Forall_map_same (P : Petal.t -> Prop) (f : Petal.t -> Petal.t) ps :
  (forall p, P p -> P (f p)) -> Forall P ps -> Forall P (map f ps).
Proof. intros K H. induction H; cbn; constructor; auto. Qed.

Lemma pullBack_Forall (P : Petal.t -> Prop) host w ps n :
  (forall v p, P p -> P (Petal.set_x v p)) ->
  Forall P ps -> Forall P (fst (pullBack host w ps n)).
Proof.
  intros K H. revert n; induction H as [| p rest Hp _ IH]; intro n; [constructor |].
  cbn [pullBack]. unfold bind at 1.
  destruct (_ || _).
  - unfold bind at 1. rewrite rand_value. unfold bind at 1, ret at 1.
    specialize (IH (S n)). destruct (pullBack host w rest (S n)) as [rest' n'].
    cbn [fst ret] in *. constructor; [apply K, Hp | exact IH].
  - unfold bind at 1, ret at 1.
    specialize (IH n). destruct (pullBack host w rest n) as [rest' n'].
    cbn [fst ret] in *. constructor; assumption.
Qed.

Lemma reconcile_Forall (P : Petal.t -> Prop) host s target n :
  (forall k m, Forall P (fst (makePetalsN host s k false m))) ->
  Forall P (World.petals s) -> Forall P (fst (reconcile host s target n)).
Proof.
  intros M H. unfold reconcile.
  destruct (_ <? target)%Z.
  - unfold bind, makePetals.
    pose proof (M (Z.to_nat (target - Z.of_nat (length (World.petals s)))) n) as A.
    destruct (makePetalsN host s _ false n) as [added n'].
    cbn in *. apply Forall_app. split; assumption.
  - destruct (target <? _)%Z; cbn; [| exact H].
    rewrite <- (firstn_skipn (Z.to_nat target) (World.petals s)) in H.
    apply Forall_app in H. apply H.
Qed.

(** [resize] leaves every petal with up-to-date visuals if it found them so,
    or if it renders every sprite again and only the sprites were stale. *)
Lemma resize_current host win preserve prev s :
  Forall (look_current s) (World.petals s) ->
  Forall (sprite_current host s) (World.petals s)
  \/ (exists pb, prev = Some pb /\ Qeqb (getBlurPx s) pb = false) ->
  coherent host (resize host win preserve prev s).
Proof.
  intros Lk Sp. unfold coherent, resize; cbv zeta.
  set (w' := inject_Z (Z.max 1 (Math_floor (innerWidth win)))).
  set (h' := inject_Z (Z.max 1 (Math_floor (innerHeight win)))).
  set (s1 := World.set_viewport _ w' h' s).
  set (tc := targetCount w' h' (getQualitySettings s)).
  assert (Same : forall (s2 : World.t) p,
            World.level s2 = World.level s1 ->
            World.visibilityBoost s2 = World.visibilityBoost s1 ->
            visuals_current host s1 p -> visuals_current host s2 p).
  { intros s2 p L B. apply visuals_current_same; [exact L | exact B |].
    apply same_visuals_refl. }
  destruct (negb _).
  - unfold makePetals.
    pose proof (makePetalsN_current host s1 true (Z.to_nat tc) (World.randomCalls s1)) as A.
    destruct (makePetalsN host s1 _ true (World.randomCalls s1)) as [ps n].
    cbn [fst World.petals World.set_petals World.set_randomCalls] in *.
    eapply Forall_impl; [| exact A]. intros p. apply Same; reflexivity.
  - unfold bind.
    destruct Sp as [Sp | (pb & -> & Blur)].
    + assert (Cur : Forall (visuals_current host s1) (World.petals s1)).
      { rewrite Forall_forall in *. intros p Hp.
        apply (visuals_current_same host s s1 p p); try reflexivity.
        - apply same_visuals_refl.
        - split; [apply Lk | apply Sp]; exact Hp. }
      pose proof (reconcile_Forall _ host s1 tc (World.randomCalls s1)
                    (fun k m => makePetalsN_current host s1 false k m) Cur) as A.
      destruct (reconcile host s1 tc (World.randomCalls s1)) as [ps0 n0].
      cbn [fst] in A.
      assert (B : Forall (visuals_current host s1) (rescaleX (World.w s) w' ps0)).
      { unfold rescaleX. destruct (_ && _); [| exact A].
        apply Forall_map_same; [| exact A]. intros p Hp.
        eapply visuals_current_same; [reflexivity | reflexivity | | exact Hp].
        apply same_visuals_set_x. }
      pose proof (pullBack_Forall _ host w' _ n0
                    (fun v p Hp => visuals_current_same host s1 s1 p _ eq_refl eq_refl
                                     (same_visuals_set_x v p) Hp) B) as C.
      destruct (pullBack host w' (rescaleX (World.w s) w' ps0) n0) as [ps n].
      cbn [fst World.petals World.set_petals World.set_randomCalls] in *.
      assert (D : Forall (visuals_current host s1) (rerender host s1 prev ps)).
      { unfold rerender. destruct prev as [pb |]; [| exact C].
        destruct (negb _); [| exact C].
        apply Forall_map_same; [| exact C]. intros p [Hl _].
        apply render_visuals_current, Hl. }
      eapply Forall_impl; [| exact D]. intros p. apply Same; reflexivity.
    + assert (Cur : Forall (look_current s1) (World.petals s1)) by exact Lk.
      pose proof (reconcile_Forall _ host s1 tc (World.randomCalls s1)
                    (fun k m => Forall_impl _ (fun p (H : visuals_current host s1 p) => proj1 H)
                                  (makePetalsN_current host s1 false k m)) Cur) as A.
      destruct (reconcile host s1 tc (World.randomCalls s1)) as [ps0 n0].
      cbn [fst] in A.
      assert (B : Forall (look_current s1) (rescaleX (World.w s) w' ps0)).
      { unfold rescaleX. destruct (_ && _); [| exact A].
        apply Forall_map_same; [| exact A]. intros p Hp. exact Hp. }
      pose proof (pullBack_Forall _ host w' _ n0
                    (fun v p (Hp : look_current s1 p) => Hp : look_current s1 (Petal.set_x v p))
                    B) as C.
      destruct (pullBack host w' (rescaleX (World.w s) w' ps0) n0) as [ps n].
      cbn [fst World.petals World.set_petals World.set_randomCalls] in *.
      unfold rerender. change (getBlurPx s1) with (getBlurPx s). rewrite Blur.
      cbn [negb].
      clear A B Cur.
      induction C as [| p l Hp _ IH]; cbn [map]; constructor; [| exact IH].
      apply (Same _ (renderPetalSprite host s1 p)); try reflexivity.
      apply render_visuals_current, Hp.
Qed.

Lemma blur_distinct l l' :
  (0 <= l <= 2)%Z -> (0 <= l' <= 2)%Z -> l <> l' ->
  Qeqb (QualityLevel.blurPx (preset l')) (QualityLevel.blurPx (preset l)) = false.
Proof.
  intros H H' N.
  assert (C : l = 0%Z \/ l = 1%Z \/ l = 2%Z) by lia.
  assert (D : l' = 0%Z \/ l' = 1%Z \/ l' = 2%Z) by lia.
  destruct C as [-> | [-> | ->]]; destruct D as [-> | [-> | ->]];
    try contradiction; reflexivity.
Qed.

Lemma resize_count host win preserve prev s :
  count_ok (resize host win preserve prev s).
Proof.
  unfold count_ok. rewrite resize_length.
  destruct (resize_viewport host win preserve prev s) as (W & H).
  destruct (resize_frame host win preserve prev s) as (L & _).
  cbv zeta in W, H, L. rewrite W, H.
  unfold getQualitySettings. rewrite L. reflexivity.
Qed.

Lemma applyQualityLevel_settled host win next s :
  settled host s -> settled host (applyQualityLevel host win next s).
Proof.
  intros (L & C & N).
  assert (L' : level_in_range (applyQualityLevel host win next s)).
  { destruct (applyQualityLevel_frame host win next s) as (E & _).
    unfold level_in_range. cbv zeta in E. rewrite E. unfold clampZ. lia. }
  split; [exact L' | clear L'].
  unfold applyQualityLevel.
  change (Z.of_nat (length quality.levels) - 1)%Z with 2%Z.
  destruct (Z.eqb_spec (clampZ next 0 2) (World.level s)) as [E | E];
    [split; assumption |]. cbv zeta.
  set (s0 := World.set_level (clampZ next 0 2) s).
  split; [| apply resize_count].
  apply resize_current.
  - unfold coherent in C. eapply Forall_impl; [| exact C].
    intros p [H _]. exact H.
  - right. exists (getBlurPx s). split; [reflexivity |].
    apply (blur_distinct (World.level s) (clampZ next 0 2));
      [exact L | unfold clampZ; lia | congruence].
Qed.

Lemma maybeAdjustQuality_settled host win now s :
  settled host s -> settled host (maybeAdjustQuality host win now s).
Proof.
  intro H. unfold maybeAdjustQuality.
  destruct (Qltb _ 1200); [exact H |]. cbv zeta.
  assert (H' : settled host (World.set_lastAdjust now s)) by exact H.
  destruct (_ && _); [apply applyQualityLevel_settled; assumption |].
  destruct (_ && _); [apply applyQualityLevel_settled; assumption | exact H'].
Qed.

Lemma tickPetals_current host s w h dt ms vb wind ps n :
  Forall (visuals_current host s) ps ->
  Forall (visuals_current host s) (fst (fst (tickPetals host w h dt ms vb wind ps n)))
  /\ length (fst (fst (tickPetals host w h dt ms vb wind ps n))) = length ps.
Proof.
  intro H. revert n; induction H as [| p rest Hp _ IH]; intro n.
  - cbn. split; [constructor | reflexivity].
  - rewrite tickPetals_cons.
    pose proof (stepPetal_same_visuals host w h dt ms wind p n) as A.
    destruct (stepPetal host w h dt ms wind p n) as [p' n1].
    specialize (IH n1).
    destruct (tickPetals host w h dt ms vb wind rest n1) as [r n2].
    cbn [fst snd] in *. destruct IH as (I1 & I2). split.
    + constructor; [| exact I1].
      eapply visuals_current_same; [reflexivity | reflexivity | exact A | exact Hp].
    + cbn [length]. now rewrite I2.
Qed.

Lemma tick_settled host win t s :
  settled host s -> settled host (tick host win t s).
Proof.
  intro H. unfold tick; cbv zeta.
  set (pre := World.set_timing t _ s).
  assert (Hpre : settled host pre) by exact H.
  pose proof (maybeAdjustQuality_settled host win t pre Hpre) as (L & C & N).
  set (adj := maybeAdjustQuality host win t pre) in *.
  cbn [World.enabled World.call]. destruct (negb (World.enabled adj)).
  - split; [exact L | split; [exact C | exact N]].
  - cbn [World.w World.h World.petals World.randomCalls World.call
         World.reducedMotion World.visibilityBoost].
    pose proof (tickPetals_current host adj (World.w adj) (World.h adj)
                  (stepOf (t - World.lastT s))
                  (motionScaleOf (World.reducedMotion adj))
                  (clamp (World.visibilityBoost adj) 0 1) (windAt host t)
                  (World.petals adj) (World.randomCalls adj) C) as (T1 & T2).
    destruct (tickPetals _ _ _ _ _ _ _ _ _) as [r n].
    cbn [fst] in T1, T2. split; [exact L | split].
    + unfold coherent. cbn [World.petals World.call World.set_randomCalls World.set_petals].
      eapply Forall_impl; [| exact T1]. intros p.
      apply visuals_current_same; try reflexivity. apply same_visuals_refl.
    + unfold count_ok in *. cbn. cbn in N. rewrite T2. exact N.
Qed.

Lemma updateVisibilityBoost_settled host m s :
  settled host s -> settled host (updateVisibilityBoost host m s).
Proof.
  intros (L & C & N). unfold updateVisibilityBoost.
  destruct (Qeqb _ _); [split; [exact L | split; assumption] |].
  set (s1 := World.set_visibilityBoost _ s).
  split; [exact L | split].
  - unfold coherent, refreshPetalVisuals.
    cbn [World.petals World.set_petals]. change (World.petals s1) with (World.petals s).
    clear C N. apply Forall_forall. intros q Hq.
    apply in_map_iff in Hq as (p & <- & _).
    apply visuals_current_set_petals, refreshPetal_current.
  - unfold count_ok in *.
    cbn [refreshPetalVisuals World.petals World.set_petals World.w World.h].
    rewrite length_map. exact N.
Qed.

Lemma handle_settled host e s : settled host s -> settled host (handle host e s).
Proof.
  intro H. destruct e as [win t | win | m | b]; cbn [handle].
  - apply tick_settled, H.
  - destruct H as (L & C & N). split; [| split].
    + unfold level_in_range.
      rewrite (proj1 (resize_frame host win true None s)). exact L.
    + apply resize_current.
      * eapply Forall_impl; [| exact C]. intros p [A _]. exact A.
      * left. eapply Forall_impl; [| exact C]. intros p [_ A]. exact A.
    + apply resize_count.
  - apply updateVisibilityBoost_settled, H.
  - destruct H as (L & C & N). split; [exact L | split; [| exact N]].
    unfold coherent in *. cbn. eapply Forall_impl; [| exact C]. intros p.
    apply visuals_current_same; try reflexivity. apply same_visuals_refl.
Qed.

Lemma run_settled host es s : settled host s -> settled host (run host es s).
Proof.
  revert s; induction es as [| e es IH]; intros s H; [exact H |].
  cbn [run fold_left]. apply IH, handle_settled, H.
Qed.

Lemma set_timing_settled host t a s :
  settled host s -> settled host (World.set_timing t a s).
Proof.
  intros (L & C & N). split; [exact L | split; [| exact N]].
  unfold coherent in *. cbn [World.petals World.set_timing].
  eapply Forall_impl; [| exact C]. intros p.
  apply visuals_current_same; [reflexivity | reflexivity | apply same_visuals_refl].
Qed.

Lemma resize_settled host win preserve prev s :
  level_in_range s ->
  Forall (look_current s) (World.petals s) ->
  Forall (sprite_current host s) (World.petals s)
  \/ (exists pb, prev = Some pb /\ Qeqb (getBlurPx s) pb = false) ->
  settled host (resize host win preserve prev s).
Proof.
  intros L Lk Sp. split; [| split].
  - unfold level_in_range.
    rewrite (proj1 (resize_frame host win preserve prev s)). exact L.
  - apply resize_current; assumption.
  - apply resize_count.
Qed.

Lemma updateVisibilityBoost_no_petals host m s :
  World.petals s = [] -> World.petals (updateVisibilityBoost host m s) = [].
Proof.
  intro E. unfold updateVisibilityBoost. destruct (Qeqb _ _); [exact E |].
  unfold refreshPetalVisuals. cbn [World.petals World.set_petals World.set_visibilityBoost].
  rewrite E. reflexivity.
Qed.

Lemma boot_settled host win m now0 now1 rm :
  settled host (boot host win m now0 now1 rm).
Proof.
  unfold boot; cbv zeta.
  apply set_timing_settled.
  pose proof (updateVisibilityBoost_no_petals host m (initial now0 rm) eq_refl) as P.
  pose proof (proj1 (updateVisibilityBoost_quality host m (initial now0 rm))) as Lv.
  generalize dependent (updateVisibilityBoost host m (initial now0 rm)).
  intros s0 P Lv.
  apply resize_settled.
  - unfold level_in_range. rewrite Lv. cbn. lia.
  - rewrite P. constructor.
  - left. rewrite P. constructor.
Qed.






(** X7.  From start-up on, whatever the events, every petal of the field has
    the alpha and display colours that the stored boost derives from its seed
    and base colours, and a cached sprite that is up to date: of the side the
    current blur asks for, with [spriteSize] equal to it, and last drawn with
    the petal's current size, colours and shape under the current boost and
    blur (or no sprite at all when the host gives no sprite context). *)
Theorem visuals_always_current (host : Host) (win : Window) (m : Media)
    (now0 now1 : Q) (rm : bool) (es : list Event) :
  Forall (visuals_current host (run host es (boot host win m now0 now1 rm)))
         (World.petals (run host es (boot host win m now0 now1 rm))).
Proof. apply (run_settled host es), boot_settled. Qed.



(** ** Motion *)

Lemma stepOf_le frameMs : stepOf frameMs <= 0.04.
Proof. unfold stepOf. apply Math_min_l. Qed.

Lemma motionScaleOf_values rm :
  motionScaleOf rm == (if rm then 0.032 else 0.4).
Proof. destruct rm; reflexivity. Qed.

(** X9.  Reduced motion does not stop the petals: every displacement of the
    physics update (fall, drift, rotation, sway and flutter phases) is 0.08
    times the one made without it, and nothing else of the petal changes. *)
Theorem reduced_motion_scales (dt wind : Q) (p : Petal.t) :
  let normal := physics dt (motionScaleOf false) wind p in
  let reduced := physics dt (motionScaleOf true) wind p in
  Petal.y reduced - Petal.y p == 0.08 * (Petal.y normal - Petal.y p)
  /\ Petal.x reduced - Petal.x p == 0.08 * (Petal.x normal - Petal.x p)
  /\ Petal.rot reduced - Petal.rot p == 0.08 * (Petal.rot normal - Petal.rot p)
  /\ Petal.swayPhase reduced - Petal.swayPhase p
     == 0.08 * (Petal.swayPhase normal - Petal.swayPhase p)
  /\ Petal.flutterPhase reduced - Petal.flutterPhase p
     == 0.08 * (Petal.flutterPhase normal - Petal.flutterPhase p)
  /\ same_visuals p reduced
  /\ (Petal.vx reduced = Petal.vx p /\ Petal.vy reduced = Petal.vy p
      /\ Petal.rotSpeed reduced = Petal.rotSpeed p).
Proof.
  cbv zeta. unfold physics, motionScaleOf, config.motion, config.windScale.
  cbn [Petal.y Petal.x Petal.rot Petal.swayPhase Petal.flutterPhase
       Petal.set_y Petal.set_x Petal.set_rot Petal.set_swayPhase
       Petal.set_flutterPhase Petal.vy Petal.vx Petal.rotSpeed Petal.swaySpeed
       Petal.flutterSpeed].
  repeat (split; [ring |]).
  split; [unfold same_visuals; repeat split | repeat split].
Qed.

(** X10.  The time step of a frame never exceeds 0.04s, whatever the gap since
    the last frame, and is the gap itself up to 40ms.  So a petal that falls
    ([vy >= 0]) drops by at most [vy * 0.016] in one frame, and by at most
    [vy * 0.00128] under reduced motion, even after a long pause. *)
Theorem step_is_clamped (frameMs wind : Q) (rm : bool) (p : Petal.t) :
  0 <= Petal.vy p ->
  stepOf frameMs <= 0.04
  /\ (frameMs <= 40 -> stepOf frameMs == frameMs / 1000)
  /\ (40 <= frameMs -> stepOf frameMs == 0.04)
  /\ Petal.y (physics (stepOf frameMs) (motionScaleOf rm) wind p) - Petal.y p
     <= Petal.vy p * (if rm then 0.00128 else 0.016).
Proof.
  intro Hv. split; [apply stepOf_le | split; [| split]].
  - intro H. unfold stepOf, Math_min.
    destruct (Qltb_spec (frameMs / 1000) 0.04) as [A | A]; [reflexivity |].
    unfold Qdiv in *. change (/ 1000) with (1 # 1000) in *. lra.
  - intro H. rewrite stepOf_clamped by exact H. reflexivity.
  - pose proof (stepOf_le frameMs) as S. set (dt := stepOf frameMs) in *.
    unfold physics.
    cbn [Petal.y Petal.set_y Petal.set_x Petal.set_rot Petal.set_swayPhase
         Petal.set_flutterPhase Petal.vy].
    assert (0 <= Petal.vy p * (0.04 - dt)) by (apply Qmult_le_0_compat; lra).
    destruct rm; unfold motionScaleOf, config.motion; lra.
Qed.

Lemma step_is_clamped_witness :
  stepOf 600000 <= 0.04
  /\ Petal.y (physics (stepOf 600000) (motionScaleOf false) 0 petal0) - Petal.y petal0
     <= Petal.vy petal0 * 0.016.
Proof.
  destruct (step_is_clamped 600000 0 false petal0) as (A & _ & _ & B);
    [cbn; lra | split; assumption].
Defined.

(** X14.  With a sine between -1 and 1 the wind always blows to the right,
    between 1.056 and 1.92, so a petal whose own [vx] is not negative never
    moves left in a physics update with a non-negative time step. *)
Theorem wind_blows_right (host : Host) (t dt : Q) (rm : bool) (p : Petal.t) :
  (forall a, -1 <= Math_sin host a <= 1) ->
  0 <= Petal.vx p -> 0 <= dt ->
  (1.056 <= windAt host t /\ windAt host t <= 1.92)
  /\ Petal.x p <= Petal.x (physics dt (motionScaleOf rm) (windAt host t) p).
Proof.
  intros Hs Hv Hd.
  assert (W : 1.056 <= windAt host t /\ windAt host t <= 1.92).
  { unfold windAt, config.windBias, config.windGustiness, config.windStrength.
    destruct (Hs (t * 0.00018)). split; lra. }
  split; [exact W |].
  unfold physics. cbn [Petal.x Petal.set_x Petal.vx Petal.set_y Petal.set_rot
                       Petal.set_swayPhase Petal.set_flutterPhase].
  set (wd := windAt host t) in *.
  assert (0 <= (Petal.vx p + wd * config.windScale) * dt).
  { apply Qmult_le_0_compat; [unfold config.windScale; lra | exact Hd]. }
  destruct rm; unfold motionScaleOf, config.motion; lra.
Qed.

Lemma wind_blows_right_witness :
  Petal.x petal0 <= Petal.x (physics 0.04 (motionScaleOf false) (windAt host0 0) petal0).
Proof.
  apply (wind_blows_right host0 0 0.04 false petal0);
    [intro a; cbn; lra | cbn; lra | lra].
Defined.

(** ** Canvas state *)

Lemma stackDepth_app a b d :
  stackDepth (a ++ b) d
  = match stackDepth a d with Some d' => stackDepth b d' | None => None end.
Proof.
  revert d; induction a as [| op a IH]; intro d; [reflexivity |].
  destruct op; cbn [app stackDepth]; try apply IH.
  destruct d; [reflexivity | apply IH].
Qed.

Lemma drawPetalShape_balanced size fillA fillB shape vb d :
  stackDepth (drawPetalShape size fillA fillB shape vb) d = Some d.
Proof.
  unfold drawPetalShape; cbv zeta.
  destruct (Qltb 0.55 (PetalShape.detail shape));
    destruct (2 <=? PetalShape.veinCount shape)%Z;
    destruct (3 <=? PetalShape.veinCount shape)%Z;
    reflexivity.
Qed.

Lemma drawPetal_balanced host ms vb p d :
  stackDepth (drawPetal host ms vb p) d = Some d.
Proof.
  unfold drawPetal. cbn [app stackDepth].
  rewrite stackDepth_app.
  assert (E : forall body, stackDepth body (S d) = Some (S d) ->
            match stackDepth body (S d) with
            | Some d' => stackDepth [restore] d'
            | None => None
            end = Some d) by (intros body ->; reflexivity).
  apply E.
  destruct (Petal.sprite p); [destruct (_ =? _)%Z |];
    try apply drawPetalShape_balanced; reflexivity.
Qed.

Lemma renderCalls_balanced s p d : stackDepth (renderCalls s p) d = Some d.
Proof.
  unfold renderCalls; cbv zeta. cbn [app stackDepth].
  rewrite stackDepth_app, drawPetalShape_balanced. reflexivity.
Qed.

Lemma tickPetals_balanced host w h dt ms vb wind ps n d :
  stackDepth (snd (fst (tickPetals host w h dt ms vb wind ps n))) d = Some d.
Proof.
  revert n; induction ps as [| p rest IH]; intro n; [reflexivity |].
  rewrite tickPetals_cons.
  destruct (stepPetal host w h dt ms wind p n) as [p' n1].
  specialize (IH n1).
  destruct (tickPetals host w h dt ms vb wind rest n1) as [r n2].
  cbn [fst snd] in *. rewrite stackDepth_app, drawPetal_balanced. exact IH.
Qed.

Lemma applyQualityLevel_ctx host win next s :
  exists extra,
    World.ctx (applyQualityLevel host win next s) = World.ctx s ++ extra
    /\ forall d, stackDepth extra d = Some d.
Proof.
  unfold applyQualityLevel. destruct (_ =? _)%Z.
  - exists []. split; [now rewrite app_nil_r | reflexivity].
  - cbv zeta.
    destruct (resize_surface_fields host win true (Some (getBlurPx s))
                (World.set_level
                   (clampZ next 0 (Z.of_nat (length quality.levels) - 1)) s))
      as (_ & _ & _ & _ & _ & C).
    cbv zeta in C. rewrite C. eexists. split; [reflexivity | reflexivity].
Qed.

Lemma maybeAdjustQuality_ctx host win now s :
  exists extra,
    World.ctx (maybeAdjustQuality host win now s) = World.ctx s ++ extra
    /\ forall d, stackDepth extra d = Some d.
Proof.
  unfold maybeAdjustQuality.
  assert (Z0 : exists extra, World.ctx s = World.ctx s ++ extra
                             /\ forall d, stackDepth extra d = Some d).
  { exists []. split; [now rewrite app_nil_r | reflexivity]. }
  destruct (Qltb _ 1200); [exact Z0 |]. cbv zeta.
  destruct (_ && _);
    [apply (applyQualityLevel_ctx host win _ (World.set_lastAdjust now s)) |].
  destruct (_ && _);
    [apply (applyQualityLevel_ctx host win _ (World.set_lastAdjust now s)) | exact Z0].
Qed.

Lemma maybeAdjustQuality_frame host win now s :
  let s' := maybeAdjustQuality host win now s in
  World.avgMs s' = World.avgMs s
  /\ World.lastT s' = World.lastT s
  /\ World.enabled s' = World.enabled s
  /\ World.reducedMotion s' = World.reducedMotion s
  /\ World.visibilityBoost s' = World.visibilityBoost s.
Proof.
  unfold maybeAdjustQuality. destruct (Qltb _ 1200); [repeat split |]. cbv zeta.
  destruct (_ && _).
  - destruct (applyQualityLevel_frame host win (World.level (World.set_lastAdjust now s) + 1)
                (World.set_lastAdjust now s)) as (_ & _ & A & B & C & D & E).
    rewrite A, B, C, D, E. repeat split.
  - destruct (_ && _); [| repeat split].
    destruct (applyQualityLevel_frame host win (World.level (World.set_lastAdjust now s) - 1)
                (World.set_lastAdjust now s)) as (_ & _ & A & B & C & D & E).
    rewrite A, B, C, D, E. repeat split.
Qed.

(** X12.  A frame never leaks canvas state: the calls [tick] adds to the page
    canvas hold a [restore] for every [save] and no [restore] without one,
    and they end by resetting the filter.  The same holds of a direct vector
    drawing and of the calls that render a sprite. *)
Theorem frame_calls_balanced (host : Host) (win : Window) (t : Q) (s : World.t)
    (size vb : Q) (fillA fillB : Css) (shape : PetalShape.t) (p : Petal.t) (d : nat) :
  (exists added,
     World.ctx (tick host win t s) = World.ctx s ++ added
     /\ stackDepth added d = Some d
     /\ (World.enabled s = true -> last added save = set_filter None))
  /\ stackDepth (drawPetalShape size fillA fillB shape vb) d = Some d
  /\ stackDepth (renderCalls s p) d = Some d.
Proof.
  split; [| split; [apply drawPetalShape_balanced | apply renderCalls_balanced]].
  unfold tick; cbv zeta.
  set (pre := World.set_timing t _ s).
  destruct (maybeAdjustQuality_ctx host win t pre) as (extra & E & B).
  pose proof (proj1 (proj2 (proj2 (maybeAdjustQuality_frame host win t pre)))) as En.
  set (adj := maybeAdjustQuality host win t pre) in *.
  cbn [World.enabled World.call].
  change (World.ctx pre) with (World.ctx s) in E.
  change (World.enabled pre) with (World.enabled s) in En.
  destruct (negb (World.enabled adj)) eqn:Dis.
  - exists (extra ++ [clearRect 0 0 (World.w adj) (World.h adj)]).
    cbn [World.ctx World.call]. rewrite E, <- app_assoc.
    split; [reflexivity | split].
    + rewrite stackDepth_app, B. reflexivity.
    + intro On. rewrite En, On in Dis. discriminate Dis.
  - cbn [World.w World.h World.petals World.randomCalls World.call
         World.reducedMotion World.visibilityBoost World.ctx].
    pose proof (tickPetals_balanced host (World.w adj) (World.h adj)
                  (stepOf (t - World.lastT s))
                  (motionScaleOf (World.reducedMotion adj))
                  (clamp (World.visibilityBoost adj) 0 1) (windAt host t)
                  (World.petals adj) (World.randomCalls adj) d) as T.
    destruct (tickPetals _ _ _ _ _ _ _ _ _) as [r n].
    cbn [fst snd] in *.
    exists (extra ++ [clearRect 0 0 (World.w adj) (World.h adj)]
                  ++ snd r ++ [set_filter None]).
    cbn [World.ctx World.call World.set_randomCalls World.set_petals].
    rewrite E, <- !app_assoc. split; [reflexivity | split].
    + rewrite stackDepth_app, B. cbn [app stackDepth].
      rewrite stackDepth_app, T. reflexivity.
    + intros _. rewrite !app_assoc. apply last_last.
Qed.

(** ** A frame inside the cooldown *)

Lemma maybeAdjustQuality_cooldown host win now s :
  now - World.lastAdjust s < 1200 -> maybeAdjustQuality host win now s = s.
Proof.
  intro H. unfold maybeAdjustQuality.
  destruct (Qltb_spec (now - World.lastAdjust s) 1200); [reflexivity | contradiction].
Qed.

Lemma stepPetal_advanced host w h dt ms wind p n :
  advanced dt ms p (fst (stepPetal host w h dt ms wind p n)).
Proof.
  unfold stepPetal.
  destruct (respawn_cases host w h (physics dt ms wind p) n) as [[_ E] | [_ E]];
    rewrite E; unfold advanced, same_visuals; repeat split.
Qed.

Lemma tickPetals_advanced host w h dt ms vb wind ps n :
  Forall2 (advanced dt ms) ps (fst (fst (tickPetals host w h dt ms vb wind ps n))).
Proof.
  revert n; induction ps as [| p rest IH]; intro n; [constructor |].
  rewrite tickPetals_cons.
  pose proof (stepPetal_advanced host w h dt ms wind p n) as A.
  destruct (stepPetal host w h dt ms wind p n) as [p' n1].
  specialize (IH n1).
  destruct (tickPetals host w h dt ms vb wind rest n1) as [r n2].
  cbn [fst snd] in *. constructor; assumption.
Qed.

(** X11.  A frame that falls inside the quality cooldown leaves the viewport,
    the preset, the boost and the number of petals alone.  Of each petal it
    changes only the position, the rotation and the two phases, the latter
    three by speed x step x motion scale; size, velocities, colours, alpha,
    shape and sprite stay.  When the animation is disabled it only clears the
    canvas.  Either way it records the time stamp and the smoothed cost. *)
Theorem tick_inside_cooldown (host : Host) (win : Window) (t : Q) (s : World.t) :
  t - World.lastAdjust s < 1200 ->
  let s' := tick host win t s in
  (World.enabled s = true ->
   Forall2 (advanced (stepOf (t - World.lastT s))
                     (motionScaleOf (World.reducedMotion s)))
           (World.petals s) (World.petals s'))
  /\ (World.enabled s = false ->
      World.petals s' = World.petals s
      /\ World.randomCalls s' = World.randomCalls s
      /\ World.ctx s' = World.ctx s ++ [clearRect 0 0 (World.w s) (World.h s)])
  /\ (World.w s' = World.w s /\ World.h s' = World.h s /\ World.dpr s' = World.dpr s
      /\ World.level s' = World.level s /\ World.lastAdjust s' = World.lastAdjust s
      /\ World.visibilityBoost s' = World.visibilityBoost s
      /\ World.reducedMotion s' = World.reducedMotion s
      /\ World.enabled s' = World.enabled s)
  /\ World.lastT s' = t
  /\ World.avgMs s' = World.avgMs s * 0.9 + (t - World.lastT s) * 0.1.
Proof.
  intros H s'. subst s'. unfold tick; cbv zeta.
  rewrite maybeAdjustQuality_cooldown by exact H.
  cbn [World.enabled World.call World.set_timing].
  destruct (World.enabled s) eqn:En; cbn [negb].
  - cbn [World.w World.h World.petals World.randomCalls World.reducedMotion
         World.visibilityBoost].
    pose proof (tickPetals_advanced host (World.w s) (World.h s)
                  (stepOf (t - World.lastT s)) (motionScaleOf (World.reducedMotion s))
                  (clamp (World.visibilityBoost s) 0 1) (windAt host t)
                  (World.petals s) (World.randomCalls s)) as A.
    destruct (tickPetals _ _ _ _ _ _ _ _ _) as [r n]. cbn [fst] in A.
    cbn. rewrite En. repeat split; try discriminate. intros _. exact A.
  - cbn. rewrite En. repeat split; discriminate.
Qed.

Lemma tick_inside_cooldown_witness :
  Forall2 (advanced (stepOf (40 - 0)) (motionScaleOf true))
          (World.petals world_reduced)
          (World.petals (tick host0 win0 40 world_reduced)).
Proof.
  apply (tick_inside_cooldown host0 win0 40 world_reduced);
    [vm_compute; reflexivity | reflexivity].
Defined.

(** ** The smoothed frame cost *)

Lemma pow_succ (a : Q) (n : nat) :
  ~ a == 0 -> a ^ Z.of_nat (S n) == a * a ^ Z.of_nat n.
Proof.
  intro H. rewrite Nat2Z.inj_succ. unfold Z.succ.
  rewrite Qpower_plus by exact H. change (a ^ 1) with a. ring.
Qed.

Lemma pow_09_range n : 0 <= 0.9 ^ Z.of_nat n <= 1.
Proof.
  induction n as [| n IH]; [cbn; lra |].
  rewrite pow_succ by (intro E; lra). lra.
Qed.

(** X13.  Over [n] frames that come [gap] milliseconds apart the distance of
    the smoothed frame cost to [gap] shrinks by the factor 0.9 per frame; so
    it stays above 30ms once both it and the gap are, and below 18ms
    likewise. *)
Theorem average_converges (host : Host) (win : Window) (s : World.t)
    (gap : Q) (n : nat) :
  level_in_range s ->
  let s' := run host (steadyFrames win (World.lastT s) gap n) s in
  World.avgMs s' - gap == 0.9 ^ Z.of_nat n * (World.avgMs s - gap)
  /\ (30 < gap -> 30 < World.avgMs s -> 30 < World.avgMs s')
  /\ (gap < 18 -> World.avgMs s < 18 -> World.avgMs s' < 18).
Proof.
  intros R s'.
  assert (G : World.avgMs s' - gap == 0.9 ^ Z.of_nat n * (World.avgMs s - gap)).
  { subst s'. revert s R. induction n as [| n IH]; intros s R.
    - cbn. ring.
    - cbn [steadyFrames run fold_left handle].
      destruct (tick_level_cases host win (World.lastT s + gap) s R) as (A & T & _).
      pose proof (tick_level_in_range host win (World.lastT s + gap) s R) as R1.
      set (s1 := tick host win (World.lastT s + gap) s) in *.
      specialize (IH s1 R1). unfold run in IH. rewrite T in IH.
      rewrite IH, A, pow_succ by (intro E; lra).
      unfold smoothed. ring. }
  split; [exact G |].
  pose proof (pow_09_range n) as P. set (r := 0.9 ^ Z.of_nat n) in *.
  split; intros Hg Ha.
  - assert (0 <= r * (World.avgMs s - 30)) by (apply Qmult_le_0_compat; lra).
    assert (0 <= (1 - r) * (gap - 30)) by (apply Qmult_le_0_compat; lra).
    destruct (Qlt_le_dec r 1) as [C | C]; [| assert (r == 1) by lra].
    + assert (0 < (1 - r) * (gap - 30)) by (apply Qmult_lt_0_compat; lra). lra.
    + assert (E : World.avgMs s' - gap == World.avgMs s - gap)
        by (rewrite G; setoid_replace r with 1 by assumption; ring). lra.
  - assert (0 <= r * (18 - World.avgMs s)) by (apply Qmult_le_0_compat; lra).
    destruct (Qlt_le_dec r 1) as [C | C]; [| assert (r == 1) by lra].
    + assert (0 < (1 - r) * (18 - gap)) by (apply Qmult_lt_0_compat; lra). lra.
    + assert (E : World.avgMs s' - gap == World.avgMs s - gap)
        by (rewrite G; setoid_replace r with 1 by assumption; ring). lra.
Qed.

Lemma average_converges_witness :
  World.avgMs (run host0 (steadyFrames win0 (World.lastT world_reduced) 50 3)
                   world_reduced) - 50
  == 0.9 ^ 3 * (World.avgMs world_reduced - 50).
Proof.
  apply (average_converges host0 win0 world_reduced 50 3).
  unfold level_in_range; cbn; lia.
Defined.

(** ** Alpha and colours, again *)

(** X19.  For a seed in [0, 1] the alpha is [0.48 + 0.14 b + 0.30 seed] with
    [b] the stored boost clamped to [0, 1]: the floor and the ceiling never
    bite, and the alpha never drops when the boost or the seed rises. *)
Theorem getPetalAlpha_closed_form (s s' : World.t) (seed seed' : Q) :
  0 <= seed <= 1 -> 0 <= seed' <= 1 ->
  getPetalAlpha s seed == 0.48 + 0.14 * clamp (World.visibilityBoost s) 0 1 + 0.30 * seed
  /\ (World.visibilityBoost s <= World.visibilityBoost s' -> seed <= seed' ->
      getPetalAlpha s seed <= getPetalAlpha s' seed').
Proof.
  intros H H'.
  assert (F : forall w u, 0 <= u <= 1 ->
            getPetalAlpha w u == 0.48 + 0.14 * clamp (World.visibilityBoost w) 0 1 + 0.30 * u).
  { intros w u Hu. unfold getPetalAlpha.
    pose proof (clamp_range (World.visibilityBoost w) 0 1 ltac:(lra)) as B.
    set (b := clamp (World.visibilityBoost w) 0 1) in *.
    rewrite clamp_inside; unfold lerp; [ring | lra]. }
  split; [apply F, H |].
  intros Hb Hs. rewrite (F s seed H), (F s' seed' H').
  assert (M : clamp (World.visibilityBoost s) 0 1 <= clamp (World.visibilityBoost s') 0 1).
  { unfold clamp, Math_max, Math_min. cmp_cases; lra. }
  lra.
Qed.

Lemma getPetalAlpha_closed_form_witness :
  getPetalAlpha world_reduced 0.5
  == 0.48 + 0.14 * clamp (World.visibilityBoost world_reduced) 0 1 + 0.30 * 0.5.
Proof.
  apply (getPetalAlpha_closed_form world_reduced world_reduced 0.5 0.5); lra.
Defined.

Lemma Math_round_Z (z : Z) : Math_round (inject_Z z) = z.
Proof.
  unfold Math_round.
  assert (A : (z <= Qfloor (inject_Z z + (1 # 2)))%Z).
  { rewrite <- (Qfloor_Z z) at 1. apply Qfloor_resp_le. lra. }
  assert (B : (Qfloor (inject_Z z + (1 # 2)) < z + 1)%Z).
  { rewrite Zlt_Qlt. eapply Qle_lt_trans; [apply Qfloor_le |].
    rewrite inject_Z_plus. change (inject_Z 1) with 1. lra. }
  lia.
Qed.

Lemma Math_round_eq (v : Q) (z : Z) : v == inject_Z z -> Math_round v = z.
Proof.
  intro E. rewrite <- (Math_round_Z z). unfold Math_round.
  apply Qfloor_comp. rewrite E. reflexivity.
Qed.

Lemma Math_round_between (lo hi : Z) (v : Q) :
  inject_Z lo <= v -> v <= inject_Z hi -> (lo <= Math_round v <= hi)%Z.
Proof.
  intros A B. split.
  - rewrite <- (Math_round_Z lo). apply Math_round_mono, A.
  - rewrite <- (Math_round_Z hi). apply Math_round_mono, B.
Qed.

Lemma mix_channel a b t :
  0 <= t <= 1 -> channel_between a b (Math_round (lerp (inject_Z a) (inject_Z b) t)).
Proof.
  intro H. unfold channel_between, lerp.
  assert (0 <= t * (inject_Z b - inject_Z a) \/ 0 <= t * (inject_Z a - inject_Z b)).
  { destruct (Qlt_le_dec (inject_Z a) (inject_Z b));
      [left | right]; apply Qmult_le_0_compat; lra. }
  destruct (Z.le_ge_cases a b) as [L | L].
  - rewrite Z.min_l, Z.max_r by lia. rewrite Zle_Qle in L.
    assert (0 <= t * (inject_Z b - inject_Z a)) by (apply Qmult_le_0_compat; lra).
    assert (0 <= (1 - t) * (inject_Z b - inject_Z a)) by (apply Qmult_le_0_compat; lra).
    apply Math_round_between; lra.
  - rewrite Z.min_r, Z.max_l by lia. rewrite Zle_Qle in L.
    assert (0 <= t * (inject_Z a - inject_Z b)) by (apply Qmult_le_0_compat; lra).
    assert (0 <= (1 - t) * (inject_Z a - inject_Z b)) by (apply Qmult_le_0_compat; lra).
    apply Math_round_between; lra.
Qed.

Lemma mixRgb_ends a b : mixRgb a b 0 = a /\ mixRgb a b 1 = b.
Proof.
  destruct a as [[a0 a1] a2], b as [[b0 b1] b2]. unfold mixRgb, lerp.
  split; f_equal; [f_equal | | f_equal |]; apply Math_round_eq; ring.
Qed.

(** X20.  [mixRgb(a, b, t)] returns [a] at [t = 0] and [b] at [t = 1], and for
    [t] in [0, 1] every channel of the mix lies between the two it mixes.
    So the two display colours of a petal are opaque, lie channel by channel
    between the base colour and the palette target, and are the base colours
    when the stored boost is 0 or less and the targets when it is 1 or
    more. *)
Theorem display_colours_between (s : World.t) (a b : Rgb) (t : Q) :
  0 <= t <= 1 ->
  (mixRgb a b 0 = a /\ mixRgb a b 1 = b /\ rgb_between a b (mixRgb a b t))
  /\ (exists ca cb,
        getPetalColors s a b = (Rgba ca 1, Rgba cb 1)
        /\ rgb_between a palette.target.fillA ca
        /\ rgb_between b palette.target.fillB cb
        /\ (World.visibilityBoost s <= 0 -> ca = a /\ cb = b)
        /\ (1 <= World.visibilityBoost s ->
            ca = palette.target.fillA /\ cb = palette.target.fillB)).
Proof.
  intro H.
  assert (B : forall x y u, 0 <= u <= 1 -> rgb_between x y (mixRgb x y u)).
  { intros [[x0 x1] x2] [[y0 y1] y2] u Hu. unfold rgb_between, mixRgb.
    repeat split; apply mix_channel; exact Hu. }
  split.
  - destruct (mixRgb_ends a b) as [E0 E1]. repeat split; try assumption.
    apply B, H.
  - unfold getPetalColors, rgba.
    pose proof (clamp_range (World.visibilityBoost s) 0 1 ltac:(lra)) as R.
    eexists. eexists. split; [reflexivity |].
    split; [apply B; lra | split; [apply B; lra | split]].
    + intro L.
      assert (E : clamp (World.visibilityBoost s) 0 1 = 0).
      { unfold clamp, Math_max, Math_min. cmp_cases; try reflexivity; lra. }
      rewrite E. split; apply mixRgb_ends.
    + intro L.
      assert (E : clamp (World.visibilityBoost s) 0 1 = 1).
      { unfold clamp, Math_max, Math_min. cmp_cases; try reflexivity; lra. }
      rewrite E. split; apply mixRgb_ends.
Qed.

Lemma display_colours_between_witness :
  rgb_between palette.fillA0 palette.target.fillA
              (mixRgb palette.fillA0 palette.target.fillA 0.5).
Proof.
  apply (display_colours_between world_reduced palette.fillA0 palette.target.fillA 0.5).
  lra.
Defined.

(** ** Changing the preset *)



(** ** The stored boost *)

Lemma boost_after_update host m s :
  World.visibilityBoost (updateVisibilityBoost host m s) == clamp (boostSum m) 0 1.
Proof.
  unfold updateVisibilityBoost.
  destruct (Qeqb_spec (clamp (boostSum m) 0 1) (World.visibilityBoost s)) as [E | E].
  - symmetry; exact E.
  - reflexivity.
Qed.

Lemma tick_boost host win t s :
  World.visibilityBoost (tick host win t s) = World.visibilityBoost s.
Proof.
  unfold tick; cbv zeta.
  set (pre := World.set_timing t _ s).
  pose proof (maybeAdjustQuality_frame host win t pre) as (_ & _ & _ & _ & B).
  set (adj := maybeAdjustQuality host win t pre) in *.
  cbn [World.enabled World.call]. destruct (negb _); [exact B |].
  destruct (tickPetals _ _ _ _ _ _ _ _ _) as [r n]. exact B.
Qed.

Lemma handle_boost_range host e s :
  0 <= World.visibilityBoost s <= 1 ->
  0 <= World.visibilityBoost (handle host e s) <= 1.
Proof.
  intro H. destruct e as [win t | win | m | b]; cbn [handle].
  - rewrite tick_boost. exact H.
  - destruct (resize_frame host win true None s) as (_ & _ & _ & _ & _ & _ & B).
    cbv zeta in B. rewrite B. exact H.
  - rewrite boost_after_update.
    pose proof (clamp_range (boostSum m) 0 1 ltac:(lra)). lra.
  - exact H.
Qed.

Lemma run_boost_range host es s :
  0 <= World.visibilityBoost s <= 1 ->
  0 <= World.visibilityBoost (run host es s)
  /\ World.visibilityBoost (run host es s) <= 1.
Proof.
  revert s. induction es as [| e es IH]; intros s B; [exact B |].
  cbn [run fold_left]. apply IH, handle_boost_range, B.
Qed.

Lemma set_timing_boost t a s :
  World.visibilityBoost (World.set_timing t a s) = World.visibilityBoost s.
Proof. reflexivity. Qed.

Lemma boot_boost host win m now0 now1 rm :
  World.visibilityBoost (boot host win m now0 now1 rm) == clamp (boostSum m) 0 1.
Proof.
  unfold boot; cbv zeta. rewrite set_timing_boost.
  rewrite (proj2 (proj2 (proj2 (proj2 (proj2 (proj2
             (resize_frame host win false None
                (updateVisibilityBoost host m (initial now0 rm))))))))).
  apply boost_after_update.
Qed.

(** X18.  The handler always leaves a boost in [0, 1].  With no media query
    list available the boost is 0, and a world whose boost is 0 is returned
    untouched; decreased contrast alone cannot push the boost below 0 and all
    raising signals together cannot push it above 1.  From start-up on the
    stored boost stays in [0, 1], whatever the events. *)
Theorem boost_stays_in_unit (host : Host) (win : Window) (m m0 : Media)
    (now0 now1 : Q) (rm : bool) (es : list Event) (s : World.t) :
  (0 <= World.visibilityBoost (updateVisibilityBoost host m s)
   /\ World.visibilityBoost (updateVisibilityBoost host m s) <= 1)
  /\ World.visibilityBoost (updateVisibilityBoost host no_media s) == 0
  /\ (World.visibilityBoost s == 0 -> updateVisibilityBoost host no_media s = s)
  /\ World.visibilityBoost
       (updateVisibilityBoost host
          (mkMedia (Some false) (Some true) (Some false) (Some false) (Some true)) s)
     == 0
  /\ World.visibilityBoost
       (updateVisibilityBoost host
          (mkMedia (Some true) (Some false) (Some true) (Some true) (Some false)) s)
     == 1
  /\ (0 <= World.visibilityBoost (run host es (boot host win m0 now0 now1 rm))
      /\ World.visibilityBoost (run host es (boot host win m0 now0 now1 rm)) <= 1).
Proof.
  split.
  { rewrite boost_after_update. apply clamp_range. lra. }
  split; [rewrite boost_after_update; reflexivity |].
  split.
  { intro Z0. unfold updateVisibilityBoost.
    destruct (Qeqb_spec (clamp (boostSum no_media) 0 1) (World.visibilityBoost s))
      as [_ | N]; [reflexivity |].
    exfalso. apply N. rewrite Z0. reflexivity. }
  split; [rewrite boost_after_update; reflexivity |].
  split; [rewrite boost_after_update; reflexivity |].
  apply run_boost_range. rewrite boot_boost.
  pose proof (clamp_range (boostSum m0) 0 1 ltac:(lra)). lra.
Qed.

Lemma boost_stays_in_unit_witness :
  updateVisibilityBoost host0 no_media world_reduced = world_reduced.
Proof.
  apply (boost_stays_in_unit host0 win0 no_media no_media 0 0 false [] world_reduced).
  reflexivity.
Defined.

(** ** Growing, shrinking and reseeding the field *)

Lemma made_look_reads s s' p :
  World.visibilityBoost s' = World.visibilityBoost s ->
  made_look s p -> made_look s' p.
Proof.
  intro B. unfold made_look, getPetalAlpha, getPetalColors. rewrite B. tauto.
Qed.

Lemma reconcile_shape host s target n :
  fst (reconcile host s target n)
  = firstn (Z.to_nat target) (World.petals s)
    ++ fst (makePetals host s (target - Z.of_nat (length (World.petals s))) false n).
Proof.
  unfold reconcile.
  destruct (Z.ltb_spec (Z.of_nat (length (World.petals s))) target) as [A | A].
  - unfold bind. destruct (makePetals host s _ false n) as [added n'].
    cbn [fst ret]. rewrite firstn_all2 by lia. reflexivity.
  - assert (E : fst (makePetals host s
                       (target - Z.of_nat (length (World.petals s))) false n) = []).
    { unfold makePetals.
      replace (Z.to_nat (target - Z.of_nat (length (World.petals s)))) with 0%nat by lia.
      reflexivity. }
    rewrite E, app_nil_r.
    destruct (Z.ltb_spec target (Z.of_nat (length (World.petals s)))) as [B | B];
      cbn [fst ret]; [reflexivity |].
    rewrite firstn_all2 by lia. reflexivity.
Qed.

Lemma rescaleX_kept prevW w ps :
  Forall2 kept_but_x_sprite ps (rescaleX prevW w ps).
Proof.
  unfold rescaleX. destruct (_ && _).
  - apply Forall2_map_r. intro p. apply kept_set_x.
  - apply Forall2_diag. intro p. unfold kept_but_x_sprite. repeat split.
Qed.

Lemma pullBack_kept host w ps n :
  Forall2 kept_but_x_sprite ps (fst (pullBack host w ps n)).
Proof.
  revert n; induction ps as [| p rest IH]; intro n; [constructor |].
  cbn [pullBack]. unfold bind at 1.
  destruct (_ || _).
  - unfold bind at 1. rewrite rand_value. unfold bind at 1, ret at 1.
    specialize (IH (S n)). destruct (pullBack host w rest (S n)) as [rest' n'].
    cbn [fst ret] in *. constructor; [apply kept_set_x | exact IH].
  - unfold bind at 1, ret at 1.
    specialize (IH n). destruct (pullBack host w rest n) as [rest' n'].
    cbn [fst ret] in *. constructor; [| exact IH].
    unfold kept_but_x_sprite. repeat split.
Qed.

Lemma rerender_kept host s prev ps :
  Forall2 kept_but_x_sprite ps (rerender host s prev ps).
Proof.
  unfold rerender.
  assert (D : Forall2 kept_but_x_sprite ps ps).
  { apply Forall2_diag. intro p. unfold kept_but_x_sprite. repeat split. }
  destruct prev as [pb |]; [| exact D]. destruct (negb _); [| exact D].
  apply Forall2_map_r. intro p. apply renderPetalSprite_kept.
Qed.

(** The list that an incremental [resize] keeps, and the one a reseed makes. *)
Lemma resize_petals_cases host win preserve prev s :
  let s' := resize host win preserve prev s in
  let target := targetCount (World.w s') (World.h s') (getQualitySettings s) in
  exists s1,
    (World.w s1 = World.w s' /\ World.h s1 = World.h s'
     /\ World.level s1 = World.level s'
     /\ World.visibilityBoost s1 = World.visibilityBoost s'
     /\ World.petals s1 = World.petals s
     /\ World.randomCalls s1 = World.randomCalls s)
    /\ ((preserve && (0 <? length (World.petals s))%nat && Qltb 0 (World.w s) = false
         /\ World.petals s' = fst (makePetals host s1 target true (World.randomCalls s))
         /\ World.randomCalls s'
            = snd (makePetals host s1 target true (World.randomCalls s)))
        \/ (preserve && (0 <? length (World.petals s))%nat && Qltb 0 (World.w s) = true
            /\ Forall2 kept_but_x_sprite
                 (fst (reconcile host s1 target (World.randomCalls s)))
                 (World.petals s'))).
Proof.
  cbv zeta.
  destruct (resize_viewport host win preserve prev s) as (W & H).
  cbv zeta in W, H. rewrite W, H. clear W H.
  unfold resize; cbv zeta.
  set (w' := inject_Z (Z.max 1 (Math_floor (innerWidth win)))).
  set (h' := inject_Z (Z.max 1 (Math_floor (innerHeight win)))).
  set (s1 := World.set_viewport _ w' h' s).
  set (tc := targetCount w' h' (getQualitySettings s)).
  exists s1.
  change (World.petals s1) with (World.petals s).
  change (World.randomCalls s1) with (World.randomCalls s).
  destruct (preserve && (0 <? length (World.petals s))%nat && Qltb 0 (World.w s));
    cbn [negb].
  - unfold bind.
    pose proof (rescaleX_kept (World.w s) w'
                  (fst (reconcile host s1 tc (World.randomCalls s)))) as F1.
    destruct (reconcile host s1 tc (World.randomCalls s)) as [ps0 n0].
    cbn [fst] in *.
    pose proof (pullBack_kept host w' (rescaleX (World.w s) w' ps0) n0) as F2.
    destruct (pullBack host w' (rescaleX (World.w s) w' ps0) n0) as [ps n].
    cbn [fst] in *.
    pose proof (rerender_kept host s1 prev ps) as F3.
    split; [repeat split |]. right. split; [reflexivity |].
    cbn [World.petals World.set_petals World.set_randomCalls].
    pose proof (Forall2_compose _ _ _ _ _ (Forall2_compose _ _ _ _ _ F1 F2) F3) as F.
    eapply Forall2_impl; [| exact F].
    intros a b (c & (e & K1 & K2) & K3).
    eapply kept_trans; [eapply kept_trans |]; eassumption.
  - destruct (makePetals host s1 tc true (World.randomCalls s)) as [ps n] eqn:E.
    split; [repeat split |]. left. repeat split.
Qed.

(** X16.  An incremental resize that changes the count keeps the survivors in
    order: with [k] the smaller of the old and the new count, petal [i < k]
    of the new list is petal [i] of the old one, changed in nothing but [x]
    and the sprite.  The petals it adds (the new count minus the old one, none
    when shrinking) follow them; they are made for the entry band with
    up-to-date looks, and then go through the same rescaling of [x] as the
    survivors. *)
Theorem incremental_resize_survivors (host : Host) (win : Window)
    (prev : option Q) (s : World.t) :
  random_ok host ->
  (0 < length (World.petals s))%nat -> 0 < World.w s ->
  let s' := resize host win true prev s in
  exists added,
    Forall2 kept_but_x_sprite
            (firstn (length (World.petals s')) (World.petals s) ++ added)
            (World.petals s')
    /\ length added = (length (World.petals s') - length (World.petals s))%nat
    /\ Forall (made_motion (World.w s') (World.h s') false) added
    /\ Forall (made_look s') added.
Proof.
  intros R Hl Hw s'.
  destruct (resize_petals_cases host win true prev s)
    as (s1 & (W & H & L & B & P & N) & [[C _] | [_ F]]).
  - exfalso. cbn [andb] in C. apply andb_false_iff in C as [C | C].
    + apply Nat.ltb_ge in C. lia.
    + apply Qltb_false in C. lra.
  - fold s' in W, H, L, B, F.
    pose proof (resize_length host win true prev s) as Len.
    destruct (resize_viewport host win true prev s) as (W' & H').
    fold s' in Len, W', H'. rewrite <- W', <- H' in Len.
    set (tc := targetCount (World.w s') (World.h s') (getQualitySettings s)) in *.
    rewrite reconcile_shape, P in F.
    exists (fst (makePetals host s1 (tc - Z.of_nat (length (World.petals s))) false
                            (World.randomCalls s))).
    rewrite Len. split; [exact F |].
    unfold makePetals.
    destruct (makePetalsN_spec host s1 false
                (Z.to_nat (tc - Z.of_nat (length (World.petals s))))
                (World.randomCalls s) R) as (M & K & _);
      [rewrite W, W'; pose proof (viewport_ge_1 (innerWidth win)); lra
      | rewrite H, H'; pose proof (viewport_ge_1 (innerHeight win)); lra |].
    rewrite makePetalsN_length. split; [lia |].
    rewrite W, H in M. split; [exact M |].
    eapply Forall_impl; [| exact K]. intro p. apply made_look_reads.
    symmetry; exact B.
Qed.

Lemma incremental_resize_survivors_witness :
  exists added,
    Forall2 kept_but_x_sprite
            (firstn (length (World.petals
                               (resize host0 win0 true None world_reduced)))
                    (World.petals world_reduced) ++ added)
            (World.petals (resize host0 win0 true None world_reduced)).
Proof.
  destruct (incremental_resize_survivors host0 win0 None world_reduced
              random_ok_host0) as (added & F & _); [cbn; lia | reflexivity |].
  exists added. exact F.
Defined.



(** * Properties of the page script *)

(** ** Choosing and applying a language *)

Lemma parseLang_code l : Main.parseLang (Some (Main.code l)) = Some l.
Proof. destruct l; reflexivity. Qed.

Lemma parseLang_some v l : Main.parseLang v = Some l -> v = Some (Main.code l).
Proof.
  unfold Main.parseLang. destruct v as [t |]; [| discriminate].
  destruct (String.eqb_spec t "ja") as [-> | _].
  - intro E. injection E as <-. reflexivity.
  - destruct (String.eqb_spec t "en") as [-> | _]; [| discriminate].
    intro E. injection E as <-. reflexivity.
Qed.

(** X21.  The first language is the one stored under ["lang"] when that is
    ["ja"] or ["en"]; otherwise the one of [<html lang>] when that is ["ja"]
    or ["en"]; otherwise Japanese.  When reading the storage throws, the
    language is Japanese whatever [<html lang>] says. *)
Theorem initialLang_priority (st : Main.Storage) (html : option String.string)
    (l : Main.Lang) :
  (Main.readable st = false -> Main.initialLang st html = Main.ja)
  /\ (Main.readable st = true -> Main.item st = Some (Main.code l) ->
      Main.initialLang st html = l)
  /\ (Main.readable st = true -> Main.parseLang (Main.item st) = None ->
      html = Some (Main.code l) -> Main.initialLang st html = l)
  /\ (Main.readable st = true -> Main.parseLang (Main.item st) = None ->
      Main.parseLang html = None -> Main.initialLang st html = Main.ja)
  /\ (forall v, Main.parseLang v = Some l <-> v = Some (Main.code l)).
Proof.
  unfold Main.initialLang. repeat split.
  - intros ->. reflexivity.
  - intros -> ->. rewrite parseLang_code. reflexivity.
  - intros -> -> ->. rewrite parseLang_code. reflexivity.
  - intros -> -> ->. reflexivity.
  - apply parseLang_some.
  - intros ->. apply parseLang_code.
Qed.

Lemma initialLang_priority_witness :
  Main.initialLang (Main.mkStorage false true (Some "en"%string)) (Some "en"%string)
  = Main.ja.
Proof.
  destruct (initialLang_priority (Main.mkStorage false true (Some "en"%string))
              (Some "en"%string) Main.en) as (H & _).
  apply H. reflexivity.
Defined.

(** Both languages translate the same keys. *)
Lemma lookup_same_keys k l l' :
  Main.lookup k (Main.I18N l) = None -> Main.lookup k (Main.I18N l') = None.
Proof.
  destruct l, l'; cbn [Main.I18N Main.lookup]; try (intro; assumption);
    repeat match goal with
           | |- context [String.eqb ?a k] => destruct (String.eqb a k)
           end;
    intro E; try discriminate E; reflexivity.
Qed.

Lemma translate_absorbs l l' n :
  Main.translate l (Main.translate l' n) = Main.translate l n.
Proof.
  destruct n as [h k t]. unfold Main.translate.
  cbn [Main.isHTMLElement Main.key Main.textContent].
  destruct h; cbn [negb]; [| reflexivity].
  destruct (String.eqb k "") eqn:K; [cbn [Main.isHTMLElement Main.key negb];
                                     rewrite K; reflexivity |].
  destruct (Main.lookup k (Main.I18N l')) as [v' |] eqn:L';
    cbn [Main.isHTMLElement Main.key negb]; rewrite K.
  - destruct (Main.lookup k (Main.I18N l)) as [v |] eqn:L; [reflexivity |].
    rewrite (lookup_same_keys _ _ l' L) in L'. discriminate L'.
  - reflexivity.
Qed.

Lemma applyLanguage_absorbs l l' p :
  Main.applyLanguage l (Main.applyLanguage l' p) = Main.applyLanguage l p.
Proof.
  unfold Main.applyLanguage.
  cbn [Main.nameLang Main.nodes Main.title Main.langBtn Main.techLink
       Main.nonTechLink Main.storage].
  f_equal.
  - destruct (Main.nameLang p); reflexivity.
  - rewrite map_map. apply map_ext. intro n. apply translate_absorbs.
  - destruct l; reflexivity.
  - destruct (Main.langBtn p) as [| | b]; try reflexivity.
    unfold Main.updateLangToggleButton.
    destruct (Main.labelText b); reflexivity.
  - destruct (Main.techLink p); reflexivity.
  - destruct (Main.nonTechLink p); reflexivity.
  - unfold Main.setItem. destruct (Main.writable (Main.storage p)) eqn:W;
      cbn [Main.writable]; rewrite ?W; reflexivity.
Qed.

Lemma initialLang_after st h :
  Main.initialLang (Main.setItem (Main.code (Main.initialLang st h)) st)
                   (Some (Main.code (Main.initialLang st h)))
  = Main.initialLang st h.
Proof.
  destruct st as [r w it]. unfold Main.initialLang, Main.setItem.
  cbn [Main.readable Main.writable Main.item].
  destruct r, w; cbn [Main.readable Main.writable Main.item];
    rewrite ?parseLang_code; try reflexivity.
  destruct (Main.parseLang it); rewrite ?parseLang_code; reflexivity.
Qed.

(** X22.  Applying a language overrides whatever language was applied before:
    the page after [applyLanguage(l)] does not depend on the language it
    showed.  So two clicks on the toggle bring back the page as it was after
    the first application, and running the whole script again on the page it
    produced changes nothing. *)
Theorem toggle_twice_restores (l l' : Main.Lang) (p : Main.Page) :
  Main.applyLanguage l (Main.applyLanguage l' p) = Main.applyLanguage l p
  /\ (Main.langBtn p <> Main.NoToggle ->
      Main.click (Main.click (Main.applyLanguage l p)) = Main.applyLanguage l p)
  /\ (Main.langBtn p = Main.NoToggle ->
      Main.click (Main.applyLanguage l p) = Main.applyLanguage l p)
  /\ Main.load (Main.load p) = Main.load p.
Proof.
  split; [apply applyLanguage_absorbs | split; [| split]].
  - intro B.
    assert (T : forall m, Main.langBtn p <> Main.NoToggle ->
              Main.click (Main.applyLanguage m p)
              = Main.applyLanguage (match m with Main.ja => Main.en | Main.en => Main.ja end)
                                   p).
    { intros m Hb. unfold Main.click.
      destruct (Main.langBtn (Main.applyLanguage m p)) eqn:E.
      - exfalso. apply Hb. unfold Main.applyLanguage in E. cbn [Main.langBtn] in E.
        destruct (Main.langBtn p); [reflexivity | discriminate E | discriminate E].
      - cbn [Main.lang Main.applyLanguage]. apply applyLanguage_absorbs.
      - cbn [Main.lang Main.applyLanguage]. apply applyLanguage_absorbs. }
    rewrite (T l B), (T _ B). destruct l; reflexivity.
  - intro B. unfold Main.click, Main.applyLanguage. cbn [Main.langBtn].
    rewrite B. reflexivity.
  - unfold Main.load. rewrite applyLanguage_absorbs. f_equal.
    apply initialLang_after.
Qed.

Lemma toggle_twice_restores_witness :
  Main.click (Main.click (Main.applyLanguage Main.en page0))
  = Main.applyLanguage Main.en page0.
Proof.
  destruct (toggle_twice_restores Main.en Main.ja page0) as (_ & H & _).
  apply H. discriminate.
Defined.

(** X23.  After [applyLanguage(l)] the page is in language [l]: [<html lang>]
    and the name element carry its code, the title is its title, every
    [HTMLElement] node whose key the table knows shows the translation and
    every other node keeps its text; the toggle offers the other language
    in its label, [aria-label] and [title]; the resume anchors that exist
    point at the files of [l]. *)
Theorem applyLanguage_shows (l : Main.Lang) (p : Main.Page) :
  let p' := Main.applyLanguage l p in
  let other : String.string :=
    match l with Main.ja => "Switch to English"%string | Main.en => "Switch to Japanese"%string end in
  (Main.lang p' = l /\ Main.htmlLang p' = Some (Main.code l)
   /\ (Main.nameLang p <> None -> Main.nameLang p' = Some (Some (Main.code l)))
   /\ Main.lookup "title"%string (Main.I18N l) = Some (Main.title p'))
  /\ Forall2 (fun n n' =>
                Main.isHTMLElement n' = Main.isHTMLElement n
                /\ Main.key n' = Main.key n
                /\ match Main.lookup (Main.key n) (Main.I18N l) with
                   | Some v =>
                       if Main.isHTMLElement n && negb (String.eqb (Main.key n) ""%string)
                       then Main.textContent n' = v
                       else Main.textContent n' = Main.textContent n
                   | None => Main.textContent n' = Main.textContent n
                   end)
             (Main.nodes p) (Main.nodes p')
  /\ (forall b, Main.langBtn p = Main.HtmlButton b ->
        exists b', Main.langBtn p' = Main.HtmlButton b'
                   /\ Main.ariaLabel b' = Some other /\ Main.titleAttr b' = Some other
                   /\ (Main.labelText b <> None ->
                       Main.labelText b'
                       = Some (match l with Main.ja => "EN"%string | Main.en => "日本語"%string end)
                       /\ Main.ownText b' = Main.ownText b)
                   /\ (Main.labelText b = None ->
                       Main.labelText b' = None
                       /\ Main.ownText b'
                          = match l with Main.ja => "EN"%string | Main.en => "日本語"%string end))
  /\ (Main.langBtn p = Main.NoToggle \/ Main.langBtn p = Main.OtherElement ->
      Main.langBtn p' = Main.langBtn p)
  /\ (Main.techLink p <> None -> Main.techLink p' = Some (fst (Main.RESUME_LINKS l)))
  /\ (Main.nonTechLink p <> None ->
      Main.nonTechLink p' = Some (snd (Main.RESUME_LINKS l)))
  /\ (Main.techLink p = None -> Main.techLink p' = None)
  /\ (Main.nonTechLink p = None -> Main.nonTechLink p' = None).
Proof.
  cbv zeta. unfold Main.applyLanguage.
  cbn [Main.lang Main.htmlLang Main.nameLang Main.title Main.nodes Main.langBtn
       Main.techLink Main.nonTechLink].
  split; [repeat split |].
  { destruct (Main.nameLang p); [reflexivity | intro C; contradiction]. }
  { destruct l; reflexivity. }
  split.
  { induction (Main.nodes p) as [| n ns IH]; cbn [map]; constructor; [| exact IH].
    destruct n as [h k t]. unfold Main.translate.
    cbn [Main.isHTMLElement Main.key Main.textContent].
    destruct h; cbn [negb andb].
    - destruct (String.eqb k ""%string); cbn [negb].
      + destruct (Main.lookup k (Main.I18N l)); repeat split.
      + destruct (Main.lookup k (Main.I18N l)); repeat split.
    - destruct (Main.lookup k (Main.I18N l)); repeat split. }
  split.
  { intros b ->. unfold Main.updateLangToggleButton.
    eexists. split; [reflexivity |].
    destruct (Main.labelText b) eqn:Lb;
      cbn [Main.ariaLabel Main.titleAttr Main.labelText Main.ownText];
      destruct l; (split; [reflexivity | split; [reflexivity | split]]);
      intro C; try discriminate C; try contradiction; split; reflexivity. }
  split.
  { intros [-> | ->]; reflexivity. }
  split; [destruct (Main.techLink p); [reflexivity | intro C; contradiction] |].
  split; [destruct (Main.nonTechLink p); [reflexivity | intro C; contradiction] |].
  split; intros ->; reflexivity.
Qed.

Lemma applyLanguage_shows_witness :
  Main.techLink (Main.applyLanguage Main.en page0)
  = Some (fst (Main.RESUME_LINKS Main.en)).
Proof.
  destruct (applyLanguage_shows Main.en page0) as (_ & _ & _ & _ & H & _).
  apply H. discriminate.
Defined.

(** X24.  The choice survives a reload when the storage works: after
    [applyLanguage(l)] the stored value is the code of [l], and the script
    started again on any page with that storage picks [l], whatever
    [<html lang>] says.  When writing throws, the storage is left as it was
    and the rest of the page is the same as with a working storage. *)
Theorem language_persists (l : Main.Lang) (p q : Main.Page) :
  (Main.writable (Main.storage p) = true ->
   Main.item (Main.storage (Main.applyLanguage l p)) = Some (Main.code l))
  /\ (Main.writable (Main.storage p) = true ->
      Main.readable (Main.storage p) = true ->
      Main.storage q = Main.storage (Main.applyLanguage l p) ->
      Main.lang (Main.load q) = l)
  /\ (Main.writable (Main.storage p) = false ->
      Main.storage (Main.applyLanguage l p) = Main.storage p)
  /\ (forall st,
        Main.applyLanguage l
          (Main.mkPage (Main.lang p) (Main.htmlLang p) (Main.nameLang p) (Main.nodes p)
                       (Main.title p) (Main.langBtn p) (Main.techLink p)
                       (Main.nonTechLink p) st)
        = Main.mkPage l (Main.htmlLang (Main.applyLanguage l p))
            (Main.nameLang (Main.applyLanguage l p))
            (Main.nodes (Main.applyLanguage l p))
            (Main.title (Main.applyLanguage l p))
            (Main.langBtn (Main.applyLanguage l p))
            (Main.techLink (Main.applyLanguage l p))
            (Main.nonTechLink (Main.applyLanguage l p))
            (Main.setItem (Main.code l) st)).
Proof.
  unfold Main.applyLanguage, Main.load, Main.setItem.
  cbn [Main.storage Main.lang].
  split; [intros ->; reflexivity |].
  split.
  { intros W R ->. rewrite W. unfold Main.initialLang.
    cbn [Main.readable Main.item]. rewrite R, parseLang_code. reflexivity. }
  split; [intros ->; reflexivity |].
  intro st. reflexivity.
Qed.

Lemma language_persists_witness :
  Main.item (Main.storage (Main.applyLanguage Main.en page0)) = Some "en"%string.
Proof.
  destruct (language_persists Main.en page0 page0) as (H & _).
  apply H. reflexivity.
Defined.

(** ** The shimmer duration *)







(** ** The shimmer of a button *)

Lemma update_same st b v : Main.update st b v b = v.
Proof. unfold Main.update. rewrite Nat.eqb_refl. reflexivity. Qed.

Lemma update_other st b v k : k <> b -> Main.update st b v k = st k.
Proof.
  intro N. unfold Main.update. destruct (Nat.eqb_spec k b); [contradiction | reflexivity].
Qed.

Lemma startShimmer_other style b st k :
  k <> b -> Main.startShimmer style b st k = st k.
Proof.
  intro N. unfold Main.startShimmer.
  destruct (Main.shimmerTimer (st b)); [reflexivity |].
  destruct (Main.shimmerActive (st b)); [reflexivity | apply update_other, N].
Qed.

Lemma react_other style e st k :
  k <> Main.buttonOf e -> Main.react style e st k = st k.
Proof.
  intro N. destruct e as [b | b | b | b]; cbn [Main.buttonOf Main.react] in *.
  - rewrite startShimmer_other by exact N. apply update_other, N.
  - apply update_other, N.
  - apply startShimmer_other, N.
  - destruct (Main.shimmerTimer (st b)); [| reflexivity].
    destruct (Main.hovered (st b)).
    + rewrite startShimmer_other by exact N. apply update_other, N.
    + apply update_other, N.
Qed.

Lemma startShimmer_in_step style b st k :
  in_step (st k) -> in_step (Main.startShimmer style b st k).
Proof.
  intro H. unfold Main.startShimmer.
  destruct (Main.shimmerTimer (st b)) eqn:T; [exact H |].
  destruct (Main.shimmerActive (st b)) eqn:A; [exact H |].
  unfold Main.update. destruct (Nat.eqb_spec k b); [| exact H].
  unfold in_step. cbn. split; [discriminate | reflexivity].
Qed.

Lemma react_in_step style e st :
  (forall k, in_step (st k)) -> forall k, in_step (Main.react style e st k).
Proof.
  intros H k. destruct e as [b | b | b | b]; cbn [Main.react].
  - apply startShimmer_in_step. unfold Main.update.
    destruct (Nat.eqb_spec k b) as [-> | _]; [| apply H].
    specialize (H b). unfold in_step in *. cbn. exact H.
  - unfold Main.update.
    destruct (Nat.eqb_spec k b) as [-> | _]; [| apply H].
    specialize (H b). unfold in_step in *. cbn. exact H.
  - apply startShimmer_in_step, H.
  - destruct (Main.shimmerTimer (st b)) eqn:T; [| apply H].
    assert (G : forall i, in_step (Main.update st b
                                     (Main.mkBtn false None (Main.hovered (st b))) i)).
    { intro i. unfold Main.update.
      destruct (Nat.eqb_spec i b); [| apply H].
      unfold in_step. cbn. split; [discriminate | intro C; contradiction]. }
    destruct (Main.hovered (st b)); [apply startShimmer_in_step |]; apply G.
Qed.

(** X26.  Starting from a page where no button shimmers, after any sequence
    of pointer, focus and timer events every button carries the class
    [shimmer-active] exactly while one of its timers is pending, and a button
    that no event named is still idle. *)
Theorem shimmer_class_follows_timer (style : nat -> list Ascii.ascii)
    (es : list Main.ShimmerEvent) (k : nat) :
  let st := Main.reactAll style es Main.idle in
  (Main.shimmerActive (st k) = true <-> Main.shimmerTimer (st k) <> None)
  /\ (~ In k (map Main.buttonOf es) -> st k = Main.idle k).
Proof.
  cbv zeta. split.
  - assert (G : forall st0, (forall j, in_step (st0 j)) ->
                forall j, in_step (Main.reactAll style es st0 j)).
    { induction es as [| e es IH]; intros st0 H i; [apply H |].
      cbn [Main.reactAll fold_left]. apply IH. apply react_in_step, H. }
    apply (G Main.idle).
    intro j. unfold in_step, Main.idle. cbn. split; [discriminate | intro C; contradiction].
  - generalize Main.idle. induction es as [| e es IH]; intros st0 N; [reflexivity |].
    cbn [Main.reactAll fold_left]. cbn [map In] in N.
    unfold Main.reactAll in IH. rewrite IH by tauto.
    apply react_other. intro E. apply N. left. symmetry. exact E.
Qed.

Lemma shimmer_class_follows_timer_witness :
  Main.reactAll style0 [Main.MouseEnter 1%nat; Main.TimerFires 1%nat] Main.idle 2%nat
  = Main.idle 2%nat.
Proof.
  apply (shimmer_class_follows_timer style0 [Main.MouseEnter 1%nat; Main.TimerFires 1%nat] 2%nat).
  cbn. intros [C | [C | C]]; discriminate || contradiction.
Defined.

(** X27.  A shimmer is never restarted while it runs: entering or focusing a
    button with a pending timer leaves its timer and class alone.  An idle
    button starts one on entering or focus, with the duration of its style.
    When the timer fires the class comes off; the shimmer starts again if the
    pointer is still over the button and stops if it has left.  A button that
    carries the class with no timer pending never starts. *)
Theorem shimmer_runs_to_the_end (style : nat -> list Ascii.ascii)
    (st : Main.Shimmer) (b : nat) :
  (Main.shimmerTimer (st b) <> None ->
   Main.shimmerTimer (Main.react style (Main.MouseEnter b) st b)
   = Main.shimmerTimer (st b)
   /\ Main.shimmerActive (Main.react style (Main.MouseEnter b) st b)
      = Main.shimmerActive (st b)
   /\ Main.hovered (Main.react style (Main.MouseEnter b) st b) = true
   /\ Main.react style (Main.FocusIn b) st = st)
  /\ (Main.shimmerTimer (st b) = None -> Main.shimmerActive (st b) = false ->
      Main.react style (Main.FocusIn b) st b
      = Main.mkBtn true (Some (Main.getShimmerDurationMs (style b)))
                   (Main.hovered (st b))
      /\ Main.react style (Main.MouseEnter b) st b
         = Main.mkBtn true (Some (Main.getShimmerDurationMs (style b))) true)
  /\ (Main.shimmerTimer (st b) <> None -> Main.hovered (st b) = true ->
      Main.react style (Main.TimerFires b) st b
      = Main.mkBtn true (Some (Main.getShimmerDurationMs (style b))) true)
  /\ (Main.shimmerTimer (st b) <> None -> Main.hovered (st b) = false ->
      Main.react style (Main.TimerFires b) st b = Main.mkBtn false None false)
  /\ (Main.shimmerTimer (st b) = None -> Main.shimmerActive (st b) = true ->
      forall e, Main.buttonOf e = b ->
        Main.shimmerTimer (Main.react style e st b) = None
        /\ Main.shimmerActive (Main.react style e st b) = true).
Proof.
  split; [| split; [| split; [| split]]].
  - intro T. cbn [Main.react]. unfold Main.startShimmer.
    rewrite update_same. cbn [Main.shimmerTimer Main.shimmerActive].
    destruct (Main.shimmerTimer (st b)) eqn:E; [| contradiction].
    rewrite update_same. cbn. repeat split.
  - intros T A. cbn [Main.react]. unfold Main.startShimmer.
    rewrite update_same. cbn [Main.shimmerTimer Main.shimmerActive Main.hovered].
    rewrite T, A, !update_same. split; reflexivity.
  - intros T H. cbn [Main.react].
    destruct (Main.shimmerTimer (st b)) eqn:E; [| contradiction].
    rewrite H. unfold Main.startShimmer. rewrite update_same.
    cbn [Main.shimmerTimer Main.shimmerActive Main.hovered].
    rewrite update_same. reflexivity.
  - intros T H. cbn [Main.react].
    destruct (Main.shimmerTimer (st b)) eqn:E; [| contradiction].
    rewrite H, update_same. reflexivity.
  - intros T A e <-.
    destruct e as [c | c | c | c]; cbn [Main.buttonOf Main.react] in *;
      unfold Main.startShimmer; rewrite ?update_same;
      cbn [Main.shimmerTimer Main.shimmerActive]; rewrite ?T, ?A, ?update_same;
      cbn [Main.shimmerTimer Main.shimmerActive]; split; assumption || reflexivity.
Qed.

Lemma shimmer_runs_to_the_end_witness :
  Main.react style0 (Main.MouseEnter 1%nat) Main.idle 1%nat
  = Main.mkBtn true (Some (Main.getShimmerDurationMs (style0 1%nat))) true.
Proof.
  destruct (shimmer_runs_to_the_end style0 Main.idle 1%nat) as (_ & H & _).
  apply H; reflexivity.
Defined.

Lemma reachable_frame_in_play_witness :
  random_ok host0
  /\ Forall (in_play (World.w (tick host0 win0 40 (boot host0 win0 no_media 0 16 false)))
                     (World.h (tick host0 win0 40 (boot host0 win0 no_media 0 16 false))))
            (World.petals (tick host0 win0 40 (boot host0 win0 no_media 0 16 false))).
Proof.
  split; [exact random_ok_host0 |].
  exact (proj2 (proj2 (reachable_frame_in_play host0 win0 no_media 0 16 false []
                         win0 40 random_ok_host0))).
Defined.
